(** * deplic: the dependency report generator of [src/index.ts]

    A shallow embedding of the TypeScript program and the properties of
    its report format, cache reader, license classifier and fetch/cache
    pipeline.

    Strings are JavaScript strings: sequences of UTF-16 code units, here
    [list N].  Objects used as dictionaries keep their prototype chain,
    since the program reads them with plain property access.  Everything
    the host provides (files, registry, clock, locale) is a field of
    [Host]. *)

From Stdlib Require Import String Ascii ZArith NArith List Lia Bool.
From Stdlib Require Import Sorting.Permutation Sorting.Sorted.
From stdpp Require Import base option list gmap.

Local Open Scope N_scope.
Local Open Scope list_scope.

(** ** JavaScript strings *)

Module JS.

Abbreviation jsstring := (list N).

(** An ASCII literal as code units. *)
Definition lit (s : string) : jsstring :=
  List.map N_of_ascii (list_ascii_of_string s).

(** [s.startsWith(p)] *)
Fixpoint startsWith (s p : jsstring) {struct p} : bool :=
  match p, s with
  | [], _ => true
  | _ :: _, [] => false
  | c :: p', d :: s' => (c =? d) && startsWith s' p'
  end.

(** [s.includes(p)] *)
Fixpoint includes (s p : jsstring) : bool :=
  startsWith s p ||
  match s with
  | [] => false
  | _ :: s' => includes s' p
  end.

(** [s.split(sep)] for a non-empty separator, as at every call site.
    [skip] counts the code units of a matched separator still to be
    dropped; [cur] is the piece being collected. *)
Fixpoint splitGo (sep : jsstring) (skip : nat) (cur s : jsstring)
  : list jsstring :=
  match s with
  | [] => [cur]
  | c :: s' =>
      match skip with
      | S k => splitGo sep k cur s'
      | O =>
          if startsWith s sep
          then cur :: splitGo sep (length sep - 1) [] s'
          else splitGo sep 0 (cur ++ [c]) s'
      end
  end.

Definition split (s sep : jsstring) : list jsstring := splitGo sep 0 [] s.

(** [parts.join(sep)] *)
Fixpoint join (sep : jsstring) (parts : list jsstring) : jsstring :=
  match parts with
  | [] => []
  | [p] => p
  | p :: rest => p ++ sep ++ join sep rest
  end.

(** White space and line terminators of ECMAScript, the set stripped by
    [trim] and matched by [\s]. *)
Definition isWhiteSpace (c : N) : bool :=
  (c =? 9) || (c =? 10) || (c =? 11) || (c =? 12) || (c =? 13) ||
  (c =? 32) || (c =? 160) || (c =? 5760) ||
  ((8192 <=? c) && (c <=? 8202)) ||
  (c =? 8232) || (c =? 8233) || (c =? 8239) || (c =? 8287) ||
  (c =? 12288) || (c =? 65279).

Fixpoint trimStart (s : jsstring) : jsstring :=
  match s with
  | [] => []
  | c :: s' => if isWhiteSpace c then trimStart s' else s
  end.

Definition trimEnd (s : jsstring) : jsstring := rev (trimStart (rev s)).

(** [s.trim()] *)
Definition trim (s : jsstring) : jsstring := trimEnd (trimStart s).

(** [s.replace(pat, rep)] with a string pattern: the first occurrence. *)
Fixpoint replaceFirst (s pat rep : jsstring) : jsstring :=
  if startsWith s pat then rep ++ drop (length pat) s
  else match s with
       | [] => []
       | c :: s' => c :: replaceFirst s' pat rep
       end.

(** [s.replace(/\*/g, "")] *)
Definition removeStars (s : jsstring) : jsstring :=
  List.filter (fun c => negb (c =? 42)) s.

(** [s.slice(0, -1)] *)
Definition dropLast (s : jsstring) : jsstring := removelast s.

(** The upper-case form of a code unit below 128. *)
Definition upperUnit (c : N) : N :=
  if (97 <=? c) && (c <=? 122) then c - 32 else c.

Definition isAscii (s : jsstring) : Prop := Forall (fun c => c < 128) s.

(** Strict order of [<] on strings, which is also the order of the
    default [Array.prototype.sort]: lexicographic by code unit. *)
Fixpoint ltb (a b : jsstring) : bool :=
  match a, b with
  | _, [] => false
  | [], _ :: _ => true
  | x :: a', y :: b' => (x <? y) || ((x =? y) && ltb a' b')
  end.

Definition leb (a b : jsstring) : bool := negb (ltb b a).

Fixpoint insertSorted (x : jsstring) (l : list jsstring) : list jsstring :=
  match l with
  | [] => [x]
  | y :: l' => if leb x y then x :: l else y :: insertSorted x l'
  end.

(** [keys.sort()] *)
Definition sort (l : list jsstring) : list jsstring :=
  fold_right insertSorted [] l.

(** Truthiness of a string: [""] is falsy. *)
Definition truthy (s : jsstring) : bool :=
  match s with [] => false | _ => true end.

(** Decimal rendering of a count, as [String(n)] does for the counts of
    this program. *)
Fixpoint digitsOfUint (u : Decimal.uint) : jsstring :=
  match u with
  | Decimal.Nil => []
  | Decimal.D0 u' => 48 :: digitsOfUint u'
  | Decimal.D1 u' => 49 :: digitsOfUint u'
  | Decimal.D2 u' => 50 :: digitsOfUint u'
  | Decimal.D3 u' => 51 :: digitsOfUint u'
  | Decimal.D4 u' => 52 :: digitsOfUint u'
  | Decimal.D5 u' => 53 :: digitsOfUint u'
  | Decimal.D6 u' => 54 :: digitsOfUint u'
  | Decimal.D7 u' => 55 :: digitsOfUint u'
  | Decimal.D8 u' => 56 :: digitsOfUint u'
  | Decimal.D9 u' => 57 :: digitsOfUint u'
  end.

Definition ofNat (n : nat) : jsstring := digitsOfUint (Nat.to_uint n).

(** *** [encodeURIComponent] *)

Definition isUnreserved (c : N) : bool :=
  ((65 <=? c) && (c <=? 90)) || ((97 <=? c) && (c <=? 122)) ||
  ((48 <=? c) && (c <=? 57)) ||
  (c =? 45) || (c =? 95) || (c =? 46) || (c =? 33) || (c =? 126) ||
  (c =? 42) || (c =? 39) || (c =? 40) || (c =? 41).

Definition hexDigit (d : N) : N := if d <? 10 then 48 + d else 55 + d.

Definition percent (byte : N) : jsstring :=
  [37; hexDigit (byte / 16); hexDigit (byte mod 16)].

(** UTF-8 octets of a code point. *)
Definition utf8 (cp : N) : list N :=
  if cp <? 128 then [cp]
  else if cp <? 2048 then
    [N.lor 192 (N.shiftr cp 6); N.lor 128 (N.land cp 63)]
  else if cp <? 65536 then
    [N.lor 224 (N.shiftr cp 12);
     N.lor 128 (N.land (N.shiftr cp 6) 63);
     N.lor 128 (N.land cp 63)]
  else
    [N.lor 240 (N.shiftr cp 18);
     N.lor 128 (N.land (N.shiftr cp 12) 63);
     N.lor 128 (N.land (N.shiftr cp 6) 63);
     N.lor 128 (N.land cp 63)].

Definition isHighSurrogate (c : N) : bool := (55296 <=? c) && (c <=? 56319).
Definition isLowSurrogate (c : N) : bool := (56320 <=? c) && (c <=? 57343).

(** [None] is the [URIError] thrown on a lone surrogate.  [pending] holds
    a high surrogate waiting for its low half. *)
Fixpoint encodeGo (pending : option N) (s : jsstring) : option jsstring :=
  match s with
  | [] => match pending with None => Some [] | Some _ => None end
  | c :: s' =>
      match pending with
      | Some hi =>
          if isLowSurrogate c then
            let cp := 65536 + (hi - 55296) * 1024 + (c - 56320) in
            match encodeGo None s' with
            | Some r => Some (concat (List.map percent (utf8 cp)) ++ r)
            | None => None
            end
          else None
      | None =>
          if isUnreserved c then
            match encodeGo None s' with
            | Some r => Some (c :: r)
            | None => None
            end
          else if isLowSurrogate c then None
          else if isHighSurrogate c then encodeGo (Some c) s'
          else
            match encodeGo None s' with
            | Some r => Some (concat (List.map percent (utf8 c)) ++ r)
            | None => None
            end
      end
  end.

Definition encodeURIComponent (s : jsstring) : option jsstring :=
  encodeGo None s.

(** *** [toUpperCase] *)

(** The code points of a string: a high surrogate followed by a low one
    is one code point, every other code unit stands for itself.
    [pending] holds a high surrogate waiting for its low half. *)
Fixpoint codePointsGo (pending : option N) (s : jsstring) : list N :=
  match s with
  | [] => match pending with Some hi => [hi] | None => [] end
  | c :: s' =>
      match pending with
      | Some hi =>
          if isLowSurrogate c
          then (65536 + (hi - 55296) * 1024 + (c - 56320)) :: codePointsGo None s'
          else if isHighSurrogate c then hi :: codePointsGo (Some c) s'
          else hi :: c :: codePointsGo None s'
      | None =>
          if isHighSurrogate c then codePointsGo (Some c) s'
          else c :: codePointsGo None s'
      end
  end.

Definition codePoints (s : jsstring) : list N := codePointsGo None s.

(** UTF-16 code units of a code point. *)
Definition utf16 (cp : N) : jsstring :=
  if cp <? 65536 then [cp]
  else [55296 + (cp - 65536) / 1024; 56320 + (cp - 65536) mod 1024].

(** The upper-case mappings of the Unicode Character Database (version
    14.0) that give one code point: [(first, last, stride, target)]
    stands for [first] to [target], [first + stride] to
    [target + stride], and so on up to [last]. *)
Definition upperRuns : list (N * N * N * N) :=
  [
   (97, 122, 1, 65); (181, 181, 1, 924); (224, 246, 1, 192);
   (248, 254, 1, 216); (255, 255, 1, 376); (257, 303, 2, 256);
   (305, 305, 1, 73); (307, 311, 2, 306); (314, 328, 2, 313);
   (331, 375, 2, 330); (378, 382, 2, 377); (383, 383, 1, 83);
   (384, 384, 1, 579); (387, 389, 2, 386); (392, 392, 1, 391);
   (396, 396, 1, 395); (402, 402, 1, 401); (405, 405, 1, 502);
   (409, 409, 1, 408); (410, 410, 1, 573); (414, 414, 1, 544);
   (417, 421, 2, 416); (424, 424, 1, 423); (429, 429, 1, 428);
   (432, 432, 1, 431); (436, 438, 2, 435); (441, 441, 1, 440);
   (445, 445, 1, 444); (447, 447, 1, 503); (453, 453, 1, 452);
   (454, 454, 1, 452); (456, 456, 1, 455); (457, 457, 1, 455);
   (459, 459, 1, 458); (460, 460, 1, 458); (462, 476, 2, 461);
   (477, 477, 1, 398); (479, 495, 2, 478); (498, 498, 1, 497);
   (499, 499, 1, 497); (501, 501, 1, 500); (505, 543, 2, 504);
   (547, 563, 2, 546); (572, 572, 1, 571); (575, 576, 1, 11390);
   (578, 578, 1, 577); (583, 591, 2, 582); (592, 592, 1, 11375);
   (593, 593, 1, 11373); (594, 594, 1, 11376); (595, 595, 1, 385);
   (596, 596, 1, 390); (598, 599, 1, 393); (601, 601, 1, 399);
   (603, 603, 1, 400); (604, 604, 1, 42923); (608, 608, 1, 403);
   (609, 609, 1, 42924); (611, 611, 1, 404); (613, 613, 1, 42893);
   (614, 614, 1, 42922); (616, 616, 1, 407); (617, 617, 1, 406);
   (618, 618, 1, 42926); (619, 619, 1, 11362); (620, 620, 1, 42925);
   (623, 623, 1, 412); (625, 625, 1, 11374); (626, 626, 1, 413);
   (629, 629, 1, 415); (637, 637, 1, 11364); (640, 640, 1, 422);
   (642, 642, 1, 42949); (643, 643, 1, 425); (647, 647, 1, 42929);
   (648, 648, 1, 430); (649, 649, 1, 580); (650, 651, 1, 433);
   (652, 652, 1, 581); (658, 658, 1, 439); (669, 669, 1, 42930);
   (670, 670, 1, 42928); (837, 837, 1, 921); (881, 883, 2, 880);
   (887, 887, 1, 886); (891, 893, 1, 1021); (940, 940, 1, 902);
   (941, 943, 1, 904); (945, 961, 1, 913); (962, 962, 1, 931);
   (963, 971, 1, 931); (972, 972, 1, 908); (973, 974, 1, 910);
   (976, 976, 1, 914); (977, 977, 1, 920); (981, 981, 1, 934);
   (982, 982, 1, 928); (983, 983, 1, 975); (985, 1007, 2, 984);
   (1008, 1008, 1, 922); (1009, 1009, 1, 929); (1010, 1010, 1, 1017);
   (1011, 1011, 1, 895); (1013, 1013, 1, 917); (1016, 1016, 1, 1015);
   (1019, 1019, 1, 1018); (1072, 1103, 1, 1040); (1104, 1119, 1, 1024);
   (1121, 1153, 2, 1120); (1163, 1215, 2, 1162); (1218, 1230, 2, 1217);
   (1231, 1231, 1, 1216); (1233, 1327, 2, 1232); (1377, 1414, 1, 1329);
   (4304, 4346, 1, 7312); (4349, 4351, 1, 7357); (5112, 5117, 1, 5104);
   (7296, 7296, 1, 1042); (7297, 7297, 1, 1044); (7298, 7298, 1, 1054);
   (7299, 7300, 1, 1057); (7301, 7301, 1, 1058); (7302, 7302, 1, 1066);
   (7303, 7303, 1, 1122); (7304, 7304, 1, 42570); (7545, 7545, 1, 42877);
   (7549, 7549, 1, 11363); (7566, 7566, 1, 42950); (7681, 7829, 2, 7680);
   (7835, 7835, 1, 7776); (7841, 7935, 2, 7840); (7936, 7943, 1, 7944);
   (7952, 7957, 1, 7960); (7968, 7975, 1, 7976); (7984, 7991, 1, 7992);
   (8000, 8005, 1, 8008); (8017, 8023, 2, 8025); (8032, 8039, 1, 8040);
   (8048, 8049, 1, 8122); (8050, 8053, 1, 8136); (8054, 8055, 1, 8154);
   (8056, 8057, 1, 8184); (8058, 8059, 1, 8170); (8060, 8061, 1, 8186);
   (8112, 8113, 1, 8120); (8126, 8126, 1, 921); (8144, 8145, 1, 8152);
   (8160, 8161, 1, 8168); (8165, 8165, 1, 8172); (8526, 8526, 1, 8498);
   (8560, 8575, 1, 8544); (8580, 8580, 1, 8579); (9424, 9449, 1, 9398);
   (11312, 11359, 1, 11264); (11361, 11361, 1, 11360); (11365, 11365, 1, 570);
   (11366, 11366, 1, 574); (11368, 11372, 2, 11367); (11379, 11379, 1, 11378);
   (11382, 11382, 1, 11381); (11393, 11491, 2, 11392);
   (11500, 11502, 2, 11499); (11507, 11507, 1, 11506);
   (11520, 11557, 1, 4256); (11559, 11559, 1, 4295); (11565, 11565, 1, 4301);
   (42561, 42605, 2, 42560); (42625, 42651, 2, 42624);
   (42787, 42799, 2, 42786); (42803, 42863, 2, 42802);
   (42874, 42876, 2, 42873); (42879, 42887, 2, 42878);
   (42892, 42892, 1, 42891); (42897, 42899, 2, 42896);
   (42900, 42900, 1, 42948); (42903, 42921, 2, 42902);
   (42933, 42947, 2, 42932); (42952, 42954, 2, 42951);
   (42961, 42961, 1, 42960); (42967, 42969, 2, 42966);
   (42998, 42998, 1, 42997); (43859, 43859, 1, 42931);
   (43888, 43967, 1, 5024); (65345, 65370, 1, 65313);
   (66600, 66639, 1, 66560); (66776, 66811, 1, 66736);
   (66967, 67003, 2, 66928); (66968, 66977, 1, 66929);
   (66980, 66993, 1, 66941); (66996, 67001, 1, 66957);
   (67004, 67004, 1, 66965); (68800, 68850, 1, 68736);
   (71872, 71903, 1, 71840); (93792, 93823, 1, 93760);
   (125218, 125251, 1, 125184)
  ].

(** The mappings that give more than one code point (the unconditional
    entries of SpecialCasing.txt), as sharp s to SS. *)
Definition upperSpecial : list (N * list N) :=
  [
   (223, [83; 83]); (329, [700; 78]); (496, [74; 780]);
   (912, [921; 776; 769]); (944, [933; 776; 769]); (1415, [1333; 1362]);
   (7830, [72; 817]); (7831, [84; 776]); (7832, [87; 778]); (7833, [89; 778]);
   (7834, [65; 702]); (8016, [933; 787]); (8018, [933; 787; 768]);
   (8020, [933; 787; 769]); (8022, [933; 787; 834]); (8064, [7944; 921]);
   (8065, [7945; 921]); (8066, [7946; 921]); (8067, [7947; 921]);
   (8068, [7948; 921]); (8069, [7949; 921]); (8070, [7950; 921]);
   (8071, [7951; 921]); (8072, [7944; 921]); (8073, [7945; 921]);
   (8074, [7946; 921]); (8075, [7947; 921]); (8076, [7948; 921]);
   (8077, [7949; 921]); (8078, [7950; 921]); (8079, [7951; 921]);
   (8080, [7976; 921]); (8081, [7977; 921]); (8082, [7978; 921]);
   (8083, [7979; 921]); (8084, [7980; 921]); (8085, [7981; 921]);
   (8086, [7982; 921]); (8087, [7983; 921]); (8088, [7976; 921]);
   (8089, [7977; 921]); (8090, [7978; 921]); (8091, [7979; 921]);
   (8092, [7980; 921]); (8093, [7981; 921]); (8094, [7982; 921]);
   (8095, [7983; 921]); (8096, [8040; 921]); (8097, [8041; 921]);
   (8098, [8042; 921]); (8099, [8043; 921]); (8100, [8044; 921]);
   (8101, [8045; 921]); (8102, [8046; 921]); (8103, [8047; 921]);
   (8104, [8040; 921]); (8105, [8041; 921]); (8106, [8042; 921]);
   (8107, [8043; 921]); (8108, [8044; 921]); (8109, [8045; 921]);
   (8110, [8046; 921]); (8111, [8047; 921]); (8114, [8122; 921]);
   (8115, [913; 921]); (8116, [902; 921]); (8118, [913; 834]);
   (8119, [913; 834; 921]); (8124, [913; 921]); (8130, [8138; 921]);
   (8131, [919; 921]); (8132, [905; 921]); (8134, [919; 834]);
   (8135, [919; 834; 921]); (8140, [919; 921]); (8146, [921; 776; 768]);
   (8147, [921; 776; 769]); (8150, [921; 834]); (8151, [921; 776; 834]);
   (8162, [933; 776; 768]); (8163, [933; 776; 769]); (8164, [929; 787]);
   (8166, [933; 834]); (8167, [933; 776; 834]); (8178, [8186; 921]);
   (8179, [937; 921]); (8180, [911; 921]); (8182, [937; 834]);
   (8183, [937; 834; 921]); (8188, [937; 921]); (64256, [70; 70]);
   (64257, [70; 73]); (64258, [70; 76]); (64259, [70; 70; 73]);
   (64260, [70; 70; 76]); (64261, [83; 84]); (64262, [83; 84]);
   (64275, [1348; 1350]); (64276, [1348; 1333]); (64277, [1348; 1339]);
   (64278, [1358; 1350]); (64279, [1348; 1341])
  ].

Fixpoint lookupRun (runs : list (N * N * N * N)) (cp : N) : option N :=
  match runs with
  | [] => None
  | (first, last, stride, target) :: runs' =>
      if (first <=? cp) && (cp <=? last) && ((cp - first) mod stride =? 0)
      then Some (target + (cp - first))
      else lookupRun runs' cp
  end.

Fixpoint lookupSpecial (table : list (N * list N)) (cp : N)
  : option (list N) :=
  match table with
  | [] => None
  | (key, upper) :: table' =>
      if key =? cp then Some upper else lookupSpecial table' cp
  end.

(** The upper-case form of one code point; a code point without mapping,
    a lone surrogate among them, stands for itself. *)
Definition upperPoint (cp : N) : list N :=
  match lookupSpecial upperSpecial cp with
  | Some upper => upper
  | None =>
      match lookupRun upperRuns cp with
      | Some upper => [upper]
      | None => [cp]
      end
  end.

(** [s.toUpperCase()]: every code point of the string is replaced by its
    upper-case form, whatever stands around it and whatever the locale. *)
Definition toUpperCase (s : jsstring) : jsstring :=
  concat (List.map utf16 (concat (List.map upperPoint (codePoints s)))).

End JS.

Import JS.


Local Open Scope Z_scope.

Definition nl : jsstring := [10%N].

(** The warning sign U+26A0 followed by the variation selector U+FE0F. *)
Definition glyph : jsstring := [9888%N; 65039%N].

(** ** Data of the program *)

(** [interface NpmPackageInfo]; the field of the source is [description]. *)
Record NpmPackageInfo := {
  license : option jsstring;
  summary : option jsstring
}.

Definition noInfo : NpmPackageInfo := {| license := None; summary := None |}.

Record CachedDependencyInfo := {
  name : jsstring;
  npmLink : jsstring;
  licenseLink : jsstring;
  description : jsstring;
  isPermissive : bool;
  lastUpdated : jsstring
}.

(** [interface PackageJson]: each mapping as its properties in order. *)
Record PackageJson := {
  dependencies : option (list (jsstring * jsstring));
  devDependencies : option (list (jsstring * jsstring))
}.

(** What reading and [JSON.parse]-ing the manifest gives. *)
Inductive Manifest :=
| ManifestUnreadable
| ManifestMalformed
| ManifestParsed (pkg : PackageJson).

(** What [fetch] and [response.json()] give for one package.  A body that
    parses is taken at the type the source casts it to, [NpmPackageInfo]:
    a document that is [null], or whose license is not a string, is not
    of that type, and a host whose registry sends one is not among the
    hosts described here. *)
Inductive Body := MalformedBody | JsonBody (info : NpmPackageInfo).
Inductive Reply := NetworkError | Response (status : Z) (body : Body).

Inductive LogLine :=
| FetchError (packageName : jsstring)
| UnparsedDate (dateString : jsstring)
| CacheReadError
| FatalError
| NonPermissiveWarning (count : nat).

(** The world around one run. *)
Record Host := {
  manifest : Manifest;
  (** the output file of the previous run; [None] when it cannot be read *)
  previousReport : option jsstring;
  registry : jsstring -> Reply;
  (** time value of [new Date()] after [setDate(getDate() - 7)] *)
  oneWeekAgo : Z;
  (** time value of [new Date(string)]; [None] for an invalid date *)
  dateParse : jsstring -> option Z;
  (** time value of [new Date(year, monthIndex, day, hours)] in the local
      time zone; [None] for an invalid date *)
  dateFromFields : Z -> Z -> Z -> Z -> option Z;
  (** [new Date().toLocaleString()] when the reply for a package is in *)
  fetchedAt : jsstring -> jsstring;
  (** [new Date().toLocaleString()] when the header is built *)
  generatedOn : jsstring;
  outputWritable : bool
}.

(** ** License Classifier *)

Definition permissiveLicenses : list jsstring :=
  [lit "MIT"; lit "BSD"; lit "Apache"; lit "ISC"; lit "Unlicense";
   lit "CC0"; lit "WTFPL"; lit "Zlib"].

Definition isPermissiveLicense (license : jsstring) : bool :=
  existsb (fun pl => includes (toUpperCase license) (toUpperCase pl))
          permissiveLicenses.

(** ** Registry Client *)

Definition responseOk (status : Z) : bool :=
  (200 <=? status) && (status <=? 299).

Record Fetched := {
  info : NpmPackageInfo;
  fetchLog : list LogLine;
  (** requests put on the wire *)
  fetchRequests : nat
}.

Definition fetchPackageInfo (h : Host) (packageName : jsstring) : Fetched :=
  match encodeURIComponent packageName with
  | None => {| info := noInfo; fetchLog := [FetchError packageName];
               fetchRequests := 0 |}
  | Some _ =>
      match registry h packageName with
      | Response status (JsonBody data) =>
          if responseOk status
          then {| info := data; fetchLog := []; fetchRequests := 1 |}
          else {| info := noInfo; fetchLog := [FetchError packageName];
                  fetchRequests := 1 |}
      | _ => {| info := noInfo; fetchLog := [FetchError packageName];
                fetchRequests := 1 |}
      end
  end.

(** ** Report Formatter *)

Definition warningMark (isPermissive : bool) : jsstring :=
  if isPermissive then [] else glyph ++ lit " ".

Definition warningNote (isPermissive : bool) : jsstring :=
  if isPermissive then []
  else nl ++ nl ++
       lit "**Note:** This license may not be permissive. Please review before use.".

Definition placeholder : jsstring := lit "No description available.".

(** [description || "No description available."] *)
Definition shown (description : jsstring) : jsstring :=
  if truthy description then description else placeholder.

Definition formatDependencyInfo
    (dep npmLink licenseLink description : jsstring)
    (isPermissive : bool) (lastUpdated : jsstring) : jsstring :=
  lit "### " ++ warningMark isPermissive ++ dep ++ nl ++
  nl ++
  shown description ++ nl ++
  nl ++
  lit "- **NPM:** [" ++ npmLink ++ lit "](" ++ npmLink ++ lit ")" ++ nl ++
  lit "- **License:** [" ++ licenseLink ++ lit "](" ++ licenseLink ++ lit ")" ++ nl ++
  lit "- *Cache:* " ++ lastUpdated ++ warningNote isPermissive ++ nl ++
  nl ++
  lit "---".

Definition header (generated : jsstring)
    (dependenciesCount nonPermissiveCount : nat) : jsstring :=
  lit "# Project Dependencies List" ++ nl ++
  nl ++
  lit "> Generated on: " ++ generated ++ nl ++
  nl ++
  lit "## Summary" ++ nl ++
  lit "- **Total Dependencies:** " ++ ofNat dependenciesCount ++ nl ++
  lit "- **Non-Permissive Licenses:** " ++ ofNat nonPermissiveCount ++ nl ++
  nl ++
  lit "## Description" ++ nl ++
  lit "This document contains a comprehensive list of all dependencies used in this codebase. For each dependency, you'll find:" ++ nl ++
  lit "- Its intended use" ++ nl ++
  lit "- Source link" ++ nl ++
  lit "- License information" ++ nl ++
  lit "- A link to the license definition" ++ nl ++
  nl ++
  lit "## Note" ++ nl ++
  glyph ++ lit " **Warning:** Dependencies marked with " ++ glyph ++
  lit " have potentially non-permissive licenses. Please review these carefully before use." ++ nl ++
  nl ++
  lit "---" ++ nl.

Definition footer : jsstring :=
  nl ++ nl ++ lit "---" ++ nl ++ nl ++ lit "End of Dependencies List".

(** [header + blocks.join("\n\n") + footer] *)
Definition fullContent (generated : jsstring)
    (dependenciesCount nonPermissiveCount : nat)
    (blocks : list jsstring) : jsstring :=
  header generated dependenciesCount nonPermissiveCount ++
  join (nl ++ nl) blocks ++ footer.

(** A ReportRecord is the argument tuple of [formatDependencyInfo]. *)
Definition formatRecord (r : CachedDependencyInfo) : jsstring :=
  formatDependencyInfo (name r) (npmLink r) (licenseLink r) (description r)
                       (isPermissive r) (lastUpdated r).

(** ** Timestamps *)

(** The regular expressions of the program are sequences of these items;
    matching backtracks as JavaScript does, greedy quantifiers giving up
    one code unit at a time. *)
Inductive ReItem :=
| ReChar (c : N)                  (** a literal code unit, as [\.] *)
| ReStar (cls : N -> bool)        (** [cls*] *)
| ReGroupPlus (cls : N -> bool).  (** [(cls+)], capturing *)

Definition andThen (acc : jsstring) (rest : option (list jsstring))
  : option (list jsstring) :=
  match rest with
  | Some groups => Some (acc :: groups)
  | None => None
  end.

(** Match at the start of the string; the captured groups in order. *)
Fixpoint matchHere (re : list ReItem) : jsstring -> option (list jsstring) :=
  match re with
  | [] => fun _ => Some []
  | ReChar c :: re' =>
      fun s =>
        match s with
        | d :: s' => if (c =? d)%N then matchHere re' s' else None
        | [] => None
        end
  | ReStar cls :: re' =>
      fix star (s : jsstring) : option (list jsstring) :=
        match s with
        | d :: s' =>
            if cls d then
              match star s' with
              | Some groups => Some groups
              | None => matchHere re' s
              end
            else matchHere re' s
        | [] => matchHere re' s
        end
  | ReGroupPlus cls :: re' =>
      fun s =>
        match s with
        | d :: s' =>
            if cls d then
              (fix plus (acc s : jsstring) : option (list jsstring) :=
                 match s with
                 | e :: s'' =>
                     if cls e then
                       match plus (acc ++ [e]) s'' with
                       | Some groups => Some groups
                       | None => andThen acc (matchHere re' s)
                       end
                     else andThen acc (matchHere re' s)
                 | [] => andThen acc (matchHere re' s)
                 end) [d] s'
            else None
        | [] => None
        end
  end.

(** [s.match(re)] without the [g] flag: the leftmost match. *)
Fixpoint reSearch (re : list ReItem) (s : jsstring)
  : option (list jsstring) :=
  match matchHere re s with
  | Some groups => Some groups
  | None =>
      match s with
      | [] => None
      | _ :: s' => reSearch re s'
      end
  end.

Definition isDigit (c : N) : bool := ((48 <=? c) && (c <=? 57))%N.

(** [/(\d+)\.\s*(\d+)\.\s*(\d+)\s*(\d+)/] *)
Definition specificFormat : list ReItem :=
  [ReGroupPlus isDigit; ReChar 46; ReStar isWhiteSpace;
   ReGroupPlus isDigit; ReChar 46; ReStar isWhiteSpace;
   ReGroupPlus isDigit; ReStar isWhiteSpace;
   ReGroupPlus isDigit].

(** [parseInt] of a run of decimal digits. *)
Definition parseInt (digits : jsstring) : Z :=
  fold_left (fun acc c => 10 * acc + (Z.of_N c - 48)) digits 0.

Definition fromSpecificFormat (h : Host) (dateString : jsstring) : option Z :=
  match reSearch specificFormat dateString with
  | Some [day; month; year; hour] =>
      dateFromFields h (parseInt year) (parseInt month - 1)
                     (parseInt day) (parseInt hour)
  | _ => None
  end.

Definition formats : list jsstring :=
  [lit "MM/DD/YYYY, HH:mm:ss"; lit "YYYY-MM-DD HH:mm:ss";
   lit "MMMM D, YYYY HH:mm:ss"; lit "D. M. YYYY HH:mm:ss"].

(** The loop over [formats]: each round parses the string the standard
    way again, whatever the format. *)
Fixpoint tryFormats (h : Host) (fs : list jsstring) (dateString : jsstring)
  : option Z :=
  match fs with
  | [] => None
  | _ :: fs' =>
      match dateParse h dateString with
      | Some t => Some t
      | None => tryFormats h fs' dateString
      end
  end.

(** The time value of the [Date] returned, and what was warned. *)
Definition parseDate (h : Host) (dateString : jsstring) : Z * list LogLine :=
  match dateParse h dateString with
  | Some t => (t, [])
  | None =>
      match fromSpecificFormat h dateString with
      | Some t => (t, [])
      | None =>
          match tryFormats h formats dateString with
          | Some t => (t, [])
          | None => (0, [UnparsedDate dateString])
          end
      end
  end.

(** ** Cache Reader *)

(** The object [cachedDeps]: created by [{}], so that its prototype is
    [Object.prototype] until an entry named [__proto__] is assigned, which
    makes that entry the prototype instead of storing it. *)
Record CacheObject := {
  own : gmap jsstring CachedDependencyInfo;
  proto : option CachedDependencyInfo
}.

Definition emptyObject : CacheObject := {| own := ∅; proto := None |}.

Definition protoKey : jsstring := lit "__proto__".

(** Property names every object inherits from [Object.prototype]; all are
    functions. *)
Definition objectPrototypeKeys : list jsstring :=
  [lit "constructor"; lit "hasOwnProperty"; lit "isPrototypeOf";
   lit "propertyIsEnumerable"; lit "toLocaleString"; lit "toString";
   lit "valueOf"; lit "__defineGetter__"; lit "__defineSetter__";
   lit "__lookupGetter__"; lit "__lookupSetter__"].

(** [cachedDeps[key] = r] *)
Definition assign (obj : CacheObject) (key : jsstring)
    (r : CachedDependencyInfo) : CacheObject :=
  if decide (key = protoKey)
  then {| own := own obj; proto := Some r |}
  else {| own := <[key := r]> (own obj); proto := proto obj |}.

(** What [cachedDependencies[dep]] evaluates to. *)
Inductive Property :=
| Undefined
| Entry (r : CachedDependencyInfo)
| Foreign (truthyValue : bool).  (** a value that is not an entry *)

(** Properties found on an entry that serves as prototype. *)
Definition entryField (r : CachedDependencyInfo) (key : jsstring)
  : option Property :=
  if decide (key = lit "name") then Some (Foreign (truthy (name r)))
  else if decide (key = lit "npmLink") then Some (Foreign (truthy (npmLink r)))
  else if decide (key = lit "licenseLink") then Some (Foreign (truthy (licenseLink r)))
  else if decide (key = lit "description") then Some (Foreign (truthy (description r)))
  else if decide (key = lit "isPermissive") then Some (Foreign (isPermissive r))
  else if decide (key = lit "lastUpdated") then Some (Foreign (truthy (lastUpdated r)))
  else None.

Definition inherited (key : jsstring) : Property :=
  if decide (key ∈ objectPrototypeKeys) then Foreign true else Undefined.

Definition getProperty (obj : CacheObject) (key : jsstring) : Property :=
  match own obj !! key with
  | Some r => Entry r
  | None =>
      match proto obj with
      | Some r =>
          if decide (key = protoKey) then Entry r
          else match entryField r key with
               | Some p => p
               | None => inherited key
               end
      | None =>
          if decide (key = protoKey) then Foreign true else inherited key
      end
  end.

Definition nonBlank (line : jsstring) : bool :=
  match trim line with [] => false | _ => true end.

Definition cacheLine : jsstring := lit "- *Cache:*".

(** [new Date(0).toISOString()] *)
Definition epochISO : jsstring := lit "1970-01-01T00:00:00.000Z".

(** One round of the loop over the entries; [None] when a [TypeError] is
    thrown for reading a property of [undefined]. *)
Definition parseEntry (dep : jsstring) : option CachedDependencyInfo :=
  let lines := List.filter nonBlank (split dep nl) in
  line0 ← lines !! 0%nat;
  let name := replaceFirst (trim line0) (glyph ++ lit " ") [] in
  line1 ← lines !! 1%nat;
  let description := trim line1 in
  line2 ← lines !! 2%nat;
  npmPart ← split line2 (lit "(") !! 1%nat;
  let npmLink := dropLast npmPart in
  line3 ← lines !! 3%nat;
  licensePart ← split line3 (lit "(") !! 1%nat;
  let licenseLink := dropLast licensePart in
  lastUpdated ←
    match List.find (fun line => startsWith line cacheLine) lines with
    | Some lastUpdatedLine =>
        stamp ← split lastUpdatedLine (lit ":") !! 1%nat;
        Some (removeStars (trim stamp))
    | None => Some epochISO
    end;
  let isPermissive := negb (includes line0 glyph) in
  Some {| name := name; npmLink := npmLink; licenseLink := licenseLink;
          description := description; isPermissive := isPermissive;
          lastUpdated := lastUpdated |}.

Fixpoint readEntries (cachedDeps : CacheObject) (entries : list jsstring)
  : option CacheObject :=
  match entries with
  | [] => Some cachedDeps
  | dep :: rest =>
      match parseEntry dep with
      | Some r => readEntries (assign cachedDeps (name r) r) rest
      | None => None
      end
  end.

(** [content.split("### ").slice(1)] *)
Definition entriesOf (content : jsstring) : list jsstring :=
  tail (split content (lit "### ")).

Definition readCachedDependencies (file : option jsstring)
  : CacheObject * list LogLine :=
  match file with
  | None => (emptyObject, [CacheReadError])
  | Some content =>
      match readEntries emptyObject (entriesOf content) with
      | Some cachedDeps => (cachedDeps, [])
      | None => (emptyObject, [CacheReadError])
      end
  end.

(** ** Fetch/Cache Pipeline *)

(** What one task handed to the queue does. *)
Record Work := {
  (** the block the task resolves to, with the flag it was formatted
      with; [None] when the task's promise is rejected *)
  settled : option (jsstring * bool);
  usedCache : bool;
  (** whether the task got as far as [await fetchPackageInfo(dep)] *)
  awaited : bool;
  requests : nat;
  workLog : list LogLine
}.

Definition npmPrefix : jsstring := lit "https://www.npmjs.com/package/".
Definition licensePrefix : jsstring := lit "https://opensource.org/licenses/".
Definition noLicense : jsstring := lit "No license information available".

(** [x || ""] for an optional string. *)
Definition orEmpty (x : option jsstring) : jsstring :=
  match x with Some s => s | None => [] end.

(** The license link of a fresh record; [None] when
    [encodeURIComponent] throws. *)
Definition freshLicenseLink (license : option jsstring) : option jsstring :=
  if truthy (orEmpty license)
  then (fun e => licensePrefix ++ e) <$> encodeURIComponent (orEmpty license)
  else Some noLicense.

Definition freshWork (h : Host) (dep : jsstring) (log : list LogLine) : Work :=
  let fetched := fetchPackageInfo h dep in
  let packageInfo := info fetched in
  let block :=
    encoded ← encodeURIComponent dep;
    let npmLink := npmPrefix ++ encoded in
    licenseLink ← freshLicenseLink (license packageInfo);
    let isPermissive := isPermissiveLicense (orEmpty (license packageInfo)) in
    let lastUpdated := fetchedAt h dep in
    Some (formatDependencyInfo dep npmLink licenseLink
            (orEmpty (summary packageInfo)) isPermissive lastUpdated,
          isPermissive) in
  {| settled := block; usedCache := false; awaited := true;
     requests := fetchRequests fetched;
     workLog := log ++ fetchLog fetched |}.

Definition cachedWork (dep : jsstring) (cachedInfo : CachedDependencyInfo)
    (log : list LogLine) : Work :=
  {| settled :=
       Some (formatDependencyInfo dep (npmLink cachedInfo)
               (licenseLink cachedInfo) (description cachedInfo)
               (isPermissive cachedInfo) (lastUpdated cachedInfo),
             isPermissive cachedInfo);
     usedCache := true; awaited := false; requests := 0; workLog := log |}.

(** [parseDate(undefined)] throws at [dateString.match]. *)
Definition thrownWork : Work :=
  {| settled := None; usedCache := false; awaited := false; requests := 0;
     workLog := [] |}.

(** [cachedInfo && parseDate(cachedInfo.lastUpdated) > oneWeekAgo] for an
    entry. *)
Definition isCacheValid (h : Host) (cachedInfo : CachedDependencyInfo) : bool :=
  oneWeekAgo h <? fst (parseDate h (lastUpdated cachedInfo)).

Definition unitOfWork (h : Host) (cachedDependencies : CacheObject)
    (dep : jsstring) : Work :=
  match getProperty cachedDependencies dep with
  | Undefined | Foreign false => freshWork h dep []
  | Foreign true => thrownWork
  | Entry cachedInfo =>
      let log := snd (parseDate h (lastUpdated cachedInfo)) in
      if isCacheValid h cachedInfo
      then cachedWork dep cachedInfo log
      else freshWork h dep log
  end.

Record Counters := {
  processedCount : nat;
  nonPermissiveCount : nat;
  cachedCount : nat
}.

Definition noCounts : Counters :=
  {| processedCount := 0; nonPermissiveCount := 0; cachedCount := 0 |}.

(** The increments one task makes to the shared counters. *)
Definition tally (c : Counters) (w : Work) : Counters :=
  {| processedCount :=
       processedCount c + (match settled w with Some _ => 1 | None => 0 end);
     nonPermissiveCount :=
       nonPermissiveCount c +
       (match settled w with Some (_, false) => 1 | _ => 0 end);
     cachedCount := cachedCount c + (if usedCache w then 1 else 0) |}%nat.

(** *** The queue *)

(** The tasks are handed to a [PQueue], which starts a task as long as
    fewer than [concurrency] tasks are running and counts a task as
    running until the promise of its function is settled.  A task waits
    in the queue, is suspended at its [await], has run to its end but not
    yet given its slot back, or is done. *)
Inductive Phase := Queued | Awaiting | Finishing | Settled.

Record Pool := {
  phases : list Phase;
  counters : Counters;
  requestsSent : nat
}.

Inductive Event :=
| Start (i : nat)     (** the queue starts task [i] *)
| Arrive (i : nat)    (** the registry's answer for task [i] is in *)
| Release (i : nat).  (** the queue takes back the slot of task [i] *)

(** [new PQueue({ concurrency: 10 })] *)
Definition concurrency : nat := 10.

Definition holdsSlot (p : Phase) : bool :=
  match p with Awaiting | Finishing => true | _ => false end.

Definition isAwaiting (p : Phase) : bool :=
  match p with Awaiting => true | _ => false end.

Definition isSettled (p : Phase) : bool :=
  match p with Settled => true | _ => false end.

(** Tasks the queue counts as running. *)
Definition pending (st : Pool) : nat :=
  length (List.filter holdsSlot (phases st)).

(** Tasks suspended at their registry request. *)
Definition inFlight (st : Pool) : nat :=
  length (List.filter isAwaiting (phases st)).

(** A task whose promise is rejected. *)
Definition rejects (w : Work) : bool :=
  match settled w with Some _ => false | None => true end.

(** Whether some task was rejected and has given its slot back; the
    queue rejects the promise of a task and takes back its slot in one
    turn. *)
Fixpoint anyRejected (ps : list Phase) (ws : list Work) : bool :=
  match ps, ws with
  | p :: ps', w :: ws' => (isSettled p && rejects w) || anyRejected ps' ws'
  | _, _ => false
  end.

Definition setPhase (st : Pool) (i : nat) (p : Phase) : Pool :=
  {| phases := <[i := p]> (phases st); counters := counters st;
     requestsSent := requestsSent st |}.

Definition credit (st : Pool) (w : Work) : Pool :=
  {| phases := phases st; counters := tally (counters st) w;
     requestsSent := requestsSent st |}.

Definition send (st : Pool) (w : Work) : Pool :=
  {| phases := phases st; counters := counters st;
     requestsSent := (requestsSent st + requests w)%nat |}.

Section Queue.

Variable works : list Work.

Definition initialPool : Pool :=
  {| phases := replicate (length works) Queued; counters := noCounts;
     requestsSent := 0 |}.

(** One event; [None] when the event cannot happen in that state. *)
Definition step (st : Pool) (ev : Event) : option Pool :=
  match ev with
  | Start i =>
      match phases st !! i, works !! i with
      | Some Queued, Some w =>
          if decide (pending st < concurrency)%nat then
            if awaited w
            then Some (send (setPhase st i Awaiting) w)
            else Some (credit (setPhase st i Finishing) w)
          else None
      | _, _ => None
      end
  | Arrive i =>
      match phases st !! i, works !! i with
      | Some Awaiting, Some w => Some (credit (setPhase st i Finishing) w)
      | _, _ => None
      end
  | Release i =>
      match phases st !! i with
      | Some Finishing => Some (setPhase st i Settled)
      | _ => None
      end
  end.

Fixpoint run (st : Pool) (evs : list Event) : option Pool :=
  match evs with
  | [] => Some st
  | ev :: evs' =>
      match step st ev with
      | Some st' => run st' evs'
      | None => None
      end
  end.

Definition allSettled (st : Pool) : bool := forallb isSettled (phases st).

(** [await Promise.all(dependenciesPromises)]: rejected ([Some None]) as
    soon as one task is rejected, whatever the other tasks are doing;
    fulfilled with the blocks in the order of the tasks once every task
    is fulfilled; nothing ([None]) before. *)
Definition promiseAll (st : Pool) : option (option (list jsstring)) :=
  if anyRejected (phases st) works then Some None
  else if allSettled st
  then Some (mapM (fun w => fst <$> settled w) works)
  else None.

End Queue.

(** ** The run *)

Definition keysOf (o : option (list (jsstring * jsstring))) : list jsstring :=
  match o with Some props => List.map fst props | None => [] end.

Definition addKey (acc : list jsstring) (k : jsstring) : list jsstring :=
  if decide (k ∈ acc) then acc else acc ++ [k].

(** The property names of
    [{...packageJson.dependencies, ...packageJson.devDependencies}], each
    once.  [Object.keys] may enumerate them in another order (integer-like
    names first); they are sorted before anything else is done with them,
    and the sorted list does not depend on that order. *)
Definition allDependencies (pkg : PackageJson) : list jsstring :=
  fold_left addKey (keysOf (dependencies pkg) ++ keysOf (devDependencies pkg)) [].

Inductive Promise := Fulfilled | Rejected.

Record Outcome := {
  (** the content written to the output file, if it was written *)
  written : option jsstring;
  stderr : list LogLine;
  (** the promise returned by [generateDependenciesList] *)
  promise : Promise
}.

(** Node ends with status 0 unless a rejection went unhandled. *)
Definition exitCode (o : Outcome) : Z :=
  match promise o with Fulfilled => 0 | Rejected => 1 end.

Definition worksOf (h : Host) (pkg : PackageJson) : list Work :=
  let cachedDependencies := fst (readCachedDependencies (previousReport h)) in
  List.map (unitOfWork h cachedDependencies) (sort (allDependencies pkg)).

(** The body of the [try]: the content written, or [None] when something
    was thrown.  The log lists what the tasks write in the order of the
    queue; when a task is rejected the handler writes its line at once
    and the tasks still running write theirs after it, so of the log of
    such a run only the lines are given here, not their order. *)
Definition tryBody (h : Host) : option jsstring * list LogLine :=
  match manifest h with
  | ManifestUnreadable | ManifestMalformed => (None, [])
  | ManifestParsed pkg =>
      let dependenciesCount := length (allDependencies pkg) in
      let works := worksOf h pkg in
      let log := snd (readCachedDependencies (previousReport h)) ++
                 concat (List.map workLog works) in
      match mapM (fun w => fst <$> settled w) works with
      | None => (None, log)
      | Some dependenciesList =>
          let count := nonPermissiveCount (fold_left tally works noCounts) in
          if outputWritable h
          then (Some (fullContent (generatedOn h) dependenciesCount count
                                  dependenciesList),
                log ++ match count with
                       | O => []
                       | S _ => [NonPermissiveWarning count]
                       end)
          else (None, log)
      end
  end.

(** The [catch] logs what was thrown and returns. *)
Definition generateDependenciesList (h : Host) : Outcome :=
  match tryBody h with
  | (Some content, log) =>
      {| written := Some content; stderr := log; promise := Fulfilled |}
  | (None, log) =>
      {| written := None; stderr := log ++ [FatalError];
         promise := Fulfilled |}
  end.

(** ** A host for the examples: UTC clock, no registry *)

Definition daysFromCivil (y m d : Z) : Z :=
  let y' := if m <=? 2 then y - 1 else y in
  let era := y' / 400 in
  let yoe := y' - era * 400 in
  let mp := if m <=? 2 then m + 9 else m - 3 in
  let doy := (153 * mp + 2) / 5 + d - 1 in
  let doe := yoe * 365 + yoe / 4 - yoe / 100 + doy in
  era * 146097 + doe - 719468.

Definition utcFromFields (year monthIndex day hours : Z) : option Z :=
  let year := if (0 <=? year) && (year <=? 99) then 1900 + year else year in
  let ym := year + monthIndex / 12 in
  let mn := monthIndex mod 12 in
  let t := (daysFromCivil ym (mn + 1) 1 + day - 1) * 86400000
           + hours * 3600000 in
  if Z.abs t <=? 8640000000000000 then Some t else None.

Definition offline (name : jsstring) : Reply := NetworkError.

Definition exampleHost (m : Manifest) (report : option jsstring)
    (reg : jsstring -> Reply) (weekAgo : Z) : Host :=
  {| manifest := m; previousReport := report; registry := reg;
     oneWeekAgo := weekAgo;
     dateParse := fun _ => None;
     dateFromFields := utcFromFields;
     fetchedAt := fun _ => lit "20. 11. 2024 0:25:02";
     generatedOn := lit "20. 11. 2024 0:25:03";
     outputWritable := true |}.

(** ** Vocabulary of the statements *)

(** The marker on which the Cache Reader cuts a report into entries. *)
Definition marker : jsstring := lit "### ".

(** A field that cannot disturb the line structure of its block. *)
Definition plain (field : jsstring) : bool :=
  negb (includes field nl) && negb (includes field marker).

(** No white space at either end. *)
Definition trimmed (s : jsstring) : bool :=
  match s with
  | [] => true
  | c :: _ => negb (isWhiteSpace c) && negb (isWhiteSpace (List.last s 0%N))
  end.

(** The records that the Cache Reader can find again in their block: every
    field on one line and without the marker, name and description
    without white space around them, a non-empty name, no parenthesis
    opening inside a link, no line that could be taken for the cache line,
    and no warning sign in the name of a record that is not marked. *)
Definition wellFormed (r : CachedDependencyInfo) : bool :=
  plain (name r) && truthy (name r) && trimmed (name r) &&
  (negb (isPermissive r) ||
   negb (includes (name r) glyph) && negb (startsWith (name r) cacheLine)) &&
  plain (description r) && trimmed (description r) &&
  negb (startsWith (description r) cacheLine) &&
  plain (npmLink r) && negb (includes (npmLink r) (lit "(")) &&
  plain (licenseLink r) && negb (includes (licenseLink r) (lit "(")) &&
  plain (lastUpdated r).

(** The text before the first colon. *)
Fixpoint beforeColon (s : jsstring) : jsstring :=
  match s with
  | [] => []
  | c :: s' => if (c =? 58)%N then [] else c :: beforeColon s'
  end.

(** What the Cache Reader makes of a written time stamp. *)
Definition readStamp (lastUpdated : jsstring) : jsstring :=
  removeStars (trim (lit "* " ++ beforeColon lastUpdated)).

(** What the Cache Reader makes of a written record. *)
Definition readBack (r : CachedDependencyInfo) : CachedDependencyInfo :=
  {| name := name r; npmLink := npmLink r; licenseLink := licenseLink r;
     description := shown (description r); isPermissive := isPermissive r;
     lastUpdated := readStamp (lastUpdated r) |}.

(** A report as [generateDependenciesList] writes it for these records. *)
Definition reportOf (generated : jsstring) (total nonPermissive : nat)
    (records : list CachedDependencyInfo) : jsstring :=
  fullContent generated total nonPermissive (List.map formatRecord records).

(** A block without its marker. *)
Definition entryText (r : CachedDependencyInfo) : jsstring :=
  drop 4 (formatRecord r).

Definition titleLine (r : CachedDependencyInfo) : jsstring :=
  warningMark (isPermissive r) ++ name r.

Definition linkLine (label link : jsstring) : jsstring :=
  label ++ link ++ lit "](" ++ link ++ lit ")".

Definition stampLine (r : CachedDependencyInfo) : jsstring :=
  lit "- *Cache:* " ++ lastUpdated r.

(** The object the Cache Reader builds from the entries it has read. *)
Definition cacheOf (entries : list CachedDependencyInfo) (obj : CacheObject)
  : CacheObject :=
  fold_left (fun o r => assign o (name r) r) entries obj.

(** The entries of a report, as the Cache Reader cuts them. *)
Fixpoint entriesText (records : list CachedDependencyInfo) : list jsstring :=
  match records with
  | [] => []
  | [r] => [entryText r ++ footer]
  | r :: rest => (entryText r ++ nl ++ nl) :: entriesText rest
  end.

(** What follows the first block in the list of blocks of a report. *)
Fixpoint afterFirst (records : list CachedDependencyInfo) : jsstring :=
  match records with
  | [] => footer
  | r :: rest => nl ++ nl ++ marker ++ entryText r ++ afterFirst rest
  end.

(** No entry is ever stored under [__proto__]. *)
Definition protoFree (obj : CacheObject) : Prop := own obj !! protoKey = None.

Definition endsWithHash (x : jsstring) : bool := (List.last x 0 =? 35)%N.

Definition startsWithHashOrSpace (y : jsstring) : bool :=
  match y with
  | c :: _ => ((c =? 35) || (c =? 32))%N
  | [] => false
  end.

(** Two code units that are the same letter, whatever their case. *)
Definition sameLetter (x y : N) : Prop :=
  (x = y \/ (65 <= x <= 90 /\ y = x + 32) \/ (65 <= y <= 90 /\ x = y + 32))%N.

(** [s] contains [p] case-insensitively: some stretch of [s] is [p] up to
    the case of its letters. *)
Definition containsIgnoringCase (s p : jsstring) : Prop :=
  exists a mid b, s = a ++ mid ++ b /\ Forall2 sameLetter mid p.

(** ** Sample data *)

Definition leftPad : CachedDependencyInfo :=
  {| name := lit "left-pad";
     npmLink := lit "https://www.npmjs.com/package/left-pad";
     licenseLink := lit "https://opensource.org/licenses/MIT";
     description := lit "String left pad";
     isPermissive := true;
     lastUpdated := lit "20. 11. 2024 0:25:02" |}.

Definition copyleftLib : CachedDependencyInfo :=
  {| name := lit "copyleft-lib";
     npmLink := lit "https://www.npmjs.com/package/copyleft-lib";
     licenseLink := lit "https://opensource.org/licenses/GPL-3.0";
     description := lit "A library under the GPL";
     isPermissive := false;
     lastUpdated := lit "20. 11. 2024 0:25:02" |}.

(** The same record written half an hour later. *)
Definition leftPadLater : CachedDependencyInfo :=
  {| name := name leftPad; npmLink := npmLink leftPad;
     licenseLink := licenseLink leftPad; description := description leftPad;
     isPermissive := true;
     lastUpdated := lit "20. 11. 2024 0:59:59" |}.

(** A package under an SPDX expression, [(BSD-3-Clause OR GPL-2.0)], and
    without description, as the pipeline records it. *)
Definition forge : CachedDependencyInfo :=
  {| name := lit "node-forge";
     npmLink := lit "https://www.npmjs.com/package/node-forge";
     licenseLink :=
       lit "https://opensource.org/licenses/(BSD-3-Clause%20OR%20GPL-2.0)";
     description := [];
     isPermissive := true;
     lastUpdated := lit "20. 11. 2024 0:25:02" |}.

(** The block of [node-fetch] in the report kept in the repository, whose
    time stamp has been through the cache three times. *)
Definition nodeFetch : CachedDependencyInfo :=
  {| name := lit "node-fetch";
     npmLink := lit "https://www.npmjs.com/package/node-fetch";
     licenseLink := lit "https://opensource.org/licenses/MIT";
     description := lit "A light-weight module that brings Fetch API to node.js";
     isPermissive := true;
     lastUpdated := lit "   20. 11. 2024 0" |}.

Definition packageOf (names : list string) : PackageJson :=
  {| dependencies := Some (List.map (fun n => (lit n, lit "^1.0.0")) names);
     devDependencies := None |}.

Definition manifestOf (names : list string) : Manifest :=
  ManifestParsed (packageOf names).

(** A host whose previous report is the given one. *)
Definition hostWithReport (report : jsstring) (weekAgo : Z) : Host :=
  exampleHost (manifestOf ["node-fetch"%string]) (Some report) offline weekAgo.

(** An entry whose time stamp no parser accepts. *)
Definition undated : CachedDependencyInfo :=
  {| name := lit "left-pad"; npmLink := npmLink leftPad;
     licenseLink := licenseLink leftPad; description := description leftPad;
     isPermissive := true; lastUpdated := lit "n/a" |}.

(** A report whose second block has lost its license line. *)
Definition brokenBlock : jsstring :=
  lit "### left-pad" ++ nl ++ nl ++
  lit "String left pad" ++ nl ++ nl ++
  lit "- **NPM:** [https://www.npmjs.com/package/left-pad](https://www.npmjs.com/package/left-pad)" ++ nl ++
  lit "- *Cache:* 20. 11. 2024 0:25:02" ++ nl ++ nl ++
  lit "---".

Definition brokenReport : jsstring :=
  fullContent (lit "20. 11. 2024 0:25:03") 2 1
              [formatRecord copyleftLib; brokenBlock].

(** *** Bookkeeping of the queue *)

(** Tasks that have made their increments to the counters. *)
Definition credited (p : Phase) : bool :=
  match p with Finishing | Settled => true | _ => false end.

(** The sum of [f] over the tasks that have made their increments. *)
Fixpoint creditedSum (f : Work -> nat) (ps : list Phase) (ws : list Work)
  : nat :=
  match ps, ws with
  | p :: ps', w :: ws' =>
      ((if credited p then f w else 0) + creditedSum f ps' ws')%nat
  | _, _ => 0%nat
  end.

Definition resolves (w : Work) : nat :=
  match settled w with Some _ => 1 | None => 0 end.

Definition flagged (w : Work) : nat :=
  match settled w with Some (_, false) => 1 | _ => 0 end.

Definition fromCache (w : Work) : nat := if usedCache w then 1 else 0.

Fixpoint sumOf (f : Work -> nat) (ws : list Work) : nat :=
  match ws with
  | [] => 0
  | w :: ws' => f w + sumOf f ws'
  end%nat.

(** The counters agree with the phases of the tasks. *)
Definition consistent (works : list Work) (st : Pool) : Prop :=
  length (phases st) = length works
  /\ processedCount (counters st) = creditedSum resolves (phases st) works
  /\ nonPermissiveCount (counters st) = creditedSum flagged (phases st) works
  /\ cachedCount (counters st) = creditedSum fromCache (phases st) works.


(** The order of the sorted names. *)
Definition ascending (a b : jsstring) : Prop := leb a b = true.

(** The cache of a run. *)
Definition cacheFor (h : Host) : CacheObject :=
  fst (readCachedDependencies (previousReport h)).

(** The blocks for which the non-permissive counter was incremented. *)
Definition marked (results : list (jsstring * bool)) : list (jsstring * bool) :=
  List.filter (fun x => negb (snd x)) results.

(** The registry of the end-to-end examples: MIT for left-pad, the GPL
    for copyleft-lib, no answer for anything else. *)
Definition exampleRegistry (packageName : jsstring) : Reply :=
  if decide (packageName = lit "left-pad") then
    Response 200 (JsonBody {| license := Some (lit "MIT");
                              summary := Some (lit "String left pad") |})
  else if decide (packageName = lit "copyleft-lib") then
    Response 200 (JsonBody {| license := Some (lit "GPL-3.0");
                              summary := None |})
  else NetworkError.

Definition specHost : Host :=
  exampleHost (manifestOf ["left-pad"; "copyleft-lib"; "broken-pkg"]%string)
              None exampleRegistry 1731900000000.

Definition specReport : jsstring :=
  fullContent (lit "20. 11. 2024 0:25:03") 3 2
    [formatDependencyInfo (lit "broken-pkg")
       (lit "https://www.npmjs.com/package/broken-pkg")
       (lit "No license information available") [] false
       (lit "20. 11. 2024 0:25:02");
     formatDependencyInfo (lit "copyleft-lib")
       (lit "https://www.npmjs.com/package/copyleft-lib")
       (lit "https://opensource.org/licenses/GPL-3.0") [] false
       (lit "20. 11. 2024 0:25:02");
     formatDependencyInfo (lit "left-pad")
       (lit "https://www.npmjs.com/package/left-pad")
       (lit "https://opensource.org/licenses/MIT") (lit "String left pad") true
       (lit "20. 11. 2024 0:25:02")].

(** A manifest that depends on the package named constructor. *)
Definition constructorHost : Host :=
  exampleHost (manifestOf ["left-pad"; "constructor"]%string)
              None exampleRegistry 1731900000000.

(** Twelve tasks that each wait for the registry. *)
Definition twelveWorks : list Work :=
  List.map (fun n => unitOfWork specHost emptyObject (ofNat n)) (seq 0 12).

Definition tenStarts : list Event := List.map Start (seq 0 10).

Definition specWorks : list Work :=
  worksOf specHost (packageOf ["left-pad"; "copyleft-lib"; "broken-pkg"]%string).

(** A run of the three tasks in which the last answer comes first. *)
Definition outOfOrder : list Event :=
  [Start 0; Start 1; Start 2; Arrive 2; Arrive 0; Release 2;
   Arrive 1; Release 1; Release 0]%nat.

(** A registry that knows node-forge, which declares an SPDX expression
    and, here, no description. *)
Definition forgeRegistry (packageName : jsstring) : Reply :=
  if decide (packageName = lit "node-forge") then
    Response 200 (JsonBody {| license := Some (lit "(BSD-3-Clause OR GPL-2.0)");
                              summary := None |})
  else NetworkError.

Definition forgeHost : Host :=
  exampleHost (manifestOf ["node-forge"%string]) None forgeRegistry
              1731900000000.

(** A report with two blocks for left-pad. *)
Definition twiceLeftPad : jsstring :=
  reportOf (lit "20. 11. 2024 0:25:03") 2 0 [leftPad; leftPadLater].

(** The record of left-pad as a run of the week after writes it. *)
Definition leftPadRenewed : CachedDependencyInfo :=
  {| name := name leftPad; npmLink := npmLink leftPad;
     licenseLink := licenseLink leftPad;
     description := lit "Pads a string on the left";
     isPermissive := true;
     lastUpdated := lit "27. 11. 2024 9:10:11" |}.

(** A report with an older and a newer block for left-pad. *)
Definition leftPadTwice : jsstring :=
  reportOf (lit "27. 11. 2024 9:10:12") 2 0 [leftPad; leftPadRenewed].

(** A manifest of twelve dependencies, none of them known to the
    registry of the examples. *)
Definition twelveNames : list string :=
  ["pkg-a"; "pkg-b"; "pkg-c"; "pkg-d"; "pkg-e"; "pkg-f";
   "pkg-g"; "pkg-h"; "pkg-i"; "pkg-j"; "pkg-k"; "pkg-l"]%string.

Definition twelveHost : Host :=
  exampleHost (manifestOf twelveNames) None exampleRegistry 1731900000000.

(** The records among which a run counts the non-permissive ones. *)
Definition unmarked (records : list CachedDependencyInfo)
  : list CachedDependencyInfo :=
  List.filter (fun r => negb (isPermissive r)) records.

(** Whether a string starts with a code unit of the class. *)
Definition startsIn (cls : N -> bool) (s : jsstring) : bool :=
  match s with
  | c :: _ => cls c
  | [] => false
  end.

(** The time stamp after so many runs that were served from the cache. *)
Definition afterPasses (passes : nat) (stamp : jsstring) : jsstring :=
  Nat.iter passes readStamp stamp.

(** The sum of [f] over the tasks that the queue has started. *)
Fixpoint startedSum (f : Work -> nat) (ps : list Phase) (ws : list Work)
  : nat :=
  match ps, ws with
  | p :: ps', w :: ws' =>
      ((match p with Queued => 0 | _ => f w end) + startedSum f ps' ws')%nat
  | _, _ => 0%nat
  end.

(** The events a task still has before it. *)
Definition stepsLeft (p : Phase) : nat :=
  match p with Queued => 3 | Awaiting => 2 | Finishing => 1 | Settled => 0 end.

Fixpoint stepsLeftSum (ps : list Phase) : nat :=
  match ps with
  | [] => 0
  | p :: ps' => stepsLeft p + stepsLeftSum ps'
  end%nat.

(** The requests a task puts on the wire once it is started. *)
Definition wired (w : Work) : nat := if awaited w then requests w else 0.

(** Whether the task of a dependency sends a request: its lookup in the
    cache gives nothing, or an entry that is not valid, so that
    [fetchPackageInfo] is called, and [encodeURIComponent] does not throw
    on its name.  A lookup that gives an inherited value makes the task
    throw in [parseDate] before anything is sent. *)
Definition sendsRequest (h : Host) (cachedDependencies : CacheObject)
    (dep : jsstring) : bool :=
  match getProperty cachedDependencies dep with
  | Undefined | Foreign false => true
  | Foreign true => false
  | Entry cachedInfo => negb (isCacheValid h cachedInfo)
  end
  && match encodeURIComponent dep with Some _ => true | None => false end.

(** ** Progress line *)

(** What [Math.round((current / total) * 100)] can be for counts that are
    not negative: not a number for 0 of 0, infinite for a positive count
    of 0, a whole number otherwise.  The division and the multiplication
    are the host's floating-point arithmetic; their rounded value is
    taken as given. *)
Inductive Percentage := NotANumber | Infinite | Whole (p : nat).

(** [unit.repeat(halves / 2)]: the count is truncated towards zero, and
    a count below zero is a RangeError. *)
Definition repeatHalf (unit : jsstring) (halves : Z) : option jsstring :=
  let n := Z.quot halves 2 in
  if (n <? 0)%Z then None else Some (concat (replicate (Z.to_nat n) unit)).

(** ["=".repeat(percentage / 2) + "-".repeat(50 - percentage / 2)];
    [repeat] takes a count that is not a number for 0 and throws for an
    infinite one. *)
Definition progressBar (percentage : Percentage) : option jsstring :=
  match percentage with
  | NotANumber => Some []
  | Infinite => None
  | Whole p =>
      filled ← repeatHalf (lit "=") (Z.of_nat p);
      rest ← repeatHalf (lit "-") (100 - Z.of_nat p)%Z;
      Some (filled ++ rest)
  end.

Definition showPercentage (percentage : Percentage) : jsstring :=
  match percentage with
  | NotANumber => lit "NaN"
  | Infinite => lit "Infinity"
  | Whole p => ofNat p
  end.

(** What [updateProgress] writes to the standard output; [None] when it
    throws. *)
Definition updateProgress (percentage : Percentage) (current total : nat)
  : option jsstring :=
  progressBar ← progressBar percentage;
  Some ([13%N] ++ lit "[" ++ progressBar ++ lit "] " ++
        showPercentage percentage ++ lit "% | " ++
        ofNat current ++ lit "/" ++ ofNat total).

Local Close Scope Z_scope.
Local Close Scope N_scope.

(** * Properties *)

Local Open Scope N_scope.

(** ** The operations at work *)

Example encode_scoped_name :
  encodeURIComponent (lit "@types/node") = Some (lit "%40types%2Fnode").
Proof. reflexivity. Qed.

Example encode_keeps_parentheses :
  encodeURIComponent (lit "(BSD-3-Clause OR GPL-2.0)")
  = Some (lit "(BSD-3-Clause%20OR%20GPL-2.0)").
Proof. reflexivity. Qed.

Example encode_astral :
  encodeURIComponent [55357; 56832] = Some (lit "%F0%9F%98%80").
Proof. reflexivity. Qed.

Example encode_lone_surrogate : encodeURIComponent [97; 55357] = None.
Proof. reflexivity. Qed.

Example split_cache_line :
  split (lit "- *Cache:* 20. 11. 2024 0:25:02") (lit ":")
  = [lit "- *Cache"; lit "* 20. 11. 2024 0"; lit "25"; lit "02"].
Proof. reflexivity. Qed.

Example split_at_end : split (lit "a### ") (lit "### ") = [lit "a"; []].
Proof. reflexivity. Qed.

Example trim_both_ends : trim (9 :: lit "  a b " ++ [160; 10]) = lit "a b".
Proof. reflexivity. Qed.

Example sort_by_code_unit :
  sort [lit "p-queue"; lit "@types/node"; lit "node-fetch"; lit "JSONStream"]
  = [lit "@types/node"; lit "JSONStream"; lit "node-fetch"; lit "p-queue"].
Proof. reflexivity. Qed.

Example merged_names :
  allDependencies
    {| dependencies := Some [(lit "b", lit "1"); (lit "a", lit "1")];
       devDependencies := Some [(lit "c", lit "1"); (lit "b", lit "2")] |}
  = [lit "b"; lit "a"; lit "c"].
Proof. reflexivity. Qed.

(** The pattern of [parseDate] on the time stamps the Cache Reader hands
    it, and on a date without hour, where the year gives up its last
    digit. *)
Example pattern_on_cached_stamp :
  reSearch specificFormat (lit " 20. 11. 2024 0")
  = Some [lit "20"; lit "11"; lit "2024"; lit "0"].
Proof. reflexivity. Qed.

Example pattern_backtracks :
  reSearch specificFormat (lit "20. 11. 2024")
  = Some [lit "20"; lit "11"; lit "202"; lit "4"].
Proof. reflexivity. Qed.

Example pattern_fails : reSearch specificFormat (lit "2024-11-20") = None.
Proof. reflexivity. Qed.

Example cached_stamp_parsed :
  parseDate (hostWithReport [] 0) (lit " 20. 11. 2024 0")
  = (1732060800000%Z, []).
Proof. reflexivity. Qed.

(** [toUpperCase] beyond ASCII: dotless i becomes I, sharp s becomes SS,
    the Deseret letter U+10428, a surrogate pair, becomes U+10400, and a
    lone surrogate stays. *)
Example upper_case_samples :
  List.map toUpperCase
    [[109; 305; 116]; [115; 116; 114; 97; 223; 101]; [55297; 56360];
     [97; 55297; 98]]
  = [lit "MIT"; lit "STRASSE"; [55297; 56320]; [65; 55297; 66]].
Proof. vm_compute. reflexivity. Qed.

(** Containment is all that counts: UNLICENSED contains Unlicense. *)
Example classify_samples :
  List.map isPermissiveLicense
    [lit "MIT"; lit "mit"; lit "Apache-2.0"; lit "(MIT OR GPL-3.0)";
     lit "GPL-3.0"; lit "UNLICENSED"; lit "Proprietary"; []]
  = [true; true; true; true; false; true; false; false].
Proof. reflexivity. Qed.

(** The pipeline gives node-forge the record [forge]. *)
Example forge_recorded :
  settled (unitOfWork forgeHost (cacheFor forgeHost) (lit "node-forge"))
  = Some (formatRecord forge, true).
Proof. vm_compute. reflexivity. Qed.

(** Names that every object inherits are found in an empty cache. *)
Example inherited_lookups :
  List.map (getProperty emptyObject)
    [lit "left-pad"; lit "constructor"; lit "toString"; lit "__proto__"]
  = [Undefined; Foreign true; Foreign true; Foreign true].
Proof. vm_compute. reflexivity. Qed.

(** ** Strings *)

Section StringFacts.

Implicit Types s p a b sep cur : jsstring.

Lemma startsWith_spec s p :
  startsWith s p = true <-> exists t, s = p ++ t.
Proof.
  revert s. induction p as [|c p IH]; intros s; simpl.
  - split; [exists s; reflexivity | reflexivity].
  - destruct s as [|d s].
    + split; [discriminate | intros [t Ht]; discriminate].
    + rewrite andb_true_iff, N.eqb_eq, IH. split.
      * intros [-> [t ->]]. exists t. reflexivity.
      * intros [t Ht]. injection Ht as -> ->. split; [reflexivity | eauto].
Qed.

Lemma startsWith_app p t : startsWith (p ++ t) p = true.
Proof. apply startsWith_spec. eauto. Qed.

Lemma startsWith_shorter u v p :
  startsWith (u ++ v) p = true -> (length p <= length u)%nat ->
  startsWith u p = true.
Proof.
  revert u. induction p as [|c p IH]; intros u; simpl; [reflexivity|].
  destruct u as [|d u]; simpl; [lia|].
  rewrite !andb_true_iff. intros [Hc H] Hlen. split; [exact Hc|].
  apply IH; [exact H | lia].
Qed.

Lemma startsWith_extend u v p :
  startsWith u p = true -> startsWith (u ++ v) p = true.
Proof.
  rewrite !startsWith_spec. intros [t ->]. exists (t ++ v).
  rewrite <- List.app_assoc. reflexivity.
Qed.

Lemma includes_spec s p :
  includes s p = true <-> exists a b, s = a ++ p ++ b.
Proof.
  induction s as [|d s IH]; simpl.
  - rewrite orb_false_r, startsWith_spec. split.
    + intros [t Ht]. exists [], t. exact Ht.
    + intros (a & b & Hab). destruct a; [eauto|discriminate].
  - rewrite orb_true_iff, startsWith_spec, IH. split.
    + intros [[t Ht] | (a & b & ->)].
      * exists [], t. exact Ht.
      * exists (d :: a), b. reflexivity.
    + intros (a & b & Hab). destruct a as [|x a]; simpl in Hab.
      * left. eauto.
      * right. injection Hab as -> ->. eauto.
Qed.

Lemma includes_cons_false c s p :
  includes (c :: s) p = false ->
  startsWith (c :: s) p = false /\ includes s p = false.
Proof. simpl. apply orb_false_elim. Qed.

Lemma includes_app_false_l s t p :
  includes (s ++ t) p = false -> includes s p = false.
Proof.
  intros H. apply not_true_is_false. intros Hs. apply not_true_iff_false in H.
  apply H. apply includes_spec in Hs as (a & b & ->).
  apply includes_spec. exists a, (b ++ t).
  rewrite <- !List.app_assoc. reflexivity.
Qed.

Lemma includes_app_false_r s t p :
  includes (s ++ t) p = false -> includes t p = false.
Proof.
  intros H. apply not_true_is_false. intros Hs. apply not_true_iff_false in H.
  apply H. apply includes_spec in Hs as (a & b & ->).
  apply includes_spec. exists (s ++ a), b.
  rewrite <- !List.app_assoc. reflexivity.
Qed.

(** A longer pattern is harder to find. *)
Lemma includes_longer s p q :
  includes s p = false -> includes s (p ++ q) = false.
Proof.
  intros H. apply not_true_is_false. intros Hs. apply not_true_iff_false in H.
  apply H. apply includes_spec in Hs as (a & b & ->).
  apply includes_spec. exists a, (q ++ b).
  rewrite <- !List.app_assoc. reflexivity.
Qed.

(** A single code unit is found in a concatenation when it is found in a
    part. *)
Lemma includes_unit_app c s t :
  includes (s ++ t) [c] = includes s [c] || includes t [c].
Proof.
  induction s as [|d s IH]; simpl.
  - destruct t; reflexivity.
  - rewrite IH. destruct (c =? d); simpl; [reflexivity|].
    reflexivity.
Qed.

(** *** [split] *)

Lemma splitGo_skip sep x cur b :
  splitGo sep (length x) cur (x ++ b) = splitGo sep 0 cur b.
Proof. induction x as [|c x IH]; simpl; [reflexivity | exact IH]. Qed.

Lemma splitGo_sep sep cur b :
  sep <> [] -> splitGo sep 0 cur (sep ++ b) = cur :: splitGo sep 0 [] b.
Proof.
  destruct sep as [|c sep']; [congruence|]. intros _.
  change ((c :: sep') ++ b) with (c :: (sep' ++ b)).
  cbn [splitGo].
  change (c :: sep' ++ b) with ((c :: sep') ++ b).
  rewrite startsWith_app.
  replace (length (c :: sep') - 1)%nat with (length sep') by (simpl; lia).
  rewrite splitGo_skip. reflexivity.
Qed.

Lemma startsWith_cut u sep b :
  sep <> [] -> u <> [] -> startsWith (u ++ sep ++ b) sep = true ->
  startsWith (u ++ removelast sep) sep = true.
Proof.
  intros Hsep Hu. destruct (exists_last Hsep) as (r & l & ->).
  rewrite List.removelast_last, <- !List.app_assoc, (List.app_assoc u r).
  intros H. apply startsWith_shorter in H; [exact H|].
  destruct u; [congruence|]. rewrite !List.length_app. simpl. lia.
Qed.

(** Up to the first separator. *)
Lemma splitGo_piece sep a cur b :
  sep <> [] -> includes (a ++ removelast sep) sep = false ->
  splitGo sep 0 cur (a ++ sep ++ b) = (cur ++ a) :: splitGo sep 0 [] b.
Proof.
  intros Hsep. revert cur. induction a as [|c a IH]; intros cur H.
  - cbn [List.app]. rewrite List.app_nil_r. apply splitGo_sep, Hsep.
  - change ((c :: a) ++ removelast sep) with (c :: (a ++ removelast sep)) in H.
    apply includes_cons_false in H as [Hhere Hrest].
    assert (Hno : startsWith ((c :: a) ++ sep ++ b) sep = false).
    { apply not_true_is_false. intros Hm. apply not_true_iff_false in Hhere.
      apply Hhere. apply (startsWith_cut (c :: a)) in Hm; [exact Hm|exact Hsep|congruence]. }
    change ((c :: a) ++ sep ++ b) with (c :: (a ++ sep ++ b)) in *.
    cbn [splitGo]. rewrite Hno. rewrite IH by exact Hrest.
    rewrite <- List.app_assoc. reflexivity.
Qed.

(** After the last separator. *)
Lemma splitGo_last sep a cur :
  includes a sep = false -> splitGo sep 0 cur a = [cur ++ a].
Proof.
  revert cur. induction a as [|c a IH]; intros cur H.
  - simpl. rewrite List.app_nil_r. reflexivity.
  - apply includes_cons_false in H as [Hhere Hrest].
    cbn [splitGo]. rewrite Hhere, IH by exact Hrest.
    rewrite <- List.app_assoc. reflexivity.
Qed.

Lemma split_piece sep a b :
  sep <> [] -> includes (a ++ removelast sep) sep = false ->
  split (a ++ sep ++ b) sep = a :: split b sep.
Proof. intros. unfold split. rewrite splitGo_piece by assumption. reflexivity. Qed.

Lemma split_last sep a : includes a sep = false -> split a sep = [a].
Proof. intros. unfold split. rewrite splitGo_last by assumption. reflexivity. Qed.

(** With a separator of one code unit. *)
Lemma split_unit c a b :
  includes a [c] = false -> split (a ++ c :: b) [c] = a :: split b [c].
Proof.
  intros H. change (c :: b) with ([c] ++ b). apply split_piece; [congruence|].
  simpl. rewrite List.app_nil_r. exact H.
Qed.

(** *** [trim] *)

Lemma trimStart_length s : (length (trimStart s) <= length s)%nat.
Proof.
  induction s as [|c s IH]; simpl; [lia|].
  destruct (isWhiteSpace c); simpl; lia.
Qed.

Lemma trimStart_keep c s :
  isWhiteSpace c = false -> trimStart (c :: s) = c :: s.
Proof. intros H. simpl. rewrite H. reflexivity. Qed.

Lemma trimStart_fixed c s : trimStart (c :: s) = c :: s -> isWhiteSpace c = false.
Proof.
  simpl. destruct (isWhiteSpace c); [|reflexivity]. intros H.
  pose proof (trimStart_length s) as Hl. rewrite H in Hl. simpl in Hl. lia.
Qed.

Lemma trimStart_app_keep s c t :
  isWhiteSpace c = false -> exists u, trimStart (s ++ c :: t) = u ++ c :: t.
Proof.
  intros H. induction s as [|d s IH]; simpl.
  - rewrite H. exists []. reflexivity.
  - destruct (isWhiteSpace d); [exact IH|]. exists (d :: s). reflexivity.
Qed.

End StringFacts.

Section TrimFacts.

Implicit Types s t : jsstring.

Lemma trimmed_first c s :
  trimmed (c :: s) = true -> isWhiteSpace c = false.
Proof.
  unfold trimmed. rewrite andb_true_iff, !negb_true_iff. tauto.
Qed.

(** [trimmed] says what it should. *)
Lemma trim_trimmed s : trimmed s = true -> trim s = s.
Proof.
  destruct s as [|c s]; [reflexivity|]. unfold trimmed.
  rewrite andb_true_iff, !negb_true_iff. intros [Hc Hd].
  unfold trim, trimEnd. rewrite trimStart_keep by exact Hc.
  destruct (exists_last (l := c :: s)) as (t & d & E); [congruence|].
  rewrite E in *. rewrite List.last_last in Hd.
  rewrite List.rev_app_distr. cbn [rev List.app].
  rewrite trimStart_keep by exact Hd.
  change (d :: rev t) with (rev [d] ++ rev t).
  rewrite <- List.rev_app_distr, List.rev_involutive. reflexivity.
Qed.

Lemma trimmed_trim s : trim s = s -> trimmed s = true.
Proof.
  destruct s as [|c s]; [reflexivity|]. intros H.
  assert (Hs : trimStart (c :: s) = c :: s).
  { pose proof (trimStart_length (c :: s)) as H1.
    pose proof (trimStart_length (rev (trimStart (c :: s)))) as H2.
    rewrite List.length_rev in H2.
    assert (H3 : length (trim (c :: s)) = length (c :: s)) by (rewrite H; reflexivity).
    unfold trim, trimEnd in H3. rewrite List.length_rev in H3.
    simpl in *. destruct (isWhiteSpace c); [|reflexivity].
    pose proof (trimStart_length s). lia. }
  unfold trimmed. rewrite (trimStart_fixed _ _ Hs). cbn [negb andb].
  unfold trim, trimEnd in H. rewrite Hs in H.
  apply (f_equal (@rev N)) in H. rewrite List.rev_involutive in H.
  destruct (exists_last (l := c :: s)) as (t & d & E); [congruence|].
  rewrite E in *. rewrite List.last_last.
  rewrite List.rev_app_distr in H. cbn [rev List.app] in H.
  rewrite (trimStart_fixed _ _ H). reflexivity.
Qed.

Lemma nonBlank_first c s : isWhiteSpace c = false -> nonBlank (c :: s) = true.
Proof.
  intros H. unfold nonBlank, trim, trimEnd. rewrite trimStart_keep by exact H.
  cbn [rev].
  destruct (trimStart_app_keep (rev s) c [] H) as [u ->].
  rewrite List.rev_app_distr. reflexivity.
Qed.

Lemma last_behind (p : jsstring) d s :
  List.last (p ++ d :: s) 0 = List.last (d :: s) 0.
Proof.
  induction p as [|x p IH]; [reflexivity|].
  change ((x :: p) ++ d :: s) with (x :: (p ++ d :: s)).
  destruct (p ++ d :: s) eqn:E; [destruct p; discriminate|].
  rewrite <- IH. reflexivity.
Qed.

(** A trimmed string stays trimmed behind a prefix that starts with
    something else than white space. *)
Lemma trimmed_behind c p s :
  isWhiteSpace c = false -> trimmed s = true -> s <> [] ->
  trimmed (c :: p ++ s) = true.
Proof.
  intros Hc Hs Hne. unfold trimmed. rewrite Hc. cbn [negb andb].
  destruct s as [|d s]; [congruence|].
  unfold trimmed in Hs. apply andb_true_iff in Hs as [_ Hs].
  change (c :: p ++ d :: s) with ((c :: p) ++ d :: s).
  rewrite last_behind. exact Hs.
Qed.

End TrimFacts.

(** *** Occurrences of the marker *)

Lemma startsWith_marker_inv s :
  startsWith s marker = true -> exists t, s = 35 :: 35 :: 35 :: 32 :: t.
Proof. intros H. apply startsWith_spec in H as [t ->]. exists t. reflexivity. Qed.

(** The marker occurs in [x ++ y] only inside [x], inside [y], or across
    the seam, which takes a [#] before it and a [#] or a space after. *)
Lemma marker_app (x y : jsstring) :
  includes x marker = false -> includes y marker = false ->
  endsWithHash x = false \/ startsWithHashOrSpace y = false ->
  includes (x ++ y) marker = false.
Proof.
  intros Hx Hy Hseam. induction x as [|c x IH]; [exact Hy|].
  apply includes_cons_false in Hx as [Hhere Hx].
  change ((c :: x) ++ y) with (c :: (x ++ y)). cbn [includes].
  apply orb_false_intro.
  - apply not_true_is_false. intros Hm. apply not_true_iff_false in Hhere.
    apply startsWith_marker_inv in Hm as [t Ht].
    destruct x as [|c1 [|c2 [|c3 x]]]; simpl in Ht.
    + injection Ht as -> ->. destruct Hseam as [H|H]; discriminate H.
    + injection Ht as -> -> ->. destruct Hseam as [H|H]; discriminate H.
    + injection Ht as -> -> -> ->. destruct Hseam as [H|H]; discriminate H.
    + injection Ht as -> -> -> -> _. apply Hhere. reflexivity.
  - destruct x as [|c1 x]; [exact Hy|]. apply IH; [exact Hx|].
    destruct Hseam as [H|H]; [left|right; exact H].
    unfold endsWithHash in *. exact H.
Qed.

Ltac marker_chain :=
  repeat first
    [ assumption
    | reflexivity
    | apply marker_app; [ | | first [left; reflexivity | right; reflexivity] ] ].

Lemma includes_unit_false c s t :
  includes s [c] = false -> includes t [c] = false ->
  includes (s ++ t) [c] = false.
Proof. intros Hs Ht. rewrite includes_unit_app, Hs, Ht. reflexivity. Qed.

Ltac unit_chain :=
  repeat first
    [ assumption
    | reflexivity
    | apply includes_unit_false ].

Lemma replaceFirst_unfold (s pat rep : jsstring) :
  replaceFirst s pat rep =
  if startsWith s pat then rep ++ drop (length pat) s
  else match s with
       | [] => []
       | c :: s' => c :: replaceFirst s' pat rep
       end.
Proof. destruct s; reflexivity. Qed.

Lemma replaceFirst_prefix (p s rep : jsstring) :
  replaceFirst (p ++ s) p rep = rep ++ s.
Proof.
  rewrite replaceFirst_unfold, startsWith_app, drop_app_length. reflexivity.
Qed.

Lemma replaceFirst_absent (s pat rep : jsstring) :
  includes s pat = false -> replaceFirst s pat rep = s.
Proof.
  induction s as [|x s IH]; intros H; rewrite replaceFirst_unfold.
  - simpl in H. rewrite orb_false_r in H. rewrite H. reflexivity.
  - apply includes_cons_false in H as [Hh H]. rewrite Hh, IH by exact H.
    reflexivity.
Qed.

Lemma splitGo_colon_head (cur s : jsstring) :
  splitGo [58] 0 cur s !! 0%nat = Some (cur ++ beforeColon s).
Proof.
  revert cur. induction s as [|c s IH]; intros cur.
  - simpl. rewrite List.app_nil_r. reflexivity.
  - cbn [splitGo startsWith beforeColon]. rewrite N.eqb_sym, andb_true_r.
    destruct (c =? 58).
    + rewrite List.app_nil_r. reflexivity.
    + rewrite IH, <- List.app_assoc. reflexivity.
Qed.

Section LinkFacts.

Variables label link : jsstring.
Hypothesis Hnl : includes link nl = false.
Hypothesis Hparen : includes link (lit "(") = false.
Hypothesis Hlabel_nl : includes label nl = false.
Hypothesis Hlabel_paren : includes label (lit "(") = false.

Lemma linkLine_single : includes (linkLine label link) nl = false.
Proof. unfold linkLine. unit_chain. Qed.

Lemma linkLine_read :
  dropLast <$> (split (linkLine label link) (lit "(") !! 1%nat) = Some link.
Proof.
  unfold linkLine.
  replace (label ++ link ++ lit "](" ++ link ++ lit ")")
    with ((label ++ link ++ lit "]") ++ 40 :: (link ++ lit ")"))
    by (rewrite <- !List.app_assoc; reflexivity).
  change (lit "(") with [40] in *.
  rewrite split_unit by unit_chain.
  rewrite split_last by unit_chain.
  cbn. unfold dropLast. rewrite List.removelast_last. reflexivity.
Qed.

End LinkFacts.

Section EntryFacts.

Variable r : CachedDependencyInfo.
Hypothesis Hwf : wellFormed r = true.

Lemma formatRecord_marker : formatRecord r = marker ++ entryText r.
Proof. reflexivity. Qed.

(** The lines of an entry up to its cache line. *)
Lemma entry_lines (tail : jsstring) :
  exists rest,
    entryText r ++ tail =
    titleLine r ++ 10 :: 10 :: shown (description r) ++ 10 :: 10 ::
    linkLine (lit "- **NPM:** [") (npmLink r) ++ 10 ::
    linkLine (lit "- **License:** [") (licenseLink r) ++ 10 ::
    stampLine r ++ 10 :: rest.
Proof.
  unfold entryText, formatRecord, formatDependencyInfo, titleLine, linkLine,
    stampLine, nl.
  change (drop 4 (lit "### " ++ ?x)) with x.
  destruct (isPermissive r); cbn [warningNote].
  - exists (nl ++ lit "---" ++ tail). unfold nl.
    rewrite <- !List.app_assoc. reflexivity.
  - eexists. unfold nl. rewrite <- !List.app_assoc. reflexivity.
Qed.

Lemma split_unit_nil c (b : jsstring) : split (c :: b) [c] = [] :: split b [c].
Proof. apply (split_unit c [] b). reflexivity. Qed.

Lemma wellFormed_fields :
  (includes (name r) nl = false /\ includes (name r) marker = false /\
   name r <> [] /\ trimmed (name r) = true /\
   (isPermissive r = true ->
    includes (name r) glyph = false /\ startsWith (name r) cacheLine = false)) /\
  (includes (description r) nl = false /\
   includes (description r) marker = false /\
   trimmed (description r) = true /\
   startsWith (description r) cacheLine = false) /\
  (includes (npmLink r) nl = false /\ includes (npmLink r) marker = false /\
   includes (npmLink r) (lit "(") = false) /\
  (includes (licenseLink r) nl = false /\
   includes (licenseLink r) marker = false /\
   includes (licenseLink r) (lit "(") = false) /\
  (includes (lastUpdated r) nl = false /\
   includes (lastUpdated r) marker = false).
Proof.
  unfold wellFormed, plain in Hwf.
  repeat (apply andb_true_iff in Hwf as [Hwf ?]).
  repeat match goal with
         | H : negb _ = true |- _ => apply negb_true_iff in H
         | H : _ && _ = true |- _ => apply andb_true_iff in H as [? ?]
         end.
  repeat split; try assumption.
  - destruct (name r); [discriminate | congruence].
  - destruct (isPermissive r); [|discriminate].
    match goal with H : _ || _ = true |- _ => cbn [negb orb] in H;
      apply andb_true_iff in H as [H _]; apply negb_true_iff in H; exact H end.
  - destruct (isPermissive r); [|discriminate].
    match goal with H : _ || _ = true |- _ => cbn [negb orb] in H;
      apply andb_true_iff in H as [_ H]; apply negb_true_iff in H; exact H end.
Qed.

(** The description line has the properties asked of the description. *)
Lemma shown_fields :
  includes (shown (description r)) nl = false /\
  includes (shown (description r)) marker = false /\
  trimmed (shown (description r)) = true /\
  startsWith (shown (description r)) cacheLine = false /\
  shown (description r) <> [].
Proof.
  destruct wellFormed_fields as (_ & (H1 & H2 & H3 & H4) & _).
  unfold shown. destruct (description r) as [|c d].
  - split; [|split; [|split; [|split]]]; try reflexivity. discriminate.
  - cbn [truthy]. split; [|split; [|split; [|split]]]; try assumption.
    discriminate.
Qed.

Lemma titleLine_fields :
  includes (titleLine r) nl = false /\
  nonBlank (titleLine r) = true /\
  startsWith (titleLine r) cacheLine = false /\
  replaceFirst (trim (titleLine r)) (glyph ++ lit " ") [] = name r /\
  negb (includes (titleLine r) glyph) = isPermissive r.
Proof.
  destruct wellFormed_fields as ((H1 & H2 & H3 & H4 & H5) & _).
  unfold titleLine. destruct (isPermissive r).
  - destruct (H5 eq_refl) as [H6 H7]. cbn [warningMark List.app].
    destruct (name r) as [|c n] eqn:E; [congruence|].
    split; [|split; [|split; [|split]]].
    + exact H1.
    + apply nonBlank_first, (trimmed_first _ _ H4).
    + exact H7.
    + rewrite (trim_trimmed _ H4).
      apply replaceFirst_absent, includes_longer, H6.
    + rewrite H6. reflexivity.
  - split; [|split; [|split; [|split]]].
    + unit_chain.
    + apply nonBlank_first. reflexivity.
    + reflexivity.
    + assert (Ht : trimmed (warningMark false ++ name r) = true).
      { apply (trimmed_behind 9888 [65039; 32]); [reflexivity|exact H4|exact H3]. }
      rewrite (trim_trimmed _ Ht).
      change (warningMark false) with (glyph ++ lit " ").
      apply replaceFirst_prefix.
    + reflexivity.
Qed.

Lemma stampLine_read :
  split (stampLine r) (lit ":") !! 1%nat
  = Some (lit "* " ++ beforeColon (lastUpdated r)).
Proof.
  unfold stampLine.
  change (lit "- *Cache:* " ++ lastUpdated r)
    with (lit "- *Cache" ++ 58 :: (lit "* " ++ lastUpdated r)).
  change (lit ":") with [58].
  rewrite split_unit by reflexivity.
  cbn [lookup list_lookup]. unfold split.
  change (lit "* " ++ lastUpdated r) with (42 :: 32 :: lastUpdated r).
  cbn [splitGo startsWith N.eqb Pos.eqb andb List.app].
  apply splitGo_colon_head.
Qed.

(** The Cache Reader finds a well-formed record again in its entry,
    whatever follows the entry. *)
Lemma parseEntry_entry (tail : jsstring) :
  parseEntry (entryText r ++ tail) = Some (readBack r).
Proof.
  destruct (entry_lines tail) as [rest ->].
  destruct wellFormed_fields as
    (_ & _ & (N1 & N2 & N3) & (L1 & L2 & L3) & (U1 & U2)).
  destruct shown_fields as (D1 & D2 & D3 & D4 & D5).
  destruct titleLine_fields as (T1 & T2 & T3 & T4 & T5).
  unfold parseEntry. fold nl.
  change nl with [10].
  rewrite (split_unit 10 (titleLine r)) by exact T1.
  rewrite split_unit_nil.
  rewrite (split_unit 10 (shown (description r))) by exact D1.
  rewrite split_unit_nil.
  rewrite (split_unit 10 (linkLine _ (npmLink r)))
    by (apply linkLine_single; [exact N1|reflexivity]).
  rewrite (split_unit 10 (linkLine _ (licenseLink r)))
    by (apply linkLine_single; [exact L1|reflexivity]).
  rewrite (split_unit 10 (stampLine r))
    by (unfold stampLine; change [10] with nl; unit_chain).
  assert (B1 : nonBlank (shown (description r)) = true).
  { destruct (shown (description r)) as [|c d]; [congruence|].
    apply nonBlank_first, (trimmed_first _ _ D3). }
  assert (B2 : forall label link, nonBlank (linkLine (45 :: label) link) = true).
  { intros. apply (nonBlank_first 45). reflexivity. }
  assert (B4 : nonBlank (stampLine r) = true).
  { apply (nonBlank_first 45). reflexivity. }
  cbn [List.filter]. 
  change (nonBlank []) with false. cbn iota.
  rewrite T2, B1, B4.
  change (lit "- **NPM:** [") with (45 :: lit " **NPM:** [").
  change (lit "- **License:** [") with (45 :: lit " **License:** [").
  rewrite !B2.
  cbn [lookup list_lookup mbind option_bind].
  rewrite T4, T5, (trim_trimmed _ D3).
  pose proof (linkLine_read (45 :: lit " **NPM:** [") (npmLink r) N3 eq_refl) as R2.
  pose proof (linkLine_read (45 :: lit " **License:** [") (licenseLink r) L3 eq_refl) as R3.
  destruct (split (linkLine (45 :: lit " **NPM:** [") (npmLink r)) (lit "(") !! 1%nat)
    as [p2|]; [|discriminate R2].
  destruct (split (linkLine (45 :: lit " **License:** [") (licenseLink r)) (lit "(") !! 1%nat)
    as [p3|]; [|discriminate R3].
  injection R2 as R2. injection R3 as R3.
  cbn [mbind option_bind List.find].
  rewrite T3, D4.
  change (startsWith (linkLine (45 :: lit " **NPM:** [") (npmLink r)) cacheLine) with false.
  change (startsWith (linkLine (45 :: lit " **License:** [") (licenseLink r)) cacheLine) with false.
  change (startsWith (stampLine r) cacheLine) with true.
  cbn iota. rewrite stampLine_read. cbn [mbind option_bind].
  rewrite R2, R3. reflexivity.
Qed.

End EntryFacts.

(** ** Cache object *)

Section ObjectFacts.

Implicit Types (obj : CacheObject) (k : jsstring) (r : CachedDependencyInfo).

Lemma protoFree_empty : protoFree emptyObject.
Proof. reflexivity. Qed.

Lemma protoFree_assign obj k r : protoFree obj -> protoFree (assign obj k r).
Proof.
  unfold protoFree, assign. intros H. destruct (decide (k = protoKey)); simpl.
  - exact H.
  - rewrite lookup_insert_ne by exact n. exact H.
Qed.

Lemma getProperty_assign obj k r :
  protoFree obj -> getProperty (assign obj k r) k = Entry r.
Proof.
  unfold protoFree, assign, getProperty. intros H.
  destruct (decide (k = protoKey)) as [->|Hk]; simpl.
  - rewrite H. destruct (decide (protoKey = protoKey)); [reflexivity|congruence].
  - rewrite lookup_insert_eq. reflexivity.
Qed.

Lemma getProperty_assign_other obj k k' r r0 :
  k <> k' -> getProperty obj k = Entry r0 ->
  getProperty (assign obj k' r) k = Entry r0.
Proof.
  unfold assign, getProperty. intros Hne.
  destruct (decide (k' = protoKey)) as [->|Hk]; simpl.
  - destruct (own obj !! k); [trivial|].
    destruct (decide (k = protoKey)); [congruence|].
    destruct (proto obj) as [p|].
    + unfold entryField, inherited.
      repeat (destruct (decide _); [discriminate|]). discriminate.
    + unfold inherited. destruct (decide _); discriminate.
  - rewrite lookup_insert_ne by congruence. trivial.
Qed.

Lemma cacheOf_keeps entries : forall obj k r0,
  k ∉ List.map name entries -> getProperty obj k = Entry r0 ->
  getProperty (cacheOf entries obj) k = Entry r0.
Proof.
  induction entries as [|e entries IH]; intros obj k r0 Hk H; [exact H|].
  cbn [cacheOf fold_left]. apply IH.
  - intros Hin. apply Hk. cbn. right. exact Hin.
  - apply getProperty_assign_other; [|exact H].
    intros ->. apply Hk. cbn. left.
Qed.

(** With distinct names, every entry read is found under its name. *)
Lemma cacheOf_lookup entries : forall obj r,
  protoFree obj -> NoDup (List.map name entries) -> r ∈ entries ->
  getProperty (cacheOf entries obj) (name r) = Entry r.
Proof.
  induction entries as [|e entries IH]; intros obj r Hp Hnd Hin.
  - inversion Hin.
  - cbn [List.map] in Hnd. apply NoDup_cons in Hnd as [Hfresh Hnd].
    cbn [cacheOf fold_left]. apply elem_of_cons in Hin as [->|Hin].
    + apply cacheOf_keeps; [exact Hfresh|].
      apply getProperty_assign, Hp.
    + apply IH; [apply protoFree_assign, Hp | exact Hnd | exact Hin].
Qed.

End ObjectFacts.

(** ** Round trip through a report *)

Section ReportFacts.

Lemma digits_marker u : includes (digitsOfUint u) marker = false.
Proof. induction u; simpl; try reflexivity; exact IHu. Qed.

Lemma digits_last u : endsWithHash (digitsOfUint u) = false.
Proof.
  unfold endsWithHash.
  induction u; try reflexivity;
    cbn [digitsOfUint]; (destruct (digitsOfUint u) eqn:E; [reflexivity|]);
    exact IHu.
Qed.

Lemma header_marker generated n k (tail : jsstring) :
  includes generated marker = false ->
  includes tail marker = false ->
  includes (header generated n k ++ tail) marker = false.
Proof.
  intros Hg Ht. pose proof (digits_marker (Nat.to_uint n)) as Hn.
  pose proof (digits_marker (Nat.to_uint k)) as Hk.
  unfold header, ofNat. rewrite <- !List.app_assoc. marker_chain.
Qed.

Lemma entry_marker r (tail : jsstring) :
  wellFormed r = true -> includes tail marker = false ->
  includes (entryText r ++ tail) marker = false.
Proof.
  intros Hwf Ht.
  destruct (wellFormed_fields r Hwf) as
    ((A1 & A2 & _) & _ & (N1 & N2 & N3) & (L1 & L2 & L3) & (U1 & U2)).
  destruct (shown_fields r Hwf) as (D1 & D2 & _).
  unfold entryText, formatRecord, formatDependencyInfo.
  change (drop 4 (lit "### " ++ ?x)) with x.
  destruct (isPermissive r); cbn [warningMark warningNote List.app];
    rewrite <- !List.app_assoc; marker_chain.
Qed.

Lemma join_blocks r records :
  join (nl ++ nl) (List.map formatRecord (r :: records)) ++ footer
  = marker ++ entryText r ++ afterFirst records.
Proof.
  revert r. induction records as [|r' records IH]; intros r.
  - cbn [List.map join afterFirst]. rewrite formatRecord_marker.
    rewrite <- List.app_assoc. reflexivity.
  - change (join (nl ++ nl) (List.map formatRecord (r :: r' :: records)))
      with (formatRecord r ++ (nl ++ nl) ++
            join (nl ++ nl) (List.map formatRecord (r' :: records))).
    rewrite <- !List.app_assoc, IH, formatRecord_marker.
    cbn [afterFirst]. rewrite <- !List.app_assoc. reflexivity.
Qed.

Lemma split_entries records : forall r,
  Forall (fun r => wellFormed r = true) (r :: records) ->
  split (entryText r ++ afterFirst records) marker = entriesText (r :: records).
Proof.
  induction records as [|r' records IH]; intros r Hwf.
  - cbn [afterFirst entriesText]. apply split_last.
    apply entry_marker; [|reflexivity]. apply Forall_cons in Hwf. tauto.
  - apply Forall_cons in Hwf as [Hr Hwf].
    change (entriesText (r :: r' :: records))
      with ((entryText r ++ nl ++ nl) :: entriesText (r' :: records)).
    rewrite <- (IH r' Hwf). cbn [afterFirst].
    replace (entryText r ++ nl ++ nl ++ marker ++ entryText r' ++ afterFirst records)
      with ((entryText r ++ nl ++ nl) ++ marker ++ entryText r' ++ afterFirst records)
      by (rewrite <- !List.app_assoc; reflexivity).
    apply split_piece; [discriminate|].
    rewrite <- List.app_assoc. apply entry_marker; [exact Hr|reflexivity].
Qed.

Lemma entriesOf_report generated n k records :
  includes generated marker = false ->
  Forall (fun r => wellFormed r = true) records ->
  entriesOf (reportOf generated n k records) = entriesText records.
Proof.
  intros Hg Hwf. unfold entriesOf, reportOf, fullContent.
  destruct records as [|r records].
  - cbn [List.map join List.app]. rewrite split_last; [reflexivity|].
    apply header_marker; [exact Hg|reflexivity].
  - rewrite join_blocks. rewrite split_piece; [|discriminate|].
    + cbn [tail]. apply split_entries, Hwf.
    + apply header_marker; [exact Hg|reflexivity].
Qed.

Lemma readEntries_report records : forall obj,
  Forall (fun r => wellFormed r = true) records ->
  readEntries obj (entriesText records)
  = Some (cacheOf (List.map readBack records) obj).
Proof.
  induction records as [|r records IH]; intros obj Hwf; [reflexivity|].
  apply Forall_cons in Hwf as [Hr Hwf].
  destruct records as [|r' records].
  - cbn [entriesText readEntries]. rewrite parseEntry_entry by exact Hr.
    reflexivity.
  - change (entriesText (r :: r' :: records))
      with ((entryText r ++ nl ++ nl) :: entriesText (r' :: records)).
    cbn [readEntries]. rewrite parseEntry_entry by exact Hr.
    rewrite IH by exact Hwf. reflexivity.
Qed.

(** A report of well-formed records with distinct names is read back
    entry by entry. *)
Lemma report_read_back generated n k records :
  includes generated marker = false ->
  Forall (fun r => wellFormed r = true) records ->
  NoDup (List.map name records) ->
  exists cache,
    readCachedDependencies (Some (reportOf generated n k records)) = (cache, [])
    /\ forall r, r ∈ records ->
         getProperty cache (name r) = Entry (readBack r).
Proof.
  intros Hg Hwf Hnd.
  exists (cacheOf (List.map readBack records) emptyObject). split.
  - unfold readCachedDependencies.
    rewrite entriesOf_report, readEntries_report by assumption. reflexivity.
  - intros r Hin.
    change (name r) with (name (readBack r)).
    apply cacheOf_lookup.
    + apply protoFree_empty.
    + rewrite List.map_map. exact Hnd.
    + apply list_elem_of_In, List.in_map, list_elem_of_In, Hin.
Qed.

End ReportFacts.

(** ** License Classifier *)

Lemma upperUnit_sameLetter x y : upperUnit x = upperUnit y <-> sameLetter x y.
Proof.
  unfold upperUnit, sameLetter.
  destruct (N.leb_spec 97 x), (N.leb_spec x 122), (N.leb_spec 97 y),
    (N.leb_spec y 122); simpl; lia.
Qed.

Lemma upperUnits_sameLetter (a b : jsstring) :
  List.map upperUnit a = List.map upperUnit b <-> Forall2 sameLetter a b.
Proof.
  revert b. induction a as [|x a IH]; intros [|y b]; simpl.
  - split; [constructor | reflexivity].
  - split; [discriminate | inversion 1].
  - split; [discriminate | inversion 1].
  - split.
    + intros H. injection H as Hx Hab. constructor.
      * apply upperUnit_sameLetter, Hx.
      * apply IH, Hab.
    + inversion 1; subst. f_equal.
      * apply upperUnit_sameLetter. assumption.
      * apply IH. assumption.
Qed.

(** Case-insensitive containment is containment of the upper-cased units. *)
Lemma includes_upperUnits (s p : jsstring) :
  includes (List.map upperUnit s) (List.map upperUnit p) = true
  <-> containsIgnoringCase s p.
Proof.
  rewrite includes_spec. unfold containsIgnoringCase. split.
  - intros (a & b & H).
    apply List.map_eq_app in H as (a0 & r & -> & Ha & H).
    apply List.map_eq_app in H as (m & b0 & -> & Hm & Hb).
    exists a0, m, b0. split; [reflexivity|].
    apply upperUnits_sameLetter. exact Hm.
  - intros (a & m & b & -> & H). apply upperUnits_sameLetter in H.
    exists (List.map upperUnit a), (List.map upperUnit b).
    rewrite !List.map_app. rewrite H. reflexivity.
Qed.

(** *** [toUpperCase] on ASCII *)

Lemma below_128 (P : N -> Prop) :
  Forall P (List.map N.of_nat (seq 0 128)) -> forall c, c < 128 -> P c.
Proof.
  intros H c Hc. rewrite List.Forall_forall in H. apply H.
  apply List.in_map_iff. exists (N.to_nat c). split; [lia|].
  apply List.in_seq. lia.
Qed.

Lemma upperPoint_ascii c : c < 128 -> upperPoint c = [upperUnit c].
Proof.
  revert c. apply below_128.
  apply (bool_decide_unpack _). vm_compute. exact I.
Qed.

Lemma ascii_no_surrogate c :
  c < 128 -> isHighSurrogate c = false /\ isLowSurrogate c = false.
Proof.
  intros H. unfold isHighSurrogate, isLowSurrogate.
  destruct (N.leb_spec 55296 c), (N.leb_spec 56320 c); [lia..|].
  split; reflexivity.
Qed.

Lemma upperUnit_ascii c : c < 128 -> upperUnit c < 128.
Proof.
  unfold upperUnit. intros H.
  destruct (N.leb_spec 97 c), (N.leb_spec c 122); simpl; lia.
Qed.

Lemma isAscii_app (a b : jsstring) : isAscii (a ++ b) <-> isAscii a /\ isAscii b.
Proof. unfold isAscii. apply List.Forall_app. Qed.

(** An ASCII code unit ends whatever code point was being read. *)
Lemma codePointsGo_ascii (a : jsstring) : forall pending c t,
  c < 128 ->
  codePointsGo pending (a ++ c :: t)
  = codePointsGo pending a ++ c :: codePointsGo None t.
Proof.
  induction a as [|x a IH]; intros pending c t Hc.
  - destruct (ascii_no_surrogate c Hc) as [Hh Hl].
    cbn [List.app codePointsGo]. rewrite Hh, Hl.
    destruct pending; reflexivity.
  - cbn [List.app codePointsGo]. destruct pending as [hi|].
    + destruct (isLowSurrogate x); [rewrite IH by exact Hc; reflexivity|].
      destruct (isHighSurrogate x); rewrite IH by exact Hc; reflexivity.
    + destruct (isHighSurrogate x); rewrite IH by exact Hc; reflexivity.
Qed.

Lemma codePointsGo_prefix (m : jsstring) : forall t,
  isAscii m -> codePointsGo None (m ++ t) = m ++ codePointsGo None t.
Proof.
  induction m as [|c m IH]; intros t Hm; [reflexivity|].
  inversion Hm as [|? ? Hc Hm']; subst.
  destruct (ascii_no_surrogate c Hc) as [Hh _].
  cbn [List.app codePointsGo]. rewrite Hh, IH by exact Hm'. reflexivity.
Qed.

Lemma upperPoints_ascii (m : jsstring) :
  isAscii m ->
  concat (List.map utf16 (concat (List.map upperPoint m)))
  = List.map upperUnit m.
Proof.
  induction m as [|c m IH]; intros Hm; [reflexivity|].
  inversion Hm as [|? ? Hc Hm']; subst.
  cbn [List.map concat]. rewrite (upperPoint_ascii c Hc).
  cbn [List.app List.map concat]. rewrite (IH Hm').
  unfold utf16. pose proof (upperUnit_ascii c Hc).
  destruct (N.ltb_spec (upperUnit c) 65536); [reflexivity | lia].
Qed.

(** On a string of ASCII code units [toUpperCase] changes the letters a
    to z and nothing else. *)
Lemma toUpperCase_ascii (s : jsstring) :
  isAscii s -> toUpperCase s = List.map upperUnit s.
Proof.
  intros Hs. unfold toUpperCase, codePoints.
  rewrite <- (List.app_nil_r s) at 1. rewrite (codePointsGo_prefix s [] Hs).
  cbn [codePointsGo]. rewrite List.app_nil_r. apply upperPoints_ascii, Hs.
Qed.

(** An ASCII stretch of a string is upper-cased where it stands, whatever
    stands around it. *)
Lemma toUpperCase_stretch (a mid b : jsstring) :
  isAscii mid ->
  exists a' b', toUpperCase (a ++ mid ++ b) = a' ++ List.map upperUnit mid ++ b'.
Proof.
  intros Hm. destruct mid as [|c mid].
  - exists (toUpperCase (a ++ b)), []. cbn [List.app List.map].
    rewrite List.app_nil_r. reflexivity.
  - inversion Hm as [|? ? Hc Hm']; subst.
    unfold toUpperCase, codePoints. cbn [List.app].
    rewrite (codePointsGo_ascii a None c (mid ++ b) Hc).
    rewrite (codePointsGo_prefix mid b Hm').
    change (c :: mid ++ codePointsGo None b)
      with ((c :: mid) ++ codePointsGo None b).
    rewrite !List.map_app, !List.concat_app, !List.map_app, !List.concat_app.
    rewrite (upperPoints_ascii (c :: mid) Hm). eauto.
Qed.

Lemma sameLetter_ascii (mid p : jsstring) :
  Forall2 sameLetter mid p -> isAscii p -> isAscii mid.
Proof.
  unfold isAscii. induction 1 as [|x y mid p Hxy _ IH]; intros Hp.
  - constructor.
  - inversion Hp; subst. constructor; [|apply IH; assumption].
    unfold sameLetter in Hxy. lia.
Qed.

Lemma permissiveLicenses_ascii : Forall isAscii permissiveLicenses.
Proof. unfold isAscii. apply (bool_decide_unpack _). vm_compute. exact I. Qed.

(** A string that contains an identifier, whatever the case of its
    letters, is permissive. *)
Lemma contained_permissive (license pl : jsstring) :
  In pl permissiveLicenses -> containsIgnoringCase license pl ->
  isPermissiveLicense license = true.
Proof.
  intros Hin (a & mid & b & -> & Hsame).
  assert (Hpl : isAscii pl).
  { pose proof permissiveLicenses_ascii as H.
    rewrite List.Forall_forall in H. exact (H pl Hin). }
  unfold isPermissiveLicense. apply existsb_exists. exists pl.
  split; [exact Hin|]. rewrite (toUpperCase_ascii pl Hpl).
  destruct (toUpperCase_stretch a mid b (sameLetter_ascii _ _ Hsame Hpl))
    as (a' & b' & ->).
  apply includes_spec. exists a', b'.
  apply upperUnits_sameLetter in Hsame. rewrite Hsame. reflexivity.
Qed.

(** For an ASCII string that is the only way to be permissive. *)
Lemma permissive_contained (license : jsstring) :
  isAscii license -> isPermissiveLicense license = true ->
  exists pl, In pl permissiveLicenses /\ containsIgnoringCase license pl.
Proof.
  intros Ha H. unfold isPermissiveLicense in H.
  apply existsb_exists in H as (pl & Hin & H). exists pl. split; [exact Hin|].
  assert (Hpl : isAscii pl).
  { pose proof permissiveLicenses_ascii as F.
    rewrite List.Forall_forall in F. exact (F pl Hin). }
  rewrite (toUpperCase_ascii _ Ha), (toUpperCase_ascii _ Hpl) in H.
  apply includes_upperUnits, H.
Qed.

(** *** The upper-case form has no small ASCII letter *)

Lemma lookupSpecial_In (table : list (N * list N)) cp upper :
  lookupSpecial table cp = Some upper -> In (cp, upper) table.
Proof.
  induction table as [|[key u] table IH]; [discriminate|].
  cbn [lookupSpecial]. destruct (N.eqb_spec key cp) as [->|_].
  - intros H. injection H as ->. left. reflexivity.
  - intros H. right. exact (IH H).
Qed.

Lemma lookupRun_In (runs : list (N * N * N * N)) cp t :
  lookupRun runs cp = Some t ->
  exists first last stride target,
    In (first, last, stride, target) runs
    /\ first <= cp <= last /\ t = target + (cp - first).
Proof.
  induction runs as [|[[[first last] stride] target] runs IH]; [discriminate|].
  cbn [lookupRun].
  destruct ((first <=? cp) && (cp <=? last) && ((cp - first) mod stride =? 0))
    eqn:E.
  - intros H. injection H as <-. exists first, last, stride, target.
    apply andb_true_iff in E as [E _]. apply andb_true_iff in E as [E1 E2].
    apply N.leb_le in E1, E2. split; [left; reflexivity|]. split; [lia|].
    reflexivity.
  - intros H. destruct (IH H) as (f & l & st & tg & Hin & Hr).
    exists f, l, st, tg. split; [right; exact Hin | exact Hr].
Qed.

Lemma upperSpecial_upper :
  Forall (fun e => Forall (fun x => upperUnit x = x) e.2) upperSpecial.
Proof. apply (bool_decide_unpack _). vm_compute. exact I. Qed.

Lemma upperRuns_upper :
  Forall (fun r => 122 < r.2 \/ r.2 + (r.1.1.2 - r.1.1.1) < 97) upperRuns.
Proof. apply (bool_decide_unpack _). vm_compute. exact I. Qed.

Lemma upperUnit_outside c : c < 97 \/ 122 < c -> upperUnit c = c.
Proof.
  unfold upperUnit. intros H.
  destruct (N.leb_spec 97 c), (N.leb_spec c 122); simpl; lia.
Qed.

Lemma upperPoint_upper cp : Forall (fun x => upperUnit x = x) (upperPoint cp).
Proof.
  destruct (N.lt_ge_cases cp 128) as [Hcp|Hcp].
  - rewrite (upperPoint_ascii cp Hcp). constructor; [|constructor].
    apply upperUnit_outside. unfold upperUnit.
    destruct (N.leb_spec 97 cp), (N.leb_spec cp 122); simpl; lia.
  - unfold upperPoint.
    destruct (lookupSpecial upperSpecial cp) as [upper|] eqn:Es.
    + apply lookupSpecial_In in Es. pose proof upperSpecial_upper as H.
      rewrite List.Forall_forall in H. exact (H _ Es).
    + destruct (lookupRun upperRuns cp) as [t|] eqn:Er.
      * apply lookupRun_In in Er as (f & l & st & tg & Hin & Hr & ->).
        pose proof upperRuns_upper as H. rewrite List.Forall_forall in H.
        specialize (H _ Hin). cbn [fst snd] in H.
        constructor; [|constructor]. apply upperUnit_outside. lia.
      * constructor; [|constructor]. apply upperUnit_outside. lia.
Qed.

Lemma utf16_upper x :
  upperUnit x = x -> Forall (fun c => upperUnit c = c) (utf16 x).
Proof.
  intros Hx. unfold utf16. destruct (N.ltb_spec x 65536).
  - constructor; [exact Hx | constructor].
  - apply List.Forall_cons; [|apply List.Forall_cons; [|apply List.Forall_nil]].
    + apply upperUnit_outside. right.
      apply N.lt_le_trans with 55296; [reflexivity | apply N.le_add_r].
    + apply upperUnit_outside. right.
      apply N.lt_le_trans with 56320; [reflexivity | apply N.le_add_r].
Qed.

(** Upper-casing leaves no letter from a to z. *)
Lemma toUpperCase_upper (s : jsstring) :
  List.map upperUnit (toUpperCase s) = toUpperCase s.
Proof.
  assert (H : Forall (fun c => upperUnit c = c) (toUpperCase s)).
  { unfold toUpperCase. generalize (codePoints s) as cps.
    induction cps as [|cp cps IH]; [constructor|].
    cbn [List.map concat]. rewrite List.map_app, List.concat_app.
    apply List.Forall_app. split; [|exact IH].
    pose proof (upperPoint_upper cp) as Hcp.
    induction Hcp as [|x xs Hx _ IHx]; [constructor|].
    cbn [List.map concat]. apply List.Forall_app.
    split; [apply utf16_upper, Hx | exact IHx]. }
  induction H as [|c cs Hc _ IH]; [reflexivity|].
  cbn [List.map]. rewrite Hc, IH. reflexivity.
Qed.

(** The classifier looks at the upper-case form of the string. *)
Lemma permissive_upper (license : jsstring) :
  isPermissiveLicense license = true <->
  exists pl, In pl permissiveLicenses
             /\ containsIgnoringCase (toUpperCase license) pl.
Proof.
  unfold isPermissiveLicense. rewrite existsb_exists.
  split; intros (pl & Hin & H); exists pl; (split; [exact Hin|]);
    pose proof permissiveLicenses_ascii as F;
    rewrite List.Forall_forall in F; specialize (F pl Hin).
  - apply includes_upperUnits.
    rewrite toUpperCase_upper, <- (toUpperCase_ascii pl F). exact H.
  - apply includes_upperUnits in H.
    rewrite toUpperCase_upper, <- (toUpperCase_ascii pl F) in H. exact H.
Qed.

(** C5, as amended.  The classifier answers [true] exactly when the
    upper-case form of the license string contains one of MIT, BSD,
    Apache, ISC, Unlicense, CC0, WTFPL, Zlib, whatever the case of its
    letters.  It does so whenever the license string itself contains one
    of them case-insensitively, and for a license string of ASCII code
    units only then; the empty string is non-permissive, and so is every
    ASCII string that contains none of them. *)
Theorem classifier_allow_list (license : jsstring) :
  (isPermissiveLicense license = true <->
   exists pl, In pl permissiveLicenses
              /\ containsIgnoringCase (toUpperCase license) pl)
  /\ ((exists pl, In pl permissiveLicenses /\ containsIgnoringCase license pl) ->
      isPermissiveLicense license = true)
  /\ (isAscii license ->
      (isPermissiveLicense license = true <->
       exists pl, In pl permissiveLicenses /\ containsIgnoringCase license pl))
  /\ isPermissiveLicense [] = false
  /\ (isAscii license ->
      (forall pl, In pl permissiveLicenses ->
                  ~ containsIgnoringCase license pl) ->
      isPermissiveLicense license = false).
Proof.
  assert (Hif : (exists pl, In pl permissiveLicenses
                            /\ containsIgnoringCase license pl) ->
                isPermissiveLicense license = true).
  { intros (pl & Hin & Hc). exact (contained_permissive license pl Hin Hc). }
  split; [apply permissive_upper|].
  split; [exact Hif|]. split; [|split].
  - intros Ha. split; [apply permissive_contained, Ha | exact Hif].
  - vm_compute. reflexivity.
  - intros Ha Hnone. apply not_true_is_false. intros H.
    apply (permissive_contained license Ha) in H as (pl & Hin & Hc).
    exact (Hnone pl Hin Hc).
Qed.

Lemma classifier_allow_list_witness :
  isAscii (lit "Apache-2.0") /\ isPermissiveLicense (lit "Apache-2.0") = true.
Proof.
  assert (Ha : isAscii (lit "Apache-2.0")).
  { unfold isAscii. repeat constructor. }
  split; [exact Ha|].
  apply (proj2 (proj1 (proj2 (proj2 (classifier_allow_list (lit "Apache-2.0")))) Ha)).
  exists (lit "Apache"). split; [vm_compute; tauto|].
  exists [], (lit "Apache"), (lit "-2.0"). split; [reflexivity|].
  apply upperUnits_sameLetter. reflexivity.
Defined.

(** C5 does not hold as stated.  The string of m, dotless i (U+0131) and
    t, and the string of the ligature fi (U+FB01), s and c, contain none
    of the identifiers in any case of their letters, and both are
    classified permissive: the upper-case form of the dotless i is the
    letter I, and that of the ligature is FI. *)
Lemma dotless_i_permissive :
  let dotless := [109; 305; 116] in
  let ligature := [64257; 115; 99] in
  toUpperCase dotless = lit "MIT"
  /\ toUpperCase ligature = lit "FISC"
  /\ isPermissiveLicense dotless = true
  /\ isPermissiveLicense ligature = true
  /\ (~ exists pl, In pl permissiveLicenses /\ containsIgnoringCase dotless pl)
  /\ (~ exists pl, In pl permissiveLicenses /\ containsIgnoringCase ligature pl).
Proof.
  cbv zeta. do 4 (split; [vm_compute; reflexivity|]).
  split; intros (pl & Hin & Hc); apply includes_upperUnits in Hc;
    revert Hc; apply not_true_iff_false;
    repeat (destruct Hin as [<-|Hin]; [vm_compute; reflexivity|]);
    destruct Hin.
Qed.

(** ** Round trip *)

Lemma shown_shown d : shown (shown d) = shown d.
Proof. destruct d; reflexivity. Qed.

(** Nothing behind the first colon of a time stamp reaches the cache. *)
Lemma readStamp_cut (a b : jsstring) :
  includes a (lit ":") = false -> readStamp (a ++ 58 :: b) = readStamp a.
Proof.
  change (lit ":") with [58].
  intros H. unfold readStamp. f_equal. f_equal. f_equal.
  induction a as [|c a IH]; cbn [List.app beforeColon].
  - reflexivity.
  - apply includes_cons_false in H as [Hc H]. cbn [startsWith] in Hc.
    rewrite andb_true_r, N.eqb_sym in Hc. rewrite Hc, IH by exact H.
    reflexivity.
Qed.

(** C1, as amended.  A report made of well-formed records with distinct
    names is read back by the Cache Reader without error, and under the
    name of each record stands an entry with the same name, the same NPM
    and license links, the same permissiveness flag, the description as
    the block shows it (the placeholder for an empty one), and for time
    stamp what [readStamp] keeps of the written one: the text before its
    first colon. *)
Theorem report_round_trip
    (generated : jsstring) (total nonPermissive : nat)
    (records : list CachedDependencyInfo) :
  includes generated marker = false ->
  Forall (fun r => wellFormed r = true) records ->
  NoDup (List.map name records) ->
  exists cache,
    readCachedDependencies
      (Some (reportOf generated total nonPermissive records)) = (cache, [])
    /\ forall r, r ∈ records ->
         exists c,
           getProperty cache (name r) = Entry c
           /\ name c = name r
           /\ npmLink c = npmLink r
           /\ licenseLink c = licenseLink r
           /\ description c = shown (description r)
           /\ isPermissive c = isPermissive r
           /\ lastUpdated c = readStamp (lastUpdated r).
Proof.
  intros Hg Hwf Hnd.
  destruct (report_read_back generated total nonPermissive records Hg Hwf Hnd)
    as (cache & Hread & Hget).
  exists cache. split; [exact Hread|]. intros r Hin.
  exists (readBack r). rewrite (Hget r Hin). repeat split.
Qed.

Lemma report_round_trip_witness :
  exists cache,
    readCachedDependencies
      (Some (reportOf (lit "20. 11. 2024 0:25:03") 2 1 [copyleftLib; leftPad]))
    = (cache, [])
    /\ forall r, r ∈ [copyleftLib; leftPad] ->
         exists c,
           getProperty cache (name r) = Entry c
           /\ name c = name r
           /\ npmLink c = npmLink r
           /\ licenseLink c = licenseLink r
           /\ description c = shown (description r)
           /\ isPermissive c = isPermissive r
           /\ lastUpdated c = readStamp (lastUpdated r).
Proof.
  apply report_round_trip.
  - vm_compute. reflexivity.
  - repeat constructor.
  - apply (bool_decide_unpack _). vm_compute. exact I.
Defined.

(** C1 does not hold as stated.  The license link of an SPDX expression
    comes back without its first parenthesis, an empty description comes
    back as the placeholder, and two time stamps half an hour apart come
    back as one and the same text, so that no reading of it can tell the
    two instants apart, let alone to the second. *)
Lemma report_round_trip_fails :
  (exists cache c,
     readCachedDependencies
       (Some (reportOf (lit "20. 11. 2024 0:25:03") 1 0 [forge])) = (cache, [])
     /\ getProperty cache (name forge) = Entry c
     /\ licenseLink c = lit "BSD-3-Clause%20OR%20GPL-2.0)"
     /\ licenseLink c <> licenseLink forge
     /\ description c <> description forge)
  /\ lastUpdated leftPad <> lastUpdated leftPadLater
  /\ (exists cache cache' c,
        readCachedDependencies
          (Some (reportOf (lit "20. 11. 2024 0:25:03") 1 0 [leftPad]))
        = (cache, [])
        /\ readCachedDependencies
             (Some (reportOf (lit "20. 11. 2024 0:25:03") 1 0 [leftPadLater]))
           = (cache', [])
        /\ getProperty cache (name leftPad) = Entry c
        /\ getProperty cache' (name leftPad) = Entry c
        /\ lastUpdated c = lit " 20. 11. 2024 0").
Proof.
  split; [|split].
  - eexists _, _. split; [vm_compute; reflexivity|].
    split; [vm_compute; reflexivity|].
    split; [vm_compute; reflexivity|].
    split; vm_compute; discriminate.
  - vm_compute. discriminate.
  - eexists _, _, _. split; [vm_compute; reflexivity|].
    split; [vm_compute; reflexivity|].
    split; [vm_compute; reflexivity|].
    split; vm_compute; reflexivity.
Qed.

Local Close Scope N_scope.

Local Open Scope Z_scope.

(** ** Cache hits and staleness *)

Section CacheHit.

Variables (h : Host) (cache : CacheObject) (dep : jsstring)
          (c : CachedDependencyInfo).
Hypothesis Hentry : getProperty cache dep = Entry c.

Lemma unitOfWork_entry :
  unitOfWork h cache dep =
  if isCacheValid h c
  then cachedWork dep c (snd (parseDate h (lastUpdated c)))
  else freshWork h dep (snd (parseDate h (lastUpdated c))).
Proof. unfold unitOfWork. rewrite Hentry. reflexivity. Qed.

Lemma usedCache_valid :
  usedCache (unitOfWork h cache dep) = isCacheValid h c.
Proof. rewrite unitOfWork_entry. destruct (isCacheValid h c); reflexivity. Qed.

Lemma awaited_stale :
  awaited (unitOfWork h cache dep) = negb (isCacheValid h c).
Proof. rewrite unitOfWork_entry. destruct (isCacheValid h c); reflexivity. Qed.

(** A valid entry is served from the cache: no request, and a block made
    of the fields of the entry. *)
Lemma cache_hit :
  isCacheValid h c = true ->
  requests (unitOfWork h cache dep) = 0%nat
  /\ awaited (unitOfWork h cache dep) = false
  /\ usedCache (unitOfWork h cache dep) = true
  /\ settled (unitOfWork h cache dep)
     = Some (formatDependencyInfo dep (npmLink c) (licenseLink c)
               (description c) (isPermissive c) (lastUpdated c),
             isPermissive c).
Proof.
  intros Hv. rewrite unitOfWork_entry, Hv. repeat split.
Qed.

End CacheHit.

Lemma tryFormats_none h fs s :
  dateParse h s = None -> tryFormats h fs s = None.
Proof. intros H. induction fs as [|f fs IH]; simpl; [reflexivity|]. rewrite H. exact IH. Qed.

Lemma parseDate_fallback h s :
  dateParse h s = None -> fromSpecificFormat h s = None ->
  parseDate h s = (0, [UnparsedDate s]).
Proof.
  intros H1 H2. unfold parseDate. rewrite H1, H2, tryFormats_none by exact H1.
  reflexivity.
Qed.

Lemma format_shown dep npm lic d flag stamp :
  formatDependencyInfo dep npm lic (shown d) flag stamp
  = formatDependencyInfo dep npm lic d flag stamp.
Proof. unfold formatDependencyInfo. rewrite shown_shown. reflexivity. Qed.

(** C3, as amended.  When the previous report holds a well-formed record
    for D and the time stamp the Cache Reader took from it is less than a
    week old, the task of D sends no request and resolves to the block
    formatted from the cached name, links, description and flag: the
    cached block, with the time stamp the reader took in place of the one
    that was written. *)
Theorem cache_hit_block
    (h : Host) (generated : jsstring) (total nonPermissive : nat)
    (records : list CachedDependencyInfo) (r : CachedDependencyInfo) :
  previousReport h = Some (reportOf generated total nonPermissive records) ->
  includes generated marker = false ->
  Forall (fun r => wellFormed r = true) records ->
  NoDup (List.map name records) ->
  r ∈ records ->
  oneWeekAgo h < fst (parseDate h (readStamp (lastUpdated r))) ->
  let w := unitOfWork h (fst (readCachedDependencies (previousReport h)))
                      (name r) in
  requests w = 0%nat
  /\ awaited w = false
  /\ usedCache w = true
  /\ settled w
     = Some (formatDependencyInfo (name r) (npmLink r) (licenseLink r)
               (description r) (isPermissive r)
               (readStamp (lastUpdated r)),
             isPermissive r).
Proof.
  intros Hprev Hg Hwf Hnd Hin Hfresh w. subst w. rewrite Hprev.
  destruct (report_read_back generated total nonPermissive records Hg Hwf Hnd)
    as (cache & -> & Hget).
  cbn [fst].
  destruct (cache_hit h cache (name r) (readBack r) (Hget r Hin))
    as (H1 & H2 & H3 & H4).
  { unfold isCacheValid. apply Z.ltb_lt. exact Hfresh. }
  rewrite H1, H2, H3, H4. cbn [readBack npmLink licenseLink description
    isPermissive lastUpdated]. rewrite format_shown. repeat split.
Qed.

Lemma cache_hit_block_witness :
  let h := hostWithReport
             (reportOf (lit "20. 11. 2024 0:25:03") 1 0 [nodeFetch])
             1731900000000 in
  let w := unitOfWork h (fst (readCachedDependencies (previousReport h)))
                      (name nodeFetch) in
  requests w = 0%nat
  /\ awaited w = false
  /\ usedCache w = true
  /\ settled w
     = Some (formatDependencyInfo (name nodeFetch) (npmLink nodeFetch)
               (licenseLink nodeFetch) (description nodeFetch)
               (isPermissive nodeFetch)
               (readStamp (lastUpdated nodeFetch)),
             isPermissive nodeFetch).
Proof.
  apply (cache_hit_block _ (lit "20. 11. 2024 0:25:03") 1 0 [nodeFetch]).
  - reflexivity.
  - vm_compute. reflexivity.
  - repeat constructor.
  - apply (bool_decide_unpack _). vm_compute. exact I.
  - constructor.
  - vm_compute. reflexivity.
Defined.

(** C3 does not hold as stated.  The block of node-fetch in the report of
    the repository is served from the cache, without a request, and the
    block written for it differs from the cached one: its cache line has
    one more space. *)
Lemma cache_hit_block_differs :
  let previous := reportOf (lit "20. 11. 2024 0:25:03") 1 0 [nodeFetch] in
  let h := hostWithReport previous 1731900000000 in
  let w := unitOfWork h (fst (readCachedDependencies (previousReport h)))
                      (name nodeFetch) in
  includes previous (formatRecord nodeFetch) = true
  /\ includes (formatRecord nodeFetch) (lit "- *Cache:*    20. 11. 2024 0") = true
  /\ usedCache w = true
  /\ requests w = 0%nat
  /\ exists block,
       settled w = Some (block, true)
       /\ block <> formatRecord nodeFetch
       /\ includes block (lit "- *Cache:*     20. 11. 2024 0") = true.
Proof.
  cbv zeta. split; [vm_compute; reflexivity|].
  split; [vm_compute; reflexivity|].
  split; [vm_compute; reflexivity|].
  split; [vm_compute; reflexivity|].
  eexists. split; [vm_compute; reflexivity|].
  split; [vm_compute; discriminate | vm_compute; reflexivity].
Qed.

(** The staleness decision.  An entry is used exactly when its time
    stamp, once parsed, is strictly after [oneWeekAgo].  A time stamp
    that neither the standard parser nor the pattern accepts is taken for
    the epoch, time value 0; the entry is then stale, and its dependency
    fetched again, whenever [oneWeekAgo] is not before the epoch. *)
Theorem staleness_rule
    (h : Host) (cache : CacheObject) (dep : jsstring)
    (c : CachedDependencyInfo) :
  getProperty cache dep = Entry c ->
  (usedCache (unitOfWork h cache dep) = true
   <-> oneWeekAgo h < fst (parseDate h (lastUpdated c)))
  /\ (dateParse h (lastUpdated c) = None ->
      fromSpecificFormat h (lastUpdated c) = None ->
      fst (parseDate h (lastUpdated c)) = 0
      /\ (0 <= oneWeekAgo h ->
          usedCache (unitOfWork h cache dep) = false
          /\ awaited (unitOfWork h cache dep) = true)).
Proof.
  intros Hentry.
  rewrite (usedCache_valid h cache dep c Hentry),
    (awaited_stale h cache dep c Hentry).
  unfold isCacheValid. split.
  - apply Z.ltb_lt.
  - intros H1 H2. rewrite (parseDate_fallback h _ H1 H2). cbn [fst].
    split; [reflexivity|]. intros Hclock.
    assert (E : (oneWeekAgo h <? 0) = false) by (apply Z.ltb_ge; exact Hclock).
    rewrite E. split; reflexivity.
Qed.

Lemma staleness_rule_witness :
  let h := hostWithReport [] 1731900000000 in
  let cache := assign emptyObject (name undated) undated in
  (usedCache (unitOfWork h cache (name undated)) = true
   <-> oneWeekAgo h < fst (parseDate h (lastUpdated undated)))
  /\ (dateParse h (lastUpdated undated) = None ->
      fromSpecificFormat h (lastUpdated undated) = None ->
      fst (parseDate h (lastUpdated undated)) = 0
      /\ (0 <= oneWeekAgo h ->
          usedCache (unitOfWork h cache (name undated)) = false
          /\ awaited (unitOfWork h cache (name undated)) = true)).
Proof.
  apply (staleness_rule (hostWithReport [] 1731900000000)).
  vm_compute. reflexivity.
Defined.

(** C4.  The code does not keep to what it announces.  For a time stamp
    that nothing can parse, [parseDate] warns that it uses the oldest
    possible date, and returns the epoch.  On a machine whose clock
    stands at ten minutes past the epoch the epoch is later than a week
    before: the entry is used, and nothing is fetched, where an oldest
    date would have made it stale. *)
Lemma unparsed_stamp_used :
  let h := hostWithReport [] (600000 - 7 * 86400000) in
  let cache := assign emptyObject (name undated) undated in
  oneWeekAgo h = -604200000
  /\ getProperty cache (name undated) = Entry undated
  /\ dateParse h (lastUpdated undated) = None
  /\ fromSpecificFormat h (lastUpdated undated) = None
  /\ parseDate h (lastUpdated undated) = (0, [UnparsedDate (lit "n/a")])
  /\ usedCache (unitOfWork h cache (name undated)) = true
  /\ requests (unitOfWork h cache (name undated)) = 0%nat.
Proof. cbv zeta. repeat split. Qed.

(** ** Failures *)

(** C2, as amended.  When the manifest cannot be read or is not JSON, no
    report is written and the failure is logged; the run then ends
    normally: the promise of [generateDependenciesList] is fulfilled and
    the process exits with status 0. *)
Theorem manifest_failure (h : Host) :
  manifest h = ManifestUnreadable \/ manifest h = ManifestMalformed ->
  written (generateDependenciesList h) = None
  /\ FatalError ∈ stderr (generateDependenciesList h)
  /\ promise (generateDependenciesList h) = Fulfilled
  /\ exitCode (generateDependenciesList h) = 0.
Proof.
  intros H. unfold generateDependenciesList, tryBody.
  destruct H as [-> | ->]; cbn; repeat split; constructor.
Qed.

Lemma manifest_failure_witness :
  written (generateDependenciesList
             (exampleHost ManifestMalformed None offline 1731900000000)) = None
  /\ FatalError ∈ stderr (generateDependenciesList
             (exampleHost ManifestMalformed None offline 1731900000000))
  /\ promise (generateDependenciesList
             (exampleHost ManifestMalformed None offline 1731900000000))
     = Fulfilled
  /\ exitCode (generateDependenciesList
             (exampleHost ManifestMalformed None offline 1731900000000)) = 0.
Proof. apply manifest_failure. right. reflexivity. Defined.

(** C2 does not hold as stated.  With a manifest that is not JSON the
    process does not end abnormally: nothing is left unhandled and the
    exit status is 0. *)
Lemma manifest_failure_exits_normally :
  let o := generateDependenciesList
             (exampleHost ManifestMalformed None offline 1731900000000) in
  written o = None /\ promise o = Fulfilled /\ exitCode o = 0.
Proof. cbv zeta. repeat split. Qed.

Lemma readEntries_failure entries : forall obj,
  (exists entry, entry ∈ entries /\ parseEntry entry = None) ->
  readEntries obj entries = None.
Proof.
  induction entries as [|e entries IH]; intros obj (entry & Hin & Hfail).
  - inversion Hin.
  - cbn [readEntries]. apply elem_of_cons in Hin as [->|Hin].
    + rewrite Hfail. reflexivity.
    + destruct (parseEntry e); [|reflexivity]. apply IH. eauto.
Qed.

Lemma emptyObject_no_entry k c : getProperty emptyObject k <> Entry c.
Proof.
  unfold getProperty, emptyObject, inherited. cbn [own proto].
  rewrite lookup_empty. repeat (destruct (decide _)); discriminate.
Qed.

Lemma no_entry_no_hit h cache dep :
  (forall c, getProperty cache dep <> Entry c) ->
  usedCache (unitOfWork h cache dep) = false.
Proof.
  intros H. unfold unitOfWork.
  destruct (getProperty cache dep) as [|c|[]]; try reflexivity.
  destruct (H c eq_refl).
Qed.

(** C9.  When one entry of the previous report cannot be taken apart,
    [readCachedDependencies] logs the error and returns the empty object:
    no name has an entry any more, whatever the other entries were, and
    no dependency is served from the cache. *)
Theorem malformed_entry_empties_cache (content : jsstring) :
  (exists entry, entry ∈ entriesOf content /\ parseEntry entry = None) ->
  readCachedDependencies (Some content) = (emptyObject, [CacheReadError])
  /\ (forall k c,
        getProperty (fst (readCachedDependencies (Some content))) k <> Entry c)
  /\ (forall h dep,
        usedCache (unitOfWork h (fst (readCachedDependencies (Some content)))
                              dep) = false).
Proof.
  intros H. unfold readCachedDependencies.
  rewrite (readEntries_failure _ emptyObject H).
  split; [reflexivity|]. split.
  - intros k c. apply emptyObject_no_entry.
  - intros h dep. apply no_entry_no_hit. intros c. apply emptyObject_no_entry.
Qed.

Lemma malformed_entry_empties_cache_witness :
  (exists good, entriesOf brokenReport !! 0%nat = Some good
                /\ parseEntry good = Some (readBack copyleftLib))
  /\ readCachedDependencies (Some brokenReport) = (emptyObject, [CacheReadError])
  /\ (forall k c,
        getProperty (fst (readCachedDependencies (Some brokenReport))) k
        <> Entry c)
  /\ (forall h dep,
        usedCache (unitOfWork h (fst (readCachedDependencies (Some brokenReport)))
                              dep) = false).
Proof.
  split.
  - eexists. split; vm_compute; reflexivity.
  - apply malformed_entry_empties_cache.
    exists (drop 4 brokenBlock ++ footer). split.
    + apply (bool_decide_unpack _). vm_compute. exact I.
    + vm_compute. reflexivity.
Defined.

Local Close Scope Z_scope.

Local Open Scope nat_scope.

(** ** The queue *)

Section ListUpdate.

Context {A : Type} (f : A -> bool).

(** Replacing one element changes the count by that element alone. *)
Lemma filter_length_insert (l : list A) (i : nat) (old new : A) :
  l !! i = Some old ->
  length (List.filter f (<[i := new]> l)) + (if f old then 1 else 0)
  = length (List.filter f l) + (if f new then 1 else 0).
Proof.
  revert i. induction l as [|x l IH]; intros i H.
  - destruct i; discriminate.
  - destruct i as [|i].
    + injection H as ->. cbn. destruct (f old), (f new); simpl; lia.
    + specialize (IH i H).
      change (<[S i := new]> (x :: l)) with (x :: <[i := new]> l).
      cbn [List.filter]. destruct (f x); simpl; lia.
Qed.

End ListUpdate.

Lemma filter_length_le {A} (f g : A -> bool) (l : list A) :
  (forall x, f x = true -> g x = true) ->
  length (List.filter f l) <= length (List.filter g l).
Proof.
  intros Hfg. induction l as [|x l IH]; simpl; [lia|].
  destruct (f x) eqn:E.
  - rewrite (Hfg x E). simpl. lia.
  - destruct (g x); simpl; lia.
Qed.

Lemma creditedSum_insert (f : Work -> nat) ps ws i old new w :
  ps !! i = Some old -> ws !! i = Some w ->
  creditedSum f (<[i := new]> ps) ws + (if credited old then f w else 0)
  = creditedSum f ps ws + (if credited new then f w else 0).
Proof.
  revert ws i. induction ps as [|p ps IH]; intros ws i Hp Hw.
  - destruct i; discriminate.
  - destruct ws as [|w0 ws]; [destruct i; discriminate|].
    destruct i as [|i].
    + injection Hp as ->. injection Hw as ->. cbn. lia.
    + specialize (IH ws i Hp Hw).
      change (<[S i := new]> (p :: ps)) with (p :: <[i := new]> ps).
      cbn [creditedSum]. lia.
Qed.

Lemma creditedSum_all (f : Work -> nat) ps ws :
  length ps = length ws -> forallb isSettled ps = true ->
  creditedSum f ps ws = sumOf f ws.
Proof.
  revert ws. induction ps as [|p ps IH]; intros [|w ws] Hlen Hall;
    try discriminate; [reflexivity|].
  cbn in *. apply andb_true_iff in Hall as [Hp Hall].
  destruct p; try discriminate. cbn.
  rewrite IH by (try lia; exact Hall). reflexivity.
Qed.

Lemma creditedSum_none (f : Work -> nat) n ws :
  creditedSum f (replicate n Queued) ws = 0.
Proof.
  revert ws. induction n as [|n IH]; intros [|w ws]; cbn; try reflexivity.
  apply IH.
Qed.

Section QueueFacts.

Variable works : list Work.

Lemma consistent_initial : consistent works (initialPool works).
Proof.
  unfold consistent, initialPool. cbn.
  rewrite length_replicate, !creditedSum_none. repeat split.
Qed.

Lemma pending_initial : pending (initialPool works) = 0.
Proof.
  unfold pending, initialPool. cbn.
  induction (length works) as [|n IH]; [reflexivity | exact IH].
Qed.

Lemma pending_setPhase st i old new :
  phases st !! i = Some old ->
  pending (setPhase st i new) + (if holdsSlot old then 1 else 0)
  = pending st + (if holdsSlot new then 1 else 0).
Proof. intros H. unfold pending. cbn. apply filter_length_insert, H. Qed.

(** No event takes the queue above its bound. *)
Lemma step_pending st ev st' :
  step works st ev = Some st' ->
  pending st <= concurrency -> pending st' <= concurrency.
Proof.
  unfold step. intros Hstep Hle.
  destruct ev as [i|i|i];
    destruct (phases st !! i) as [[]|] eqn:Hp; try discriminate.
  - destruct (works !! i) as [w|]; [|discriminate].
    destruct (decide (pending st < concurrency)) as [Hlt|]; [|discriminate].
    destruct (awaited w); injection Hstep as <-.
    + pose proof (pending_setPhase st i Queued Awaiting Hp) as H.
      unfold pending, send in *. cbn in *. lia.
    + pose proof (pending_setPhase st i Queued Finishing Hp) as H.
      unfold pending, credit in *. cbn in *. lia.
  - destruct (works !! i) as [w|]; [|discriminate]. injection Hstep as <-.
    pose proof (pending_setPhase st i Awaiting Finishing Hp) as H.
    unfold pending, credit in *. cbn in *. lia.
  - injection Hstep as <-.
    pose proof (pending_setPhase st i Finishing Settled Hp) as H.
    unfold pending in *. cbn in *. lia.
Qed.

Lemma run_pending evs : forall st st',
  run works st evs = Some st' ->
  pending st <= concurrency -> pending st' <= concurrency.
Proof.
  induction evs as [|ev evs IH]; intros st st' Hrun Hle; cbn in Hrun.
  - injection Hrun as <-. exact Hle.
  - destruct (step works st ev) as [st1|] eqn:Hstep; [|discriminate].
    eapply IH; [exact Hrun|]. eapply step_pending; eassumption.
Qed.

Lemma inFlight_pending st : inFlight st <= pending st.
Proof.
  unfold inFlight, pending. apply filter_length_le.
  intros []; cbn; congruence.
Qed.

Lemma allSettled_pending st : allSettled st = true -> pending st = 0.
Proof.
  unfold allSettled, pending. induction (phases st) as [|p ps IH]; cbn.
  - reflexivity.
  - rewrite andb_true_iff. intros [Hp H]. destruct p; try discriminate.
    cbn. exact (IH H).
Qed.

(** Every event keeps the counters in step with the phases. *)
Lemma step_consistent st ev st' :
  step works st ev = Some st' -> consistent works st -> consistent works st'.
Proof.
  unfold step, consistent. intros Hstep (Hlen & Hp & Hn & Hc).
  destruct ev as [i|i|i];
    destruct (phases st !! i) as [[]|] eqn:Hph; try discriminate.
  - destruct (works !! i) as [w|] eqn:Hw; [|discriminate].
    destruct (decide (pending st < concurrency)); [|discriminate].
    destruct (awaited w); injection Hstep as <-; cbn;
      rewrite length_insert;
      pose proof (creditedSum_insert resolves (phases st) works i Queued) as E1;
      pose proof (creditedSum_insert flagged (phases st) works i Queued) as E2;
      pose proof (creditedSum_insert fromCache (phases st) works i Queued) as E3.
    + specialize (E1 Awaiting w Hph Hw). specialize (E2 Awaiting w Hph Hw).
      specialize (E3 Awaiting w Hph Hw). cbn in *. repeat split; lia.
    + specialize (E1 Finishing w Hph Hw). specialize (E2 Finishing w Hph Hw).
      specialize (E3 Finishing w Hph Hw).
      unfold resolves, flagged, fromCache in *.
      destruct (settled w) as [[? []]|], (usedCache w); cbn in *;
        repeat split; lia.
  - destruct (works !! i) as [w|] eqn:Hw; [|discriminate].
    injection Hstep as <-. cbn. rewrite length_insert.
    pose proof (creditedSum_insert resolves _ _ i Awaiting Finishing w Hph Hw) as E1.
    pose proof (creditedSum_insert flagged _ _ i Awaiting Finishing w Hph Hw) as E2.
    pose proof (creditedSum_insert fromCache _ _ i Awaiting Finishing w Hph Hw) as E3.
    unfold resolves, flagged, fromCache in *.
    destruct (settled w) as [[? []]|], (usedCache w); cbn in *;
      repeat split; lia.
  - injection Hstep as <-. cbn. rewrite length_insert.
    assert (Hw : exists w, works !! i = Some w).
    { apply lookup_lt_is_Some. rewrite <- Hlen.
      apply lookup_lt_is_Some. eauto. }
    destruct Hw as [w Hw].
    pose proof (creditedSum_insert resolves _ _ i Finishing Settled w Hph Hw) as E1.
    pose proof (creditedSum_insert flagged _ _ i Finishing Settled w Hph Hw) as E2.
    pose proof (creditedSum_insert fromCache _ _ i Finishing Settled w Hph Hw) as E3.
    cbn in *. repeat split; lia.
Qed.

Lemma run_consistent evs : forall st st',
  run works st evs = Some st' -> consistent works st -> consistent works st'.
Proof.
  induction evs as [|ev evs IH]; intros st st' Hrun Hc; cbn in Hrun.
  - injection Hrun as <-. exact Hc.
  - destruct (step works st ev) as [st1|] eqn:Hstep; [|discriminate].
    eapply IH; [exact Hrun|]. eapply step_consistent; eassumption.
Qed.

Lemma tally_sums ws : forall c,
  fold_left tally ws c =
  {| processedCount := processedCount c + sumOf resolves ws;
     nonPermissiveCount := nonPermissiveCount c + sumOf flagged ws;
     cachedCount := cachedCount c + sumOf fromCache ws |}.
Proof.
  induction ws as [|w ws IH]; intros c; cbn [fold_left sumOf].
  - destruct c. cbn. f_equal; lia.
  - rewrite IH. unfold tally, resolves, flagged, fromCache.
    destruct (settled w) as [[? []]|], (usedCache w); cbn; f_equal; lia.
Qed.

(** In whatever order the tasks ran, once all are settled the counters
    hold what the tasks add up to. *)
Lemma run_counters evs st :
  run works (initialPool works) evs = Some st ->
  allSettled st = true ->
  counters st = fold_left tally works noCounts.
Proof.
  intros Hrun Hall.
  destruct (run_consistent evs _ _ Hrun consistent_initial)
    as (Hlen & Hp & Hn & Hc).
  unfold allSettled in Hall.
  rewrite creditedSum_all in Hp, Hn, Hc by assumption.
  rewrite tally_sums. destruct (counters st). cbn in *. subst. reflexivity.
Qed.

End QueueFacts.

(** ** Names of the dependencies *)

Section SortFacts.

Implicit Types (a b x : jsstring) (l : list jsstring).

Lemma ltb_asym a : forall b, ltb a b = true -> ltb b a = false.
Proof.
  induction a as [|x a IH]; intros [|y b]; cbn; try congruence.
  rewrite orb_true_iff, andb_true_iff, N.ltb_lt, N.eqb_eq.
  intros [Hlt | [-> H]].
  - apply orb_false_intro; [apply N.ltb_ge; lia|].
    apply andb_false_intro1, N.eqb_neq. lia.
  - rewrite N.ltb_irrefl, N.eqb_refl. cbn. apply IH, H.
Qed.

Lemma leb_total a b : leb a b = false -> leb b a = true.
Proof.
  unfold leb. rewrite negb_false_iff, negb_true_iff. apply ltb_asym.
Qed.

Lemma insertSorted_perm x l : Permutation (insertSorted x l) (x :: l).
Proof.
  induction l as [|y l IH]; cbn; [reflexivity|].
  destruct (leb x y); [reflexivity|].
  rewrite IH. apply perm_swap.
Qed.

Lemma sort_perm l : Permutation (sort l) l.
Proof.
  induction l as [|x l IH]; cbn; [reflexivity|].
  rewrite insertSorted_perm, IH. reflexivity.
Qed.

Lemma sort_length l : length (sort l) = length l.
Proof. apply Permutation_length, sort_perm. Qed.

Lemma insertSorted_sorted x l :
  Sorted ascending l -> Sorted ascending (insertSorted x l).
Proof.
  induction 1 as [|y l Hs IH Hhd]; cbn.
  - repeat constructor.
  - destruct (leb x y) eqn:E.
    + constructor; [constructor; assumption|]. constructor. exact E.
    + constructor; [exact IH|].
      destruct Hhd as [|z l Hz]; cbn.
      * constructor. apply leb_total, E.
      * destruct (leb x z); constructor; [apply leb_total, E | exact Hz].
Qed.

Lemma sort_sorted l : Sorted ascending (sort l).
Proof.
  induction l as [|x l IH]; cbn; [constructor|].
  apply insertSorted_sorted, IH.
Qed.

Lemma ltb_above a : forall b c,
  ltb a b = false -> ltb b c = false -> ltb a c = false.
Proof.
  induction a as [|x a IH]; intros [|y b] [|z c]; cbn; try congruence.
  rewrite !orb_false_iff, !andb_false_iff, !N.ltb_ge, !N.eqb_neq.
  intros [Hxy Hab] [Hyz Hbc]. split; [lia|].
  destruct (N.eq_dec x z) as [->|Hne]; [|left; exact Hne]. right.
  assert (y = z) by lia. subst y.
  apply (IH b c); [destruct Hab | destruct Hbc]; congruence.
Qed.

Lemma ltb_neither a : forall b, ltb a b = false -> ltb b a = false -> a = b.
Proof.
  induction a as [|x a IH]; intros [|y b]; cbn; try congruence.
  rewrite !orb_false_iff, !andb_false_iff, !N.ltb_ge, !N.eqb_neq.
  intros [Hxy Hab] [Hyx Hba]. assert (x = y) by lia. subst y.
  f_equal. apply IH; [destruct Hab | destruct Hba]; congruence.
Qed.

#[local] Instance ascending_trans : Transitive ascending.
Proof.
  intros a b c. unfold ascending, leb. rewrite !negb_true_iff.
  intros H1 H2. exact (ltb_above c b a H2 H1).
Qed.

Lemma ascending_refl a : ascending a a.
Proof.
  unfold ascending, leb. apply negb_true_iff.
  destruct (ltb a a) eqn:E; [|reflexivity].
  rewrite (ltb_asym a a E) in E. discriminate.
Qed.

(** A list has one ascending arrangement. *)
Lemma ascending_unique l : forall l',
  StronglySorted ascending l -> StronglySorted ascending l' ->
  Permutation l l' -> l = l'.
Proof.
  induction l as [|x l IH]; intros l' Hs Hs' Hp.
  - apply Permutation_nil in Hp. congruence.
  - destruct l' as [|y l'].
    + apply Permutation_sym, Permutation_nil in Hp. discriminate.
    + apply StronglySorted_inv in Hs as [Hs Hx].
      apply StronglySorted_inv in Hs' as [Hs' Hy].
      assert (Hxy : ascending x y).
      { assert (Hin : List.In y (x :: l)).
        { eapply Permutation_in; [symmetry; exact Hp|]. left. reflexivity. }
        destruct Hin as [->|Hin]; [apply ascending_refl|].
        rewrite List.Forall_forall in Hx. apply Hx, Hin. }
      assert (Hyx : ascending y x).
      { assert (Hin : List.In x (y :: l')).
        { eapply Permutation_in; [exact Hp|]. left. reflexivity. }
        destruct Hin as [->|Hin]; [apply ascending_refl|].
        rewrite List.Forall_forall in Hy. apply Hy, Hin. }
      assert (x = y).
      { unfold ascending, leb in *. rewrite negb_true_iff in *.
        apply ltb_neither; assumption. }
      subst y. f_equal. apply IH; [assumption..|].
      eapply Permutation_cons_inv, Hp.
Qed.

(** In whatever order the keys of the merged object are enumerated, the
    sorted list of names is the same. *)
Lemma sort_enumeration l l' : Permutation l l' -> sort l = sort l'.
Proof.
  intros Hp. apply ascending_unique.
  - apply Sorted_StronglySorted; [exact ascending_trans | apply sort_sorted].
  - apply Sorted_StronglySorted; [exact ascending_trans | apply sort_sorted].
  - rewrite !sort_perm. exact Hp.
Qed.

End SortFacts.

Lemma addKeys_spec ks : forall acc,
  NoDup acc ->
  NoDup (fold_left addKey ks acc)
  /\ forall x, x ∈ fold_left addKey ks acc <-> x ∈ acc \/ x ∈ ks.
Proof.
  induction ks as [|k ks IH]; intros acc Hnd; cbn [fold_left].
  - split; [exact Hnd|]. intros x. rewrite elem_of_nil. tauto.
  - unfold addKey at 2 4. destruct (decide (k ∈ acc)) as [Hin|Hout].
    + destruct (IH acc Hnd) as [H1 H2]. split; [exact H1|].
      intros x. rewrite H2, elem_of_cons. split; [tauto|].
      intros [H|[->|H]]; tauto.
    + assert (Hnd' : NoDup (acc ++ [k])).
      { apply NoDup_app. split; [exact Hnd|]. split.
        - intros x Hx Hk. apply list_elem_of_singleton in Hk. congruence.
        - apply NoDup_singleton. }
      destruct (IH _ Hnd') as [H1 H2]. split; [exact H1|].
      intros x. rewrite H2, elem_of_app, list_elem_of_singleton, elem_of_cons.
      tauto.
Qed.

(** The merged mapping has each declared name once. *)
Lemma allDependencies_spec pkg :
  NoDup (allDependencies pkg)
  /\ forall x, x ∈ allDependencies pkg <->
               x ∈ keysOf (dependencies pkg) \/ x ∈ keysOf (devDependencies pkg).
Proof.
  unfold allDependencies.
  destruct (addKeys_spec (keysOf (dependencies pkg) ++ keysOf (devDependencies pkg))
              [] (NoDup_nil_2)) as [H1 H2].
  split; [exact H1|]. intros x. rewrite H2, elem_of_nil, elem_of_app. tauto.
Qed.

(** ** The report of a run *)

Lemma settled_results (ws : list Work) : forall blocks,
  mapM (fun w => fst <$> settled w) ws = Some blocks ->
  exists results,
    Forall2 (fun w x => settled w = Some x) ws results
    /\ blocks = List.map fst results
    /\ sumOf flagged ws = length (marked results)
    /\ sumOf resolves ws = length results.
Proof.
  induction ws as [|w ws IH]; intros blocks H.
  - apply mapM_Some in H. inversion H; subst.
    exists []. repeat split. constructor.
  - apply mapM_Some in H. inversion H as [|? b ? bs Hw Hws]; subst.
    apply mapM_Some in Hws. destruct (IH bs Hws) as (rs & F & -> & Hn & Hp).
    destruct (settled w) as [[b' flag]|] eqn:E; [|discriminate].
    cbn in Hw. injection Hw as ->.
    exists ((b, flag) :: rs). split; [constructor; assumption|].
    split; [reflexivity|]. unfold marked in *.
    cbn [sumOf List.filter snd length]. rewrite Hn, Hp.
    unfold flagged, resolves. rewrite E.
    destruct flag; cbn; split; reflexivity.
Qed.

(** What stands in a report that was written. *)
Lemma report_structure (h : Host) (doc : jsstring) :
  written (generateDependenciesList h) = Some doc ->
  exists pkg results,
    manifest h = ManifestParsed pkg
    /\ Forall2 (fun dep x => settled (unitOfWork h (cacheFor h) dep) = Some x)
               (sort (allDependencies pkg)) results
    /\ doc = fullContent (generatedOn h) (length results)
                         (length (marked results)) (List.map fst results)
    /\ fold_left tally (worksOf h pkg) noCounts
       = {| processedCount := length results;
            nonPermissiveCount := length (marked results);
            cachedCount := sumOf fromCache (worksOf h pkg) |}.
Proof.
  unfold generateDependenciesList, tryBody.
  destruct (manifest h) as [| |pkg]; try discriminate.
  destruct (mapM _ (worksOf h pkg)) as [blocks|] eqn:HM; [|discriminate].
  destruct (outputWritable h); [|discriminate].
  cbn [written]. intros H. injection H as <-.
  destruct (settled_results _ _ HM) as (results & F & -> & Hn & Hp).
  exists pkg, results. split; [reflexivity|].
  assert (Hlen : length (allDependencies pkg) = length results).
  { apply Forall2_length in F. unfold worksOf in F.
    rewrite List.length_map, sort_length in F. exact F. }
  split; [|split].
  - unfold worksOf in F. apply Forall2_fmap_l in F. exact F.
  - rewrite tally_sums. cbn. rewrite Hn, Hlen. reflexivity.
  - rewrite tally_sums. cbn. rewrite Hn, Hp. reflexivity.
Qed.

Lemma unitOfWork_block h cache dep block flag :
  settled (unitOfWork h cache dep) = Some (block, flag) ->
  exists npm lic text stamp,
    block = formatDependencyInfo dep npm lic text flag stamp.
Proof.
  unfold unitOfWork.
  assert (Hfresh : forall log,
    settled (freshWork h dep log) = Some (block, flag) ->
    exists npm lic text stamp,
      block = formatDependencyInfo dep npm lic text flag stamp).
  { intros log. unfold freshWork. cbn [settled].
    destruct (encodeURIComponent dep) as [e|]; [|discriminate].
    cbn [mbind option_bind].
    destruct (freshLicenseLink _) as [l|]; [|discriminate].
    cbn [mbind option_bind].
    intros H. injection H as <- <-. do 4 eexists. reflexivity. }
  destruct (getProperty cache dep) as [|c|[]]; try apply Hfresh.
  - destruct (isCacheValid h c); [|apply Hfresh].
    cbn [cachedWork settled]. intros H. injection H as <- <-.
    do 4 eexists. reflexivity.
  - discriminate.
Qed.

Lemma formatDependencyInfo_title dep npm lic text flag stamp :
  startsWith (formatDependencyInfo dep npm lic text flag stamp)
             (lit "### " ++ warningMark flag ++ dep ++ nl) = true.
Proof.
  unfold formatDependencyInfo. apply startsWith_spec. eexists.
  rewrite <- !List.app_assoc. reflexivity.
Qed.

Lemma report_titles (h : Host) (doc : jsstring) :
  written (generateDependenciesList h) = Some doc ->
  exists pkg results,
    manifest h = ManifestParsed pkg
    /\ doc = fullContent (generatedOn h) (length results)
                         (length (marked results)) (List.map fst results)
    /\ Forall2 (fun dep x =>
                  startsWith (fst x)
                    (lit "### " ++ warningMark (snd x) ++ dep ++ nl) = true)
               (sort (allDependencies pkg)) results.
Proof.
  intros H. destruct (report_structure h doc H) as (pkg & results & Hm & F & Hdoc & Hc).
  exists pkg, results. split; [exact Hm|]. split; [exact Hdoc|].
  eapply Forall2_impl; [exact F|]. intros dep [block flag] Hs.
  destruct (unitOfWork_block _ _ _ _ _ Hs) as (npm & lic & text & stamp & ->).
  apply formatDependencyInfo_title.
Qed.

(** C10.  In every report that is written, the total in the header is
    the number of blocks and the non-permissive count is the number of
    blocks formatted with the warning mark; each block is the block of
    the name at its place, its title carrying the mark exactly when its
    flag says non-permissive; and in whatever order the tasks ran, each
    non-permissive record was counted once. *)
Theorem summary_counts (h : Host) (doc : jsstring) :
  written (generateDependenciesList h) = Some doc ->
  exists pkg results,
    manifest h = ManifestParsed pkg
    /\ doc = fullContent (generatedOn h) (length results)
                         (length (marked results)) (List.map fst results)
    /\ Forall2 (fun dep x =>
                  startsWith (fst x)
                    (lit "### " ++ warningMark (snd x) ++ dep ++ nl) = true)
               (sort (allDependencies pkg)) results
    /\ forall evs st,
         run (worksOf h pkg) (initialPool (worksOf h pkg)) evs = Some st ->
         allSettled st = true ->
         nonPermissiveCount (counters st) = length (marked results)
         /\ processedCount (counters st) = length results.
Proof.
  intros H. destruct (report_structure h doc H) as (pkg & results & Hm & F & Hdoc & Hc).
  exists pkg, results. split; [exact Hm|]. split; [exact Hdoc|]. split.
  - eapply Forall2_impl; [exact F|]. intros dep [block flag] Hs.
    destruct (unitOfWork_block _ _ _ _ _ Hs) as (npm & lic & text & stamp & ->).
    apply formatDependencyInfo_title.
  - intros evs st Hrun Hall.
    rewrite (run_counters _ evs st Hrun Hall), Hc. split; reflexivity.
Qed.

Example end_to_end : written (generateDependenciesList specHost) = Some specReport.
Proof. vm_compute. reflexivity. Qed.

Lemma summary_counts_witness :
  exists pkg results,
    manifest specHost = ManifestParsed pkg
    /\ specReport = fullContent (generatedOn specHost) (length results)
                         (length (marked results)) (List.map fst results)
    /\ Forall2 (fun dep x =>
                  startsWith (fst x)
                    (lit "### " ++ warningMark (snd x) ++ dep ++ nl) = true)
               (sort (allDependencies pkg)) results
    /\ forall evs st,
         run (worksOf specHost pkg) (initialPool (worksOf specHost pkg)) evs
         = Some st ->
         allSettled st = true ->
         nonPermissiveCount (counters st) = length (marked results)
         /\ processedCount (counters st) = length results.
Proof. apply (summary_counts specHost specReport). vm_compute. reflexivity. Defined.

(** With ten tasks running the queue starts no eleventh; it does once a
    slot has been given back. *)
Example eleventh_waits :
  match run twelveWorks (initialPool twelveWorks) tenStarts with
  | Some st => step twelveWorks st (Start 10)
  | None => None
  end = None
  /\ match run twelveWorks (initialPool twelveWorks)
              (tenStarts ++ [Arrive 3; Release 3; Start 10]) with
     | Some st => Some (pending st, inFlight st, requestsSent st)
     | None => None
     end = Some (10, 10, 11).
Proof. split; vm_compute; reflexivity. Qed.

(** A whole run of three tasks, the last answer coming first, ends with
    the counters and the blocks of the report. *)
Example out_of_order_run :
  match run specWorks (initialPool specWorks) outOfOrder with
  | Some st =>
      match promiseAll specWorks st with
      | Some (Some blocks) =>
          Some (counters st,
                fullContent (generatedOn specHost) 3
                            (nonPermissiveCount (counters st)) blocks)
      | _ => None
      end
  | None => None
  end
  = Some ({| processedCount := 3; nonPermissiveCount := 2; cachedCount := 0 |},
          specReport).
Proof. vm_compute. reflexivity. Qed.

(** ** Failed fetches *)



Lemma join_includes sep (blocks : list jsstring) block :
  block ∈ blocks -> exists a b, join sep blocks = a ++ block ++ b.
Proof.
  induction blocks as [|x blocks IH]; intros Hin; [inversion Hin|].
  apply elem_of_cons in Hin as [->|Hin].
  - destruct blocks as [|y blocks].
    + exists [], []. cbn. rewrite List.app_nil_r. reflexivity.
    + exists [], (sep ++ join sep (y :: blocks)). reflexivity.
  - destruct (IH Hin) as (a & b & E). destruct blocks as [|y blocks].
    + inversion Hin.
    + exists (x ++ sep ++ a), b.
      change (join sep (x :: y :: blocks))
        with (x ++ sep ++ join sep (y :: blocks)).
      rewrite E, <- !List.app_assoc. reflexivity.
Qed.

Lemma fullContent_includes generated n k blocks block :
  block ∈ blocks -> includes (fullContent generated n k blocks) block = true.
Proof.
  intros Hin. destruct (join_includes (nl ++ nl) blocks block Hin) as (a & b & E).
  apply includes_spec. unfold fullContent. rewrite E.
  exists (header generated n k ++ a), (b ++ footer).
  rewrite <- !List.app_assoc. reflexivity.
Qed.




(** ** One record for each name *)

(** When a report is written it has one block for each name of the
    merged mapping and for no other, in the order of the sorted names. *)
Lemma report_records (h : Host) (doc : jsstring) :
  written (generateDependenciesList h) = Some doc ->
  exists pkg results,
    manifest h = ManifestParsed pkg
    /\ doc = fullContent (generatedOn h) (length results)
                         (length (marked results)) (List.map fst results)
    /\ Forall2 (fun dep x =>
                  startsWith (fst x)
                    (lit "### " ++ warningMark (snd x) ++ dep ++ nl) = true)
               (sort (allDependencies pkg)) results
    /\ Sorted ascending (sort (allDependencies pkg))
    /\ NoDup (sort (allDependencies pkg))
    /\ forall x, x ∈ sort (allDependencies pkg) <->
                 x ∈ keysOf (dependencies pkg) \/ x ∈ keysOf (devDependencies pkg).
Proof.
  intros H. destruct (report_titles h doc H) as (pkg & results & Hm & Hd & F).
  exists pkg, results. split; [exact Hm|]. split; [exact Hd|]. split; [exact F|].
  destruct (allDependencies_spec pkg) as [Hnd Hin].
  split; [apply sort_sorted|]. split.
  - rewrite sort_perm. exact Hnd.
  - intros x. rewrite sort_perm. apply Hin.
Qed.

(** The report is written when the manifest parses, the output file can
    be written and no task is rejected. *)
Lemma report_written (h : Host) (pkg : PackageJson) :
  manifest h = ManifestParsed pkg ->
  outputWritable h = true ->
  Forall (fun dep => is_Some (settled (unitOfWork h (cacheFor h) dep)))
         (allDependencies pkg) ->
  is_Some (written (generateDependenciesList h)).
Proof.
  intros Hm Hw Hall. unfold generateDependenciesList, tryBody.
  rewrite Hm, Hw.
  assert (HS : is_Some (mapM (fun w => fst <$> settled w) (worksOf h pkg))).
  { apply mapM_is_Some. unfold worksOf. apply Forall_fmap.
    rewrite sort_perm. eapply Forall_impl; [exact Hall|].
    intros dep [x Hx]. cbn. fold (cacheFor h). rewrite Hx. eauto. }
  destruct HS as [blocks ->]. cbn. eauto.
Qed.

(** C6 fails on the code.  A manifest that names the package constructor,
    with no previous report: the lookup in the empty cache finds the
    function every object inherits under that name, the task of the
    package is rejected before any request, and the run ends in the
    catch-all handler without a report, so that neither name of the
    manifest gets a record. *)
Theorem inherited_name_aborts :
  allDependencies (packageOf ["left-pad"; "constructor"]%string)
  = [lit "left-pad"; lit "constructor"]
  /\ getProperty (cacheFor constructorHost) (lit "constructor") = Foreign true
  /\ settled (unitOfWork constructorHost (cacheFor constructorHost)
                         (lit "constructor")) = None
  /\ requests (unitOfWork constructorHost (cacheFor constructorHost)
                          (lit "constructor")) = 0
  /\ written (generateDependenciesList constructorHost) = None
  /\ FatalError ∈ stderr (generateDependenciesList constructorHost).
Proof.
  repeat split; try (vm_compute; reflexivity).
  apply list_elem_of_In. vm_compute. tauto.
Qed.

(** ** The queue and [Promise.all] *)

(** A rejection of [Promise.all] comes from a task that was rejected. *)
Lemma anyRejected_task (ps : list Phase) : forall ws,
  anyRejected ps ws = true ->
  exists i w, ws !! i = Some w /\ ps !! i = Some Settled /\ settled w = None.
Proof.
  induction ps as [|p ps IH]; intros [|w ws] H; try discriminate.
  cbn [anyRejected] in H. apply orb_true_iff in H as [H|H].
  - apply andb_true_iff in H as [Hp Hw]. exists 0, w.
    destruct p; try discriminate. unfold rejects in Hw.
    destruct (settled w); [discriminate|]. repeat split.
  - destruct (IH ws H) as (i & w' & H1 & H2 & H3). exists (S i), w'.
    repeat split; assumption.
Qed.

Lemma mapM_rejected (ws : list Work) i w :
  ws !! i = Some w -> settled w = None ->
  mapM (fun w => fst <$> settled w) ws = None.
Proof.
  intros Hi Hw. destruct (mapM _ ws) as [blocks|] eqn:E; [|reflexivity].
  exfalso. apply mapM_Some_1 in E.
  destruct (Forall2_lookup_l _ _ _ _ _ E Hi) as (b & _ & Hb).
  rewrite Hw in Hb. discriminate.
Qed.

Lemma settled_rejected (ps : list Phase) : forall ws i w,
  ws !! i = Some w -> ps !! i = Some Settled -> settled w = None ->
  anyRejected ps ws = true.
Proof.
  induction ps as [|p ps IH]; intros [|w0 ws] [|i] w Hw Hp Hs;
    try discriminate; cbn [anyRejected].
  - injection Hw as ->. injection Hp as ->. unfold rejects. rewrite Hs.
    reflexivity.
  - rewrite (IH ws i w Hw Hp Hs). apply orb_true_r.
Qed.

(** C8.  Whatever the number of dependencies of the manifest and the
    order of the events, the tasks the queue has running never exceed
    10, and neither do the requests awaited.  [Promise.all] hands over
    the blocks only when every task is settled and no slot is held, and
    the report is formatted from these blocks; when it is rejected a
    task was rejected, and no report is formatted. *)
Theorem queue_bound
    (h : Host) (pkg : PackageJson) (evs : list Event) (st : Pool) :
  manifest h = ManifestParsed pkg ->
  run (worksOf h pkg) (initialPool (worksOf h pkg)) evs = Some st ->
  pending st <= 10
  /\ inFlight st <= 10
  /\ (forall blocks,
        promiseAll (worksOf h pkg) st = Some (Some blocks) ->
        Forall (fun p => p = Settled) (phases st)
        /\ pending st = 0
        /\ (outputWritable h = true ->
            written (generateDependenciesList h)
            = Some (fullContent (generatedOn h) (length (allDependencies pkg))
                      (nonPermissiveCount (counters st)) blocks)))
  /\ (promiseAll (worksOf h pkg) st = Some None ->
        (exists i w, worksOf h pkg !! i = Some w
                     /\ phases st !! i = Some Settled /\ settled w = None)
        /\ written (generateDependenciesList h) = None).
Proof.
  intros Hm Hrun.
  assert (Hp : pending st <= concurrency).
  { eapply run_pending; [exact Hrun|]. rewrite pending_initial.
    unfold concurrency. lia. }
  destruct (run_consistent _ evs _ _ Hrun (consistent_initial _)) as [Hlen _].
  split; [exact Hp|]. split; [|split].
  - etransitivity; [apply inFlight_pending | exact Hp].
  - unfold promiseAll. intros blocks H.
    destruct (anyRejected (phases st) (worksOf h pkg)); [discriminate|].
    destruct (allSettled st) eqn:Hall; [|discriminate].
    injection H as Hblocks. split; [|split].
    + unfold allSettled in Hall. rewrite forallb_forall in Hall.
      apply List.Forall_forall. intros p Hin. specialize (Hall p Hin).
      destruct p; try discriminate. reflexivity.
    + apply allSettled_pending, Hall.
    + intros Hout. rewrite (run_counters _ evs st Hrun Hall).
      unfold generateDependenciesList, tryBody. rewrite Hm. cbv zeta.
      rewrite Hblocks, Hout. reflexivity.
  - unfold promiseAll. intros H.
    assert (Hrej : exists i w, worksOf h pkg !! i = Some w
                   /\ phases st !! i = Some Settled /\ settled w = None).
    { destruct (anyRejected (phases st) (worksOf h pkg)) eqn:Hany.
      - apply anyRejected_task, Hany.
      - destruct (allSettled st) eqn:Hall; [|discriminate].
        injection H as Hnone. exfalso.
        destruct (mapM _ (worksOf h pkg)) as [blocks|] eqn:E; [discriminate|].
        clear Hnone. revert E. apply not_eq_None_Some.
        apply mapM_is_Some. apply List.Forall_forall. intros w Hin.
        apply list_elem_of_In, list_elem_of_lookup in Hin as [i Hi].
        unfold compose, fmap, option_fmap, option_map.
        destruct (settled w) as [b|] eqn:Hs; [exists (fst b); reflexivity|].
        assert (Hph : phases st !! i = Some Settled).
        { assert (Hsome : is_Some (phases st !! i)).
          { apply lookup_lt_is_Some. rewrite Hlen.
            apply lookup_lt_is_Some. eauto. }
          destruct Hsome as [p Hp']. unfold allSettled in Hall.
          rewrite forallb_forall in Hall.
          assert (Hin' : In p (phases st)).
          { apply list_elem_of_In. eapply list_elem_of_lookup_2, Hp'. }
          specialize (Hall p Hin'). destruct p; try discriminate. exact Hp'. }
        rewrite (settled_rejected _ _ i w Hi Hph Hs) in Hany. discriminate. }
    split; [exact Hrej|]. destruct Hrej as (i & w & Hi & _ & Hs).
    unfold generateDependenciesList, tryBody. rewrite Hm. cbv zeta.
    rewrite (mapM_rejected _ i w Hi Hs). reflexivity.
Qed.

Lemma queue_bound_witness :
  exists st,
    run (worksOf twelveHost (packageOf twelveNames))
        (initialPool (worksOf twelveHost (packageOf twelveNames))) tenStarts
    = Some st
    /\ pending st <= 10
    /\ inFlight st <= 10
    /\ (forall blocks,
          promiseAll (worksOf twelveHost (packageOf twelveNames)) st
          = Some (Some blocks) ->
          Forall (fun p => p = Settled) (phases st)
          /\ pending st = 0
          /\ (outputWritable twelveHost = true ->
              written (generateDependenciesList twelveHost)
              = Some (fullContent (generatedOn twelveHost)
                        (length (allDependencies (packageOf twelveNames)))
                        (nonPermissiveCount (counters st)) blocks)))
    /\ (promiseAll (worksOf twelveHost (packageOf twelveNames)) st = Some None ->
          (exists i w, worksOf twelveHost (packageOf twelveNames) !! i = Some w
                       /\ phases st !! i = Some Settled /\ settled w = None)
          /\ written (generateDependenciesList twelveHost) = None).
Proof.
  eexists. split; [vm_compute; reflexivity|].
  apply (queue_bound twelveHost (packageOf twelveNames) tenStarts).
  - reflexivity.
  - vm_compute. reflexivity.
Defined.

(** One rejected task is enough for [Promise.all] to be rejected, while
    the answer for another task is still awaited. *)
Example rejected_at_once :
  let works := worksOf constructorHost
                 (packageOf ["left-pad"; "constructor"]%string) in
  match run works (initialPool works) [Start 0; Start 1; Release 0] with
  | Some st => Some (promiseAll works st, inFlight st)
  | None => None
  end = Some (Some None, 1).
Proof. vm_compute. reflexivity. Qed.

Local Close Scope nat_scope.

Local Open Scope N_scope.

(** * Further properties *)

(** ** What the Cache Reader hands out *)

Section UnitFacts.

Implicit Types (s t : jsstring) (c : N).

Lemma includes_unit_In c s : includes s [c] = true <-> List.In c s.
Proof.
  induction s as [|d s IH]; cbn [includes startsWith List.In].
  - rewrite orb_false_r. split; [discriminate | tauto].
  - rewrite orb_true_iff, andb_true_r, N.eqb_eq, IH. split.
    + intros [->|H]; [left; reflexivity | right; exact H].
    + intros [->|H]; [left; reflexivity | right; exact H].
Qed.

Lemma includes_unit_absent c s : includes s [c] = false <-> ~ List.In c s.
Proof. rewrite <- includes_unit_In. destruct (includes s [c]); split; congruence. Qed.

Lemma trimStart_suffix s : exists u, s = u ++ trimStart s.
Proof.
  induction s as [|d s [u IH]]; [exists []; reflexivity|]. cbn [trimStart].
  destruct (isWhiteSpace d); [|exists []; reflexivity].
  exists (d :: u). cbn. rewrite <- IH. reflexivity.
Qed.

Lemma In_trimStart c s : List.In c (trimStart s) -> List.In c s.
Proof.
  destruct (trimStart_suffix s) as [u E]. intros H. rewrite E.
  apply List.in_or_app. right. exact H.
Qed.

Lemma In_trim c s : List.In c (trim s) -> List.In c s.
Proof.
  unfold trim, trimEnd. intros H. apply List.in_rev in H.
  apply In_trimStart in H. apply List.in_rev in H. apply In_trimStart, H.
Qed.

Lemma trimStart_head s :
  match trimStart s with [] => True | d :: _ => isWhiteSpace d = false end.
Proof.
  induction s as [|d s IH]; cbn [trimStart]; [exact I|].
  destruct (isWhiteSpace d) eqn:E; [exact IH | exact E].
Qed.

(** [trim] leaves nothing to trim. *)
Lemma trim_is_trimmed s : trimmed (trim s) = true.
Proof.
  unfold trim, trimEnd. pose proof (trimStart_head s) as Hh.
  destruct (trimStart s) as [|d t]; [reflexivity|].
  destruct (trimStart_app_keep (rev t) d [] Hh) as [u Hu].
  cbn [rev]. rewrite Hu. pose proof (trimStart_head (rev t ++ [d])) as Hl.
  rewrite Hu in Hl. rewrite List.rev_app_distr. cbn [rev List.app].
  unfold trimmed. rewrite Hh. cbn [negb andb].
  change (d :: rev u) with ([d] ++ rev u).
  destruct u as [|x u].
  - cbn [rev List.app List.last]. rewrite Hh. reflexivity.
  - cbn [List.app] in Hl. cbn [rev]. rewrite List.app_assoc, List.last_last.
    rewrite Hl. reflexivity.
Qed.

Lemma trim_idempotent s : trim (trim s) = trim s.
Proof. apply trim_trimmed, trim_is_trimmed. Qed.

(** The pieces of a split hold no separator. *)
Lemma splitGo_unit_pieces c s : forall cur,
  ~ List.In c cur ->
  Forall (fun piece => ~ List.In c piece) (splitGo [c] 0 cur s).
Proof.
  induction s as [|d s IH]; intros cur Hcur; cbn [splitGo startsWith].
  - repeat constructor. exact Hcur.
  - rewrite andb_true_r. destruct (c =? d) eqn:E.
    + cbn [length Nat.sub]. constructor; [exact Hcur|].
      apply IH. intros [].
    + apply IH. intros H. apply List.in_app_or in H as [H|[H|[]]].
      * exact (Hcur H).
      * apply N.eqb_neq in E. congruence.
Qed.

Lemma split_unit_pieces c s :
  Forall (fun piece => ~ List.In c piece) (split s [c]).
Proof. apply splitGo_unit_pieces. intros []. Qed.

(** A second piece means that the separator is there. *)
Lemma split_second sep s piece :
  split s sep !! 1%nat = Some piece -> includes s sep = true.
Proof.
  intros H. destruct (includes s sep) eqn:E; [reflexivity|].
  rewrite (split_last sep s E) in H. discriminate.
Qed.

End UnitFacts.

(** The fields of an entry in terms of its lines. *)
Lemma parseEntry_inv dep c :
  parseEntry dep = Some c ->
  exists line0 line1 line2 line3 rest npmPart licensePart,
    List.filter nonBlank (split dep nl) = line0 :: line1 :: line2 :: line3 :: rest
    /\ split line2 (lit "(") !! 1%nat = Some npmPart
    /\ split line3 (lit "(") !! 1%nat = Some licensePart
    /\ name c = replaceFirst (trim line0) (glyph ++ lit " ") []
    /\ description c = trim line1
    /\ npmLink c = dropLast npmPart
    /\ licenseLink c = dropLast licensePart
    /\ isPermissive c = negb (includes line0 glyph)
    /\ (lastUpdated c = epochISO
        \/ exists line stamp,
             List.In line (line0 :: line1 :: line2 :: line3 :: rest)
             /\ split line (lit ":") !! 1%nat = Some stamp
             /\ lastUpdated c = removeStars (trim stamp)).
Proof.
  unfold parseEntry.
  destruct (List.filter nonBlank (split dep nl)) as [|l0 [|l1 [|l2 [|l3 rest]]]];
    try discriminate.
  - cbn [lookup list_lookup mbind option_bind].
    destruct (split l2 (lit "(") !! 1%nat); discriminate.
  - cbn [lookup list_lookup mbind option_bind].
    destruct (split l2 (lit "(") !! 1%nat) as [p2|] eqn:E2; [|discriminate].
    cbn [mbind option_bind].
    destruct (split l3 (lit "(") !! 1%nat) as [p3|] eqn:E3; [|discriminate].
    cbn [mbind option_bind].
    destruct (List.find _ _) as [line|] eqn:Ef.
    + destruct (split line (lit ":") !! 1%nat) as [stamp|] eqn:Es;
        [|discriminate].
      cbn [mbind option_bind]. intros H. injection H as <-.
      exists l0, l1, l2, l3, rest, p2, p3. cbn.
      split; [reflexivity|]. split; [exact E2|]. split; [exact E3|].
      repeat (split; [reflexivity|]). right. exists line, stamp.
      split; [|split; [exact Es | reflexivity]].
      apply List.find_some in Ef. tauto.
    + cbn [mbind option_bind]. intros H. injection H as <-.
      exists l0, l1, l2, l3, rest, p2, p3. cbn.
      split; [reflexivity|]. split; [exact E2|]. split; [exact E3|].
      repeat (split; [reflexivity|]). left. reflexivity.
Qed.

(** X1.  An entry is read only from at least four non-blank lines, the
    third and fourth of which hold an opening parenthesis. *)
Theorem entry_needs_link_lines (dep : jsstring) (c : CachedDependencyInfo) :
  parseEntry dep = Some c ->
  exists line0 line1 line2 line3 rest,
    List.filter nonBlank (split dep nl) = line0 :: line1 :: line2 :: line3 :: rest
    /\ includes line2 (lit "(") = true
    /\ includes line3 (lit "(") = true.
Proof.
  intros H.
  destruct (parseEntry_inv dep c H)
    as (l0 & l1 & l2 & l3 & rest & p2 & p3 & E & E2 & E3 & _).
  exists l0, l1, l2, l3, rest. split; [exact E|].
  split; eapply split_second; eassumption.
Qed.

Lemma entry_needs_link_lines_witness :
  exists line0 line1 line2 line3 rest,
    List.filter nonBlank (split (entryText leftPad ++ footer) nl)
    = line0 :: line1 :: line2 :: line3 :: rest
    /\ includes line2 (lit "(") = true
    /\ includes line3 (lit "(") = true.
Proof.
  apply (entry_needs_link_lines _ (readBack leftPad)).
  vm_compute. reflexivity.
Defined.

(** X2.  Whatever the entry, what is read from it has a description that
    is not empty and has no white space around it, and a time stamp
    without asterisk and, unless it is the default for an entry without
    cache line, without colon. *)
Theorem entry_fields_invariant (dep : jsstring) (c : CachedDependencyInfo) :
  parseEntry dep = Some c ->
  description c <> []
  /\ trim (description c) = description c
  /\ includes (lastUpdated c) (lit "*") = false
  /\ (lastUpdated c = epochISO \/ includes (lastUpdated c) (lit ":") = false).
Proof.
  intros H.
  destruct (parseEntry_inv dep c H)
    as (l0 & l1 & l2 & l3 & rest & p2 & p3 & E & _ & _ & _ & Hd & _ & _ & _ & Hu).
  assert (Hb : nonBlank l1 = true).
  { assert (Hin : List.In l1 (List.filter nonBlank (split dep nl))).
    { rewrite E. right. left. reflexivity. }
    apply List.filter_In in Hin. tauto. }
  rewrite Hd. split; [|split; [apply trim_idempotent|]].
  - unfold nonBlank in Hb. destruct (trim l1); [discriminate | congruence].
  - change (lit "*") with [42]. change (lit ":") with [58].
    destruct Hu as [->|(line & stamp & _ & Es & ->)].
    + split; [reflexivity | left; reflexivity].
    + split; [|right]; apply includes_unit_absent; unfold removeStars;
        intros Hin; apply List.filter_In in Hin as [Hin Hne].
      * rewrite N.eqb_refl in Hne. discriminate.
      * apply In_trim in Hin.
        pose proof (split_unit_pieces 58 line) as Hp.
        change (lit ":") with [58] in Es.
        apply list_elem_of_lookup_2, list_elem_of_In in Es.
        rewrite List.Forall_forall in Hp. exact (Hp stamp Es Hin).
Qed.

Lemma entry_fields_invariant_witness :
  description (readBack leftPad) <> []
  /\ trim (description (readBack leftPad)) = description (readBack leftPad)
  /\ includes (lastUpdated (readBack leftPad)) (lit "*") = false
  /\ (lastUpdated (readBack leftPad) = epochISO
      \/ includes (lastUpdated (readBack leftPad)) (lit ":") = false).
Proof.
  apply (entry_fields_invariant (entryText leftPad ++ footer)).
  vm_compute. reflexivity.
Defined.

(** X3.  A file in which the marker does not occur, the empty file among
    them, is read as an empty cache, without error. *)
Theorem unmarked_file_empty_cache (content : jsstring) :
  includes content marker = false ->
  readCachedDependencies (Some content) = (emptyObject, []).
Proof.
  intros H. unfold readCachedDependencies, entriesOf.
  change (lit "### ") with marker.
  rewrite (split_last marker content H). reflexivity.
Qed.

Lemma unmarked_file_empty_cache_witness :
  readCachedDependencies (Some (lit "# Notes")) = (emptyObject, []).
Proof. apply unmarked_file_empty_cache. reflexivity. Defined.

(** ** Lookups in the cache *)

Lemma cacheOf_app a b obj : cacheOf (a ++ b) obj = cacheOf b (cacheOf a obj).
Proof. apply fold_left_app. Qed.

Lemma protoFree_cacheOf entries : forall obj,
  protoFree obj -> protoFree (cacheOf entries obj).
Proof.
  induction entries as [|e entries IH]; intros obj H; [exact H|].
  cbn [cacheOf fold_left]. apply IH, protoFree_assign, H.
Qed.

(** The loop of the reader is the fold of the assignments. *)
Lemma readEntries_cacheOf texts : forall entries obj,
  mapM parseEntry texts = Some entries ->
  readEntries obj texts = Some (cacheOf entries obj).
Proof.
  induction texts as [|t texts IH]; intros entries obj H.
  - apply mapM_Some in H. inversion H. reflexivity.
  - apply mapM_Some in H. inversion H as [|? e ? es He Hes]; subst.
    apply mapM_Some in Hes. cbn [readEntries]. rewrite He.
    apply (IH es), Hes.
Qed.

Lemma readCached_cacheOf content entries :
  mapM parseEntry (entriesOf content) = Some entries ->
  readCachedDependencies (Some content) = (cacheOf entries emptyObject, []).
Proof.
  intros H. unfold readCachedDependencies.
  rewrite (readEntries_cacheOf _ entries emptyObject H). reflexivity.
Qed.

Lemma getProperty_assign_elsewhere obj k k' r :
  k <> k' -> k' <> protoKey ->
  getProperty (assign obj k' r) k = getProperty obj k.
Proof.
  intros Hne Hp. unfold assign, getProperty.
  destruct (decide (k' = protoKey)); [congruence|]. cbn [own proto].
  rewrite lookup_insert_ne by congruence. reflexivity.
Qed.

Lemma cacheOf_elsewhere entries : forall obj k,
  k ∉ List.map name entries -> protoKey ∉ List.map name entries ->
  getProperty (cacheOf entries obj) k = getProperty obj k.
Proof.
  induction entries as [|e entries IH]; intros obj k Hk Hp; [reflexivity|].
  cbn [cacheOf fold_left List.map] in *.
  apply not_elem_of_cons in Hk as [Hk1 Hk]. apply not_elem_of_cons in Hp as [Hp1 Hp].
  rewrite (IH _ k Hk Hp). apply getProperty_assign_elsewhere; congruence.
Qed.

Lemma emptyObject_lookup k :
  getProperty emptyObject k
  = if decide (k ∈ protoKey :: objectPrototypeKeys)
    then Foreign true else Undefined.
Proof.
  unfold getProperty, emptyObject, inherited. cbn [own proto].
  rewrite lookup_empty.
  destruct (decide (k = protoKey)) as [->|Hk].
  - destruct (decide _) as [|Hn]; [reflexivity|].
    destruct Hn. left.
  - destruct (decide (k ∈ objectPrototypeKeys)) as [Hin|Hout];
      destruct (decide (k ∈ protoKey :: objectPrototypeKeys)) as [Hin'|Hout'];
      try reflexivity.
    + destruct Hout'. right. exact Hin.
    + apply elem_of_cons in Hin' as [?|?]; congruence.
Qed.

(** X4.  When a report names a dependency in several blocks, the cache
    holds what was read from the last of them. *)
Theorem last_block_wins
    (content : jsstring) (before after : list CachedDependencyInfo)
    (e : CachedDependencyInfo) :
  mapM parseEntry (entriesOf content) = Some (before ++ e :: after) ->
  name e ∉ List.map name after ->
  getProperty (fst (readCachedDependencies (Some content))) (name e) = Entry e.
Proof.
  intros Hread Hlast. rewrite (readCached_cacheOf _ _ Hread). cbn [fst].
  rewrite cacheOf_app. cbn [cacheOf fold_left].
  apply cacheOf_keeps; [exact Hlast|].
  apply getProperty_assign, protoFree_cacheOf, protoFree_empty.
Qed.

(** X5.  A name of which the report has no block, in a report without a
    block named [__proto__], is looked up as in the empty object:
    undefined, unless it is one of the names every object inherits, for
    which the lookup gives something that is no entry. *)
Theorem missing_name_lookup
    (content : jsstring) (entries : list CachedDependencyInfo) (k : jsstring) :
  mapM parseEntry (entriesOf content) = Some entries ->
  k ∉ List.map name entries ->
  protoKey ∉ List.map name entries ->
  getProperty (fst (readCachedDependencies (Some content))) k
  = if decide (k ∈ protoKey :: objectPrototypeKeys)
    then Foreign true else Undefined.
Proof.
  intros Hread Hk Hp. rewrite (readCached_cacheOf _ _ Hread). cbn [fst].
  rewrite (cacheOf_elsewhere _ _ _ Hk Hp). apply emptyObject_lookup.
Qed.

Lemma last_block_wins_witness :
  readBack leftPad <> readBack leftPadRenewed
  /\ getProperty (fst (readCachedDependencies (Some leftPadTwice)))
                 (name leftPadRenewed)
     = Entry (readBack leftPadRenewed).
Proof.
  split; [vm_compute; discriminate|].
  apply (last_block_wins leftPadTwice [readBack leftPad] []
                         (readBack leftPadRenewed)).
  - vm_compute. reflexivity.
  - apply not_elem_of_nil.
Defined.

Lemma missing_name_lookup_witness :
  getProperty (fst (readCachedDependencies (Some twiceLeftPad))) (lit "toString")
  = if decide (lit "toString" ∈ protoKey :: objectPrototypeKeys)
    then Foreign true else Undefined.
Proof.
  apply (missing_name_lookup twiceLeftPad [readBack leftPad; readBack leftPadLater]).
  - vm_compute. reflexivity.
  - apply (bool_decide_unpack _). vm_compute. exact I.
  - apply (bool_decide_unpack _). vm_compute. exact I.
Defined.

Local Close Scope N_scope.

Local Open Scope nat_scope.

(** ** When a report is written *)

Lemma parseDate_log h s : FatalError ∉ snd (parseDate h s).
Proof.
  unfold parseDate.
  destruct (dateParse h s); [apply not_elem_of_nil|].
  destruct (fromSpecificFormat h s); [apply not_elem_of_nil|].
  destruct (tryFormats h formats s); [apply not_elem_of_nil|].
  cbn. intros H. apply list_elem_of_singleton in H. discriminate.
Qed.

Lemma fetch_log h dep : FatalError ∉ fetchLog (fetchPackageInfo h dep).
Proof.
  assert (Hone : FatalError ∉ [FetchError dep]).
  { intros H. apply list_elem_of_singleton in H. discriminate. }
  unfold fetchPackageInfo. destruct (encodeURIComponent dep); [|exact Hone].
  destruct (registry h dep) as [|status [|data]]; try exact Hone.
  destruct (responseOk status); [apply not_elem_of_nil | exact Hone].
Qed.

Lemma work_log h cache dep : FatalError ∉ workLog (unitOfWork h cache dep).
Proof.
  assert (Hfresh : forall log, FatalError ∉ log ->
            FatalError ∉ workLog (freshWork h dep log)).
  { intros log Hlog. unfold freshWork. cbn [workLog].
    rewrite elem_of_app. intros [H|H]; [exact (Hlog H)|].
    exact (fetch_log h dep H). }
  unfold unitOfWork. destruct (getProperty cache dep) as [|c|[]].
  - apply Hfresh, not_elem_of_nil.
  - destruct (isCacheValid h c); [apply parseDate_log|].
    apply Hfresh, parseDate_log.
  - apply not_elem_of_nil.
  - apply Hfresh, not_elem_of_nil.
Qed.

Lemma works_log h cache deps :
  FatalError ∉ concat (List.map (fun dep => workLog (unitOfWork h cache dep)) deps).
Proof.
  induction deps as [|dep deps IH]; cbn; [apply not_elem_of_nil|].
  rewrite elem_of_app. intros [H|H]; [exact (work_log _ _ _ H) | exact (IH H)].
Qed.

Lemma cache_log file : FatalError ∉ snd (readCachedDependencies file).
Proof.
  assert (Hone : FatalError ∉ [CacheReadError]).
  { intros H. apply list_elem_of_singleton in H. discriminate. }
  unfold readCachedDependencies. destruct file as [content|]; [|exact Hone].
  destruct (readEntries _ _); [apply not_elem_of_nil | exact Hone].
Qed.

Lemma tryBody_log h : FatalError ∉ snd (tryBody h).
Proof.
  unfold tryBody. destruct (manifest h) as [| |pkg]; try apply not_elem_of_nil.
  assert (Hlog : FatalError ∉ snd (readCachedDependencies (previousReport h)) ++
                              concat (List.map workLog (worksOf h pkg))).
  { rewrite elem_of_app. intros [H|H]; [exact (cache_log _ H)|].
    unfold worksOf in H. rewrite List.map_map in H. exact (works_log _ _ _ H). }
  destruct (mapM _ _); [|exact Hlog].
  destruct (outputWritable h); [|exact Hlog]. cbn [snd].
  rewrite elem_of_app. intros [H|H]; [exact (Hlog H)|].
  destruct (nonPermissiveCount _); [inversion H|].
  apply list_elem_of_singleton in H. discriminate.
Qed.

Lemma written_when (h : Host) :
  is_Some (written (generateDependenciesList h)) <->
  exists pkg,
    manifest h = ManifestParsed pkg
    /\ outputWritable h = true
    /\ Forall (fun dep => is_Some (settled (unitOfWork h (cacheFor h) dep)))
              (allDependencies pkg).
Proof.
  split.
  - intros [doc Hdoc].
    destruct (report_structure h doc Hdoc) as (pkg & results & Hm & F & _).
    exists pkg. split; [exact Hm|]. split.
    + revert Hdoc. unfold generateDependenciesList, tryBody. rewrite Hm.
      destruct (mapM _ _); [|discriminate].
      destruct (outputWritable h); [reflexivity | discriminate].
    + rewrite <- (sort_perm (allDependencies pkg)).
      apply List.Forall_forall. intros dep Hin.
      apply list_elem_of_In, list_elem_of_lookup in Hin as [i Hi].
      destruct (Forall2_lookup_l _ _ _ _ _ F Hi) as (x & _ & Hx).
      rewrite Hx. eauto.
  - intros (pkg & Hm & Hw & Hall). exact (report_written h pkg Hm Hw Hall).
Qed.

Lemma fatal_when (h : Host) :
  FatalError ∈ stderr (generateDependenciesList h) <->
  written (generateDependenciesList h) = None.
Proof.
  pose proof (tryBody_log h) as Hlog. unfold generateDependenciesList.
  destruct (tryBody h) as [[content|] log]; cbn [written stderr snd] in *.
  - split; [intros H; destruct (Hlog H) | discriminate].
  - split; [reflexivity|]. intros _. apply elem_of_app. right. constructor.
Qed.

(** X6.  The report is written exactly when the manifest parses, the output
    file can be written and the task of every dependency resolves; and
    the handler's error line is logged exactly when no report is
    written. *)
Theorem report_written_exactly (h : Host) :
  (is_Some (written (generateDependenciesList h)) <->
   exists pkg,
     manifest h = ManifestParsed pkg
     /\ outputWritable h = true
     /\ Forall (fun dep => is_Some (settled (unitOfWork h (cacheFor h) dep)))
               (allDependencies pkg))
  /\ (FatalError ∈ stderr (generateDependenciesList h) <->
      written (generateDependenciesList h) = None).
Proof. split; [apply written_when | apply fatal_when]. Qed.

(** X7.  In a run that starts from an empty cache (no previous report, or
    one that could not be read) a dependency named like a property every
    object inherits makes the run end without report. *)
Theorem inherited_dependency_aborts (h : Host) (pkg : PackageJson) (dep : jsstring) :
  manifest h = ManifestParsed pkg ->
  cacheFor h = emptyObject ->
  dep ∈ allDependencies pkg ->
  dep ∈ protoKey :: objectPrototypeKeys ->
  requests (unitOfWork h (cacheFor h) dep) = 0
  /\ written (generateDependenciesList h) = None
  /\ FatalError ∈ stderr (generateDependenciesList h).
Proof.
  intros Hm Hc Hdep Hin.
  assert (Hw : unitOfWork h (cacheFor h) dep = thrownWork).
  { unfold unitOfWork. rewrite Hc, emptyObject_lookup.
    destruct (decide _); [reflexivity | contradiction]. }
  split; [rewrite Hw; reflexivity|].
  assert (Hnone : written (generateDependenciesList h) = None).
  { destruct (written (generateDependenciesList h)) as [doc|] eqn:E;
      [|reflexivity].
    destruct (proj1 (written_when h) (ex_intro _ doc E))
      as (pkg' & Hm' & _ & Hall).
    rewrite Hm in Hm'. injection Hm' as <-.
    rewrite List.Forall_forall in Hall.
    specialize (Hall dep (proj1 (list_elem_of_In _ _) Hdep)).
    rewrite Hw in Hall. destruct Hall as [x Hx]. discriminate. }
  split; [exact Hnone|]. apply fatal_when, Hnone.
Qed.

Lemma inherited_dependency_aborts_witness :
  requests (unitOfWork constructorHost (cacheFor constructorHost)
                       (lit "constructor")) = 0
  /\ written (generateDependenciesList constructorHost) = None
  /\ FatalError ∈ stderr (generateDependenciesList constructorHost).
Proof.
  apply (inherited_dependency_aborts constructorHost
           (packageOf ["left-pad"; "constructor"]%string)).
  - reflexivity.
  - reflexivity.
  - apply (bool_decide_unpack _). vm_compute. exact I.
  - apply (bool_decide_unpack _). vm_compute. exact I.
Defined.

Local Close Scope nat_scope.

Local Open Scope N_scope.

(** ** From one run to the next *)

Lemma results_records h cache (names : list jsstring) results :
  Forall2 (fun dep x => settled (unitOfWork h cache dep) = Some x) names results ->
  exists records,
    List.map name records = names
    /\ List.map formatRecord records = List.map fst results
    /\ length (unmarked records) = length (marked results)
    /\ length records = length results.
Proof.
  induction 1 as [|dep [block flag] names results Hs F (records & Hn & Hb & Hm & Hl)].
  - exists []. repeat split.
  - destruct (unitOfWork_block _ _ _ _ _ Hs) as (npm & lic & text & stamp & ->).
    exists ({| name := dep; npmLink := npm; licenseLink := lic;
               description := text; isPermissive := flag;
               lastUpdated := stamp |} :: records).
    cbn [List.map]. rewrite Hn, Hb. split; [reflexivity|].
    split; [reflexivity|]. unfold unmarked, marked in *.
    cbn [List.filter isPermissive snd]. destruct flag; cbn [negb length]; lia.
Qed.

(** X8.  The report a run writes is a report of one record for each sorted
    name; and when these records are well-formed the next run reads each
    of them back from it, without error. *)
Theorem written_report_read_back (h : Host) (doc : jsstring) :
  written (generateDependenciesList h) = Some doc ->
  exists pkg records,
    manifest h = ManifestParsed pkg
    /\ List.map name records = sort (allDependencies pkg)
    /\ doc = reportOf (generatedOn h) (length records)
                      (length (unmarked records)) records
    /\ (includes (generatedOn h) marker = false ->
        Forall (fun r => wellFormed r = true) records ->
        exists cache,
          readCachedDependencies (Some doc) = (cache, [])
          /\ forall r, r ∈ records ->
               getProperty cache (name r) = Entry (readBack r)).
Proof.
  intros Hw.
  destruct (report_structure h doc Hw) as (pkg & results & Hm & F & Hdoc & _).
  destruct (results_records _ _ _ _ F) as (records & Hn & Hb & Hu & Hl).
  exists pkg, records. split; [exact Hm|]. split; [exact Hn|].
  assert (E : doc = reportOf (generatedOn h) (length records)
                      (length (unmarked records)) records).
  { rewrite Hdoc. unfold reportOf. rewrite Hb, Hu, Hl. reflexivity. }
  split; [exact E|]. intros Hg Hwf. rewrite E.
  apply report_read_back; [exact Hg | exact Hwf|].
  rewrite Hn, sort_perm. apply allDependencies_spec.
Qed.

Lemma written_report_read_back_witness :
  exists pkg records,
    manifest specHost = ManifestParsed pkg
    /\ List.map name records = sort (allDependencies pkg)
    /\ specReport = reportOf (generatedOn specHost) (length records)
                      (length (unmarked records)) records
    /\ (includes (generatedOn specHost) marker = false ->
        Forall (fun r => wellFormed r = true) records ->
        exists cache,
          readCachedDependencies (Some specReport) = (cache, [])
          /\ forall r, r ∈ records ->
               getProperty cache (name r) = Entry (readBack r)).
Proof. apply (written_report_read_back specHost). vm_compute. reflexivity. Defined.

(** ** Time stamps through the cache *)

Lemma In_beforeColon c s : List.In c (beforeColon s) -> List.In c s.
Proof.
  induction s as [|d s IH]; cbn [beforeColon]; [tauto|].
  destruct (d =? 58); [intros []|]. intros [->|H]; [left; reflexivity|].
  right. exact (IH H).
Qed.

Lemma beforeColon_all s : ~ List.In 58 s -> beforeColon s = s.
Proof.
  induction s as [|d s IH]; intros H; cbn [beforeColon]; [reflexivity|].
  destruct (N.eqb_spec d 58) as [->|_]; [destruct H; left; reflexivity|].
  rewrite IH; [reflexivity|]. intros Hin. apply H. right. exact Hin.
Qed.

Lemma removeStars_none s : ~ List.In 42 s -> removeStars s = s.
Proof.
  unfold removeStars. induction s as [|d s IH]; intros H; [reflexivity|].
  cbn [List.filter].
  destruct (N.eqb_spec d 42) as [->|_]; [destruct H; left; reflexivity|].
  cbn [negb]. rewrite IH; [reflexivity|]. intros Hin. apply H. right. exact Hin.
Qed.

Lemma In_readStamp c s : List.In c (readStamp s) -> c = 32 \/ List.In c s.
Proof.
  unfold readStamp, removeStars. intros H.
  apply List.filter_In in H as [H Hne]. apply In_trim in H.
  change (lit "* " ++ beforeColon s) with (42 :: 32 :: beforeColon s) in H.
  destruct H as [<-|[<-|H]].
  - discriminate.
  - left. reflexivity.
  - right. apply In_beforeColon, H.
Qed.

Lemma no_hash_no_marker s : ~ List.In 35 s -> includes s marker = false.
Proof.
  intros H. destruct (includes s marker) eqn:E; [|reflexivity].
  apply includes_spec in E as (a & b & ->). destruct H.
  apply List.in_or_app. right. left. reflexivity.
Qed.

(** One pass through the cache puts a space before a time stamp that has
    neither colon nor asterisk and does not end in white space. *)
Lemma readStamp_space s :
  s <> [] -> ~ List.In 58 s -> ~ List.In 42 s ->
  isWhiteSpace (List.last s 0) = false ->
  readStamp s = 32 :: s.
Proof.
  intros Hne Hc Hs Hl. unfold readStamp. rewrite (beforeColon_all s Hc).
  assert (Ht : trimmed (lit "* " ++ s) = true).
  { destruct s as [|d s]; [congruence|].
    change (lit "* " ++ d :: s) with (42 :: 32 :: d :: s). unfold trimmed.
    change (List.last (42 :: 32 :: d :: s) 0) with (List.last (d :: s) 0).
    rewrite Hl. reflexivity. }
  rewrite (trim_trimmed _ Ht).
  change (lit "* " ++ s) with (42 :: 32 :: s). unfold removeStars.
  cbn [List.filter N.eqb Pos.eqb negb].
  fold (removeStars s). rewrite (removeStars_none s Hs). reflexivity.
Qed.

Lemma afterPasses_shape (stamp : jsstring) :
  stamp <> [] -> ~ List.In 58 stamp -> ~ List.In 42 stamp ->
  isWhiteSpace (List.last stamp 0) = false ->
  forall k,
    afterPasses k stamp = replicate k 32 ++ stamp
    /\ afterPasses k stamp <> []
    /\ ~ List.In 58 (afterPasses k stamp)
    /\ ~ List.In 42 (afterPasses k stamp)
    /\ isWhiteSpace (List.last (afterPasses k stamp) 0) = false.
Proof.
  intros Hne Hc Hs Hl. induction k as [|k (E & H1 & H2 & H3 & H4)].
  - cbn. repeat split; assumption.
  - change (afterPasses (S k) stamp) with (readStamp (afterPasses k stamp)).
    rewrite (readStamp_space _ H1 H2 H3 H4).
    split; [rewrite E; reflexivity|]. split; [discriminate|].
    split; [|split].
    + intros [H|H]; [discriminate | exact (H2 H)].
    + intros [H|H]; [discriminate | exact (H3 H)].
    + destruct (afterPasses k stamp) as [|d t] eqn:Ek; [congruence|].
      change (32 :: d :: t) with ([32] ++ d :: t).
      rewrite last_behind. exact H4.
Qed.

(** X9.  A time stamp without colon or asterisk that does not end in white
    space gains one leading space with every run that serves its record
    from the cache, and never settles. *)
Theorem stamp_gains_space (passes : nat) (stamp : jsstring) :
  stamp <> [] ->
  includes stamp (lit ":") = false ->
  includes stamp (lit "*") = false ->
  isWhiteSpace (List.last stamp 0) = false ->
  afterPasses passes stamp = replicate passes 32 ++ stamp
  /\ readStamp (afterPasses passes stamp) <> afterPasses passes stamp.
Proof.
  change (lit ":") with [58]. change (lit "*") with [42].
  rewrite !includes_unit_absent. intros Hne Hc Hs Hl.
  destruct (afterPasses_shape stamp Hne Hc Hs Hl passes) as (E & H1 & H2 & H3 & H4).
  split; [exact E|]. rewrite (readStamp_space _ H1 H2 H3 H4).
  intros H. apply (f_equal (@length N)) in H. cbn in H. lia.
Qed.

Lemma stamp_gains_space_witness :
  afterPasses 3 (lit "20. 11. 2024 0") = lastUpdated nodeFetch
  /\ readStamp (afterPasses 3 (lit "20. 11. 2024 0"))
     <> afterPasses 3 (lit "20. 11. 2024 0").
Proof.
  apply (stamp_gains_space 3 (lit "20. 11. 2024 0")).
  - discriminate.
  - reflexivity.
  - reflexivity.
  - reflexivity.
Defined.

Lemma wellFormed_intro r :
  includes (name r) nl = false -> includes (name r) marker = false ->
  name r <> [] -> trimmed (name r) = true ->
  (isPermissive r = true ->
   includes (name r) glyph = false /\ startsWith (name r) cacheLine = false) ->
  includes (description r) nl = false ->
  includes (description r) marker = false ->
  trimmed (description r) = true ->
  startsWith (description r) cacheLine = false ->
  includes (npmLink r) nl = false -> includes (npmLink r) marker = false ->
  includes (npmLink r) (lit "(") = false ->
  includes (licenseLink r) nl = false ->
  includes (licenseLink r) marker = false ->
  includes (licenseLink r) (lit "(") = false ->
  includes (lastUpdated r) nl = false ->
  includes (lastUpdated r) marker = false ->
  wellFormed r = true.
Proof.
  intros A1 A2 A3 A4 A5 D1 D2 D3 D4 N1 N2 N3 L1 L2 L3 U1 U2.
  unfold wellFormed, plain.
  rewrite A1, A2, A4, D1, D2, D3, D4, N1, N2, N3, L1, L2, L3, U1, U2.
  destruct (name r) as [|c n]; [congruence|]. cbn [truthy negb andb].
  destruct (isPermissive r); [|reflexivity].
  destruct (A5 eq_refl) as [-> ->]. reflexivity.
Qed.

(** X10.  What the Cache Reader makes of a well-formed record whose time
    stamp has no [#] is again such a record, so that a report stays
    readable from one cached run to the next. *)
Theorem read_back_stays_well_formed (r : CachedDependencyInfo) :
  wellFormed r = true ->
  includes (lastUpdated r) (lit "#") = false ->
  wellFormed (readBack r) = true
  /\ includes (lastUpdated (readBack r)) (lit "#") = false.
Proof.
  change (lit "#") with [35]. intros Hwf Hh.
  destruct (wellFormed_fields r Hwf) as
    ((A1 & A2 & A3 & A4 & A5) & _ & (N1 & N2 & N3) & (L1 & L2 & L3) & (U1 & U2)).
  destruct (shown_fields r Hwf) as (D1 & D2 & D3 & D4 & _).
  assert (Hn : ~ List.In 35 (readStamp (lastUpdated r))).
  { intros H. apply In_readStamp in H as [H|H]; [discriminate|].
    apply includes_unit_absent in Hh. exact (Hh H). }
  split; [|apply includes_unit_absent, Hn].
  apply wellFormed_intro; cbn [readBack name npmLink licenseLink description
    isPermissive lastUpdated]; try assumption.
  - change nl with [10]. apply includes_unit_absent. intros H.
    apply In_readStamp in H as [H|H]; [discriminate|].
    change nl with [10] in U1. apply includes_unit_absent in U1. exact (U1 H).
  - apply no_hash_no_marker, Hn.
Qed.

Lemma read_back_stays_well_formed_witness :
  wellFormed (readBack copyleftLib) = true
  /\ includes (lastUpdated (readBack copyleftLib)) (lit "#") = false.
Proof. apply read_back_stays_well_formed; reflexivity. Defined.

(** ** The pattern of [parseDate] *)

Section PatternFacts.

Variable cls : N -> bool.
Variable re : list ReItem.

Lemma matchHere_char c s :
  matchHere (ReChar c :: re) (c :: s) = matchHere re s.
Proof. cbn [matchHere]. rewrite N.eqb_refl. reflexivity. Qed.

(** A greedy star that can take a whole run and go on, does. *)
Lemma matchHere_star run rest groups :
  Forall (fun c => cls c = true) run ->
  startsIn cls rest = false ->
  matchHere re rest = Some groups ->
  matchHere (ReStar cls :: re) (run ++ rest) = Some groups.
Proof.
  intros Hrun Hrest Hgo. induction Hrun as [|d run Hd _ IH].
  - cbn [List.app]. destruct rest as [|e rest]; cbn [matchHere].
    + exact Hgo.
    + cbn [startsIn] in Hrest. rewrite Hrest. exact Hgo.
  - change ((d :: run) ++ rest) with (d :: (run ++ rest)).
    cbn [matchHere]. rewrite Hd.
    cbn [matchHere] in IH. rewrite IH. reflexivity.
Qed.

Lemma plus_loop run : forall acc rest groups,
  Forall (fun c => cls c = true) run ->
  startsIn cls rest = false ->
  matchHere re rest = Some groups ->
  (fix plus (acc s : jsstring) {struct s} : option (list jsstring) :=
     match s with
     | e :: s'' =>
         if cls e then
           match plus (acc ++ [e]) s'' with
           | Some groups => Some groups
           | None => andThen acc (matchHere re s)
           end
         else andThen acc (matchHere re s)
     | [] => andThen acc (matchHere re s)
     end) acc (run ++ rest) = Some ((acc ++ run) :: groups).
Proof.
  induction run as [|d run IH]; intros acc rest groups Hrun Hrest Hgo.
  - cbn [List.app]. rewrite List.app_nil_r.
    destruct rest as [|e rest].
    + rewrite Hgo. reflexivity.
    + cbn [startsIn] in Hrest. rewrite Hrest, Hgo. reflexivity.
  - apply Forall_cons in Hrun as [Hd Hrun].
    change ((d :: run) ++ rest) with (d :: (run ++ rest)).
    cbn -[matchHere andThen List.app]. rewrite Hd. rewrite (IH (acc ++ [d]) rest groups Hrun Hrest Hgo).
    rewrite <- List.app_assoc. reflexivity.
Qed.

(** A greedy group that can take a whole run and go on, does. *)
Lemma matchHere_group run rest groups :
  run <> [] ->
  Forall (fun c => cls c = true) run ->
  startsIn cls rest = false ->
  matchHere re rest = Some groups ->
  matchHere (ReGroupPlus cls :: re) (run ++ rest) = Some (run :: groups).
Proof.
  intros Hne Hrun Hrest Hgo. destruct run as [|d run]; [congruence|].
  apply Forall_cons in Hrun as [Hd Hrun].
  change ((d :: run) ++ rest) with (d :: (run ++ rest)).
  cbn [matchHere]. rewrite Hd.
  exact (plus_loop run [d] rest groups Hrun Hrest Hgo).
Qed.

Lemma matchHere_group_fails c s :
  cls c = false -> matchHere (ReGroupPlus cls :: re) (c :: s) = None.
Proof. intros H. cbn [matchHere]. rewrite H. reflexivity. Qed.

End PatternFacts.

Lemma digit_not_space c : isDigit c = true -> isWhiteSpace c = false.
Proof.
  unfold isDigit, isWhiteSpace. rewrite andb_true_iff, !N.leb_le. intros [H1 H2].
  repeat (apply orb_false_intro); try (apply N.eqb_neq; lia).
  apply andb_false_intro1, N.leb_gt. lia.
Qed.

Lemma space_not_digit c : isWhiteSpace c = true -> isDigit c = false.
Proof.
  intros H. destruct (isDigit c) eqn:E; [|reflexivity].
  rewrite (digit_not_space c E) in H. discriminate.
Qed.

Lemma startsIn_app cls (run rest : jsstring) c :
  run <> [] -> Forall (fun x => c x = true) run ->
  (forall x, c x = true -> cls x = false) ->
  startsIn cls (run ++ rest) = false.
Proof.
  intros Hne Hrun Hx. destruct run as [|d run]; [congruence|].
  apply Forall_cons in Hrun as [Hd _]. cbn. apply Hx, Hd.
Qed.

(** The search starts no match on something else than a digit. *)
Lemma reSearch_skip (prefix s : jsstring) :
  Forall (fun c => isDigit c = false) prefix ->
  reSearch specificFormat (prefix ++ s) = reSearch specificFormat s.
Proof.
  induction 1 as [|c prefix Hc _ IH]; [reflexivity|].
  change ((c :: prefix) ++ s) with (c :: (prefix ++ s)).
  cbn [reSearch]. unfold specificFormat at 1.
  rewrite (matchHere_group_fails isDigit _ c _ Hc). exact IH.
Qed.

(** X11.  In a text that holds, after anything without digits, a day and
    a month, each with its full stop and any white space, a year, white
    space and an hour, as in "31. 8. 2024 15", the pattern of
    [parseDate] reads these four numbers. *)
Theorem pattern_reads_stamp
    (prefix day sep1 month sep2 year sep3 hour rest : jsstring) :
  Forall (fun c => isDigit c = false) prefix ->
  day <> [] -> Forall (fun c => isDigit c = true) day ->
  Forall (fun c => isWhiteSpace c = true) sep1 ->
  month <> [] -> Forall (fun c => isDigit c = true) month ->
  Forall (fun c => isWhiteSpace c = true) sep2 ->
  year <> [] -> Forall (fun c => isDigit c = true) year ->
  sep3 <> [] -> Forall (fun c => isWhiteSpace c = true) sep3 ->
  hour <> [] -> Forall (fun c => isDigit c = true) hour ->
  startsIn isDigit rest = false ->
  reSearch specificFormat
    (prefix ++ day ++ lit "." ++ sep1 ++ month ++ lit "." ++ sep2 ++
     year ++ sep3 ++ hour ++ rest)
  = Some [day; month; year; hour].
Proof.
  intros Hp Hd1 Hd2 Hs1 Hm1 Hm2 Hs2 Hy1 Hy2 Hs31 Hs32 Hh1 Hh2 Hrest.
  rewrite (reSearch_skip _ _ Hp).
  assert (Hmatch : matchHere specificFormat
            (day ++ lit "." ++ sep1 ++ month ++ lit "." ++ sep2 ++
             year ++ sep3 ++ hour ++ rest) = Some [day; month; year; hour]).
  { unfold specificFormat. change (lit ".") with [46].
    apply matchHere_group; [exact Hd1 | exact Hd2 | reflexivity|].
    change ([46] ++ ?x) with (46 :: x). rewrite matchHere_char.
    apply matchHere_star;
      [exact Hs1 | apply (startsIn_app _ _ _ isDigit Hm1 Hm2 digit_not_space)|].
    apply matchHere_group; [exact Hm1 | exact Hm2 | reflexivity|].
    change ([46] ++ ?x) with (46 :: x). rewrite matchHere_char.
    apply matchHere_star;
      [exact Hs2 | apply (startsIn_app _ _ _ isDigit Hy1 Hy2 digit_not_space)|].
    apply matchHere_group;
      [exact Hy1 | exact Hy2
       | apply (startsIn_app _ _ _ isWhiteSpace Hs31 Hs32 space_not_digit)|].
    apply matchHere_star;
      [exact Hs32 | apply (startsIn_app _ _ _ isDigit Hh1 Hh2 digit_not_space)|].
    apply matchHere_group; [exact Hh1 | exact Hh2 | exact Hrest|].
    reflexivity. }
  destruct (day ++ _) as [|c s] eqn:E; cbn [reSearch]; rewrite Hmatch;
    reflexivity.
Qed.

Lemma pattern_reads_stamp_witness :
  reSearch specificFormat
    (lit "   " ++ lit "31" ++ lit "." ++ lit " " ++ lit "8" ++ lit "." ++
     lit " " ++ lit "2024" ++ lit " " ++ lit "15" ++ lit ":04:05")
  = Some [lit "31"; lit "8"; lit "2024"; lit "15"].
Proof.
  apply pattern_reads_stamp; try discriminate; try reflexivity;
    repeat constructor.
Defined.

Section Backtracking.

Variable cls : N -> bool.
Variable re : list ReItem.

Lemma plus_loop_back run : forall acc z groups,
  Forall (fun c => cls c = true) run ->
  cls z = true ->
  matchHere re [] = None ->
  matchHere re [z] = Some groups ->
  (fix plus (acc s : jsstring) {struct s} : option (list jsstring) :=
     match s with
     | e :: s'' =>
         if cls e then
           match plus (acc ++ [e]) s'' with
           | Some groups => Some groups
           | None => andThen acc (matchHere re s)
           end
         else andThen acc (matchHere re s)
     | [] => andThen acc (matchHere re s)
     end) acc (run ++ [z]) = Some ((acc ++ run) :: groups).
Proof.
  induction run as [|d run IH]; intros acc z groups Hrun Hz Hend Hone.
  - cbn -[matchHere andThen]. rewrite Hz, Hend, Hone, List.app_nil_r.
    reflexivity.
  - apply Forall_cons in Hrun as [Hd Hrun].
    change ((d :: run) ++ [z]) with (d :: (run ++ [z])).
    cbn -[matchHere andThen List.app]. rewrite Hd.
    rewrite (IH (acc ++ [d]) z groups Hrun Hz Hend Hone).
    rewrite <- List.app_assoc. reflexivity.
Qed.

(** A group that cannot go on after its whole run gives its last code
    unit back. *)
Lemma matchHere_group_back run z groups :
  run <> [] ->
  Forall (fun c => cls c = true) run ->
  cls z = true ->
  matchHere re [] = None ->
  matchHere re [z] = Some groups ->
  matchHere (ReGroupPlus cls :: re) (run ++ [z]) = Some (run :: groups).
Proof.
  intros Hne Hrun Hz Hend Hone. destruct run as [|d run]; [congruence|].
  apply Forall_cons in Hrun as [Hd Hrun].
  change ((d :: run) ++ [z]) with (d :: (run ++ [z])).
  cbn [matchHere]. rewrite Hd.
  exact (plus_loop_back run [d] z groups Hrun Hz Hend Hone).
Qed.

End Backtracking.

(** X12.  In a date without hour, as "20. 11. 2024", the pattern takes the
    last digit of the year for the hour. *)
Theorem pattern_without_hour
    (prefix day sep1 month sep2 year : jsstring) (z : N) :
  Forall (fun c => isDigit c = false) prefix ->
  day <> [] -> Forall (fun c => isDigit c = true) day ->
  Forall (fun c => isWhiteSpace c = true) sep1 ->
  month <> [] -> Forall (fun c => isDigit c = true) month ->
  Forall (fun c => isWhiteSpace c = true) sep2 ->
  year <> [] -> Forall (fun c => isDigit c = true) year ->
  isDigit z = true ->
  reSearch specificFormat
    (prefix ++ day ++ lit "." ++ sep1 ++ month ++ lit "." ++ sep2 ++
     year ++ [z])
  = Some [day; month; year; [z]].
Proof.
  intros Hp Hd1 Hd2 Hs1 Hm1 Hm2 Hs2 Hy1 Hy2 Hz.
  rewrite (reSearch_skip _ _ Hp).
  assert (Hmatch : matchHere specificFormat
            (day ++ lit "." ++ sep1 ++ month ++ lit "." ++ sep2 ++ year ++ [z])
          = Some [day; month; year; [z]]).
  { unfold specificFormat. change (lit ".") with [46].
    apply matchHere_group; [exact Hd1 | exact Hd2 | reflexivity|].
    change ([46] ++ ?x) with (46 :: x). rewrite matchHere_char.
    apply matchHere_star;
      [exact Hs1 | apply (startsIn_app _ _ _ isDigit Hm1 Hm2 digit_not_space)|].
    apply matchHere_group; [exact Hm1 | exact Hm2 | reflexivity|].
    change ([46] ++ ?x) with (46 :: x). rewrite matchHere_char.
    apply matchHere_star;
      [exact Hs2 | apply (startsIn_app _ _ _ isDigit Hy1 Hy2 digit_not_space)|].
    apply matchHere_group_back; [exact Hy1 | exact Hy2 | exact Hz | reflexivity|].
    cbn [matchHere]. rewrite (digit_not_space z Hz), Hz. reflexivity. }
  destruct (day ++ _) as [|c s] eqn:E; cbn [reSearch]; rewrite Hmatch;
    reflexivity.
Qed.

Lemma pattern_without_hour_witness :
  reSearch specificFormat
    ([] ++ lit "20" ++ lit "." ++ lit " " ++ lit "11" ++ lit "." ++ lit " " ++
     lit "202" ++ [52])
  = Some [lit "20"; lit "11"; lit "202"; [52]].
Proof.
  apply pattern_without_hour; try discriminate; try reflexivity;
    repeat constructor.
Defined.

(** X13.  The spaces a time stamp gains in the cache do not change what the
    pattern of [parseDate] reads from it. *)
Theorem drift_keeps_pattern (h : Host) (passes : nat) (stamp : jsstring) :
  stamp <> [] ->
  includes stamp (lit ":") = false ->
  includes stamp (lit "*") = false ->
  isWhiteSpace (List.last stamp 0) = false ->
  fromSpecificFormat h (afterPasses passes stamp) = fromSpecificFormat h stamp.
Proof.
  change (lit ":") with [58]. change (lit "*") with [42].
  rewrite !includes_unit_absent. intros Hne Hc Hs Hl.
  destruct (afterPasses_shape stamp Hne Hc Hs Hl passes) as (E & _).
  unfold fromSpecificFormat. rewrite E, reSearch_skip; [reflexivity|].
  clear. induction passes as [|k IH]; cbn; constructor; [reflexivity | exact IH].
Qed.

Lemma drift_keeps_pattern_witness :
  fromSpecificFormat (hostWithReport [] 0) (afterPasses 3 (lit "20. 11. 2024 0"))
  = fromSpecificFormat (hostWithReport [] 0) (lit "20. 11. 2024 0").
Proof. apply drift_keeps_pattern; [discriminate | reflexivity..]. Defined.

(** ** More on the License Classifier *)

Lemma upperUnit_again c : upperUnit (upperUnit c) = upperUnit c.
Proof.
  unfold upperUnit.
  destruct (N.leb_spec 97 c) as [H1|H1], (N.leb_spec c 122) as [H2|H2];
    cbn [andb].
  - destruct (N.leb_spec 97 (c - 32)) as [H3|H3]; [lia|]. reflexivity.
  - destruct (N.leb_spec 97 c); [|lia].
    destruct (N.leb_spec c 122); [lia|]. reflexivity.
  - destruct (N.leb_spec 97 c); [lia|]. reflexivity.
  - destruct (N.leb_spec 97 c); [lia|]. reflexivity.
Qed.

Lemma upperUnits_ascii (s : jsstring) :
  isAscii s -> isAscii (List.map upperUnit s).
Proof.
  unfold isAscii. intros H. apply List.Forall_map.
  eapply List.Forall_impl; [|exact H]. exact upperUnit_ascii.
Qed.

Lemma toUpperCase_again (s : jsstring) :
  isAscii s -> toUpperCase (toUpperCase s) = toUpperCase s.
Proof.
  intros H. rewrite (toUpperCase_ascii s H).
  rewrite (toUpperCase_ascii _ (upperUnits_ascii s H)).
  rewrite List.map_map. apply List.map_ext. exact upperUnit_again.
Qed.

(** X14.  A license text is permissive as soon as a part of it is, whatever
    stands around that part, and its classification does not depend on
    the case of its letters. *)
Theorem classifier_embedding (before license after : jsstring) :
  isAscii (before ++ license ++ after) ->
  (isPermissiveLicense license = true ->
   isPermissiveLicense (before ++ license ++ after) = true)
  /\ isPermissiveLicense (toUpperCase license) = isPermissiveLicense license.
Proof.
  intros Hall. pose proof Hall as Hparts.
  apply isAscii_app in Hparts as [Hb Hparts].
  apply isAscii_app in Hparts as [Hl Ha]. split.
  - unfold isPermissiveLicense. rewrite !existsb_exists.
    intros (pl & Hin & H). exists pl. split; [exact Hin|].
    rewrite (toUpperCase_ascii license Hl) in H.
    rewrite (toUpperCase_ascii _ Hall).
    apply includes_spec in H as (a & b & E). apply includes_spec.
    rewrite !List.map_app, E.
    exists (List.map upperUnit before ++ a), (b ++ List.map upperUnit after).
    rewrite <- !List.app_assoc. reflexivity.
  - unfold isPermissiveLicense. rewrite (toUpperCase_again license Hl).
    reflexivity.
Qed.

Lemma classifier_embedding_witness :
  (isPermissiveLicense (lit "MIT") = true ->
   isPermissiveLicense (lit "(" ++ lit "MIT" ++ lit " AND GPL-3.0)") = true)
  /\ isPermissiveLicense (toUpperCase (lit "MIT")) = isPermissiveLicense (lit "MIT").
Proof. apply classifier_embedding. repeat constructor. Defined.

(** ** Links of a fresh record *)

Lemma hexDigit_range d : 48 <= hexDigit d.
Proof. unfold hexDigit. destruct (d <? 10); lia. Qed.

Lemma In_percent c bytes :
  List.In c (concat (List.map percent bytes)) -> c = 37 \/ 48 <= c.
Proof.
  induction bytes as [|b bytes IH]; cbn [List.map concat]; [intros []|].
  intros H. apply List.in_app_or in H as [H|H]; [|exact (IH H)].
  destruct H as [<-|[<-|[<-|[]]]]; [left; reflexivity | right..];
    apply hexDigit_range.
Qed.

(** What [encodeURIComponent] gives out is an unreserved code unit of its
    argument, a percent sign, or a digit of an escape. *)
Lemma In_encodeGo s : forall pending e c,
  encodeGo pending s = Some e -> List.In c e ->
  (isUnreserved c = true /\ List.In c s) \/ c = 37 \/ 48 <= c.
Proof.
  induction s as [|d s IH]; intros pending e c He Hin; cbn [encodeGo] in He.
  - destruct pending; [discriminate|]. injection He as <-. destruct Hin.
  - assert (Hrest : forall e', encodeGo None s = Some e' -> List.In c e' ->
              (isUnreserved c = true /\ List.In c (d :: s)) \/ c = 37 \/ 48 <= c).
    { intros e' He' Hin'. destruct (IH None e' c He' Hin') as [[H1 H2]|H].
      - left. split; [exact H1 | right; exact H2].
      - right. exact H. }
    destruct pending as [hi|].
    + destruct (isLowSurrogate d); [|discriminate].
      destruct (encodeGo None s) as [r|] eqn:Er; [|discriminate].
      injection He as <-. apply List.in_app_or in Hin as [Hin|Hin].
      * right. exact (In_percent _ _ Hin).
      * exact (Hrest r eq_refl Hin).
    + destruct (isUnreserved d) eqn:Eu.
      * destruct (encodeGo None s) as [r|] eqn:Er; [|discriminate].
        injection He as <-. destruct Hin as [<-|Hin].
        -- left. split; [exact Eu | left; reflexivity].
        -- exact (Hrest r eq_refl Hin).
      * destruct (isLowSurrogate d); [discriminate|].
        destruct (isHighSurrogate d).
        -- destruct (IH (Some d) e c He Hin) as [[H1 H2]|H].
           ++ left. split; [exact H1 | right; exact H2].
           ++ right. exact H.
        -- destruct (encodeGo None s) as [r|] eqn:Er; [|discriminate].
           injection He as <-. apply List.in_app_or in Hin as [Hin|Hin].
           ++ right. exact (In_percent _ _ Hin).
           ++ exact (Hrest r eq_refl Hin).
Qed.

(** An unreserved code unit of the argument is in the result. *)
Lemma encodeGo_keeps s : forall pending e c,
  encodeGo pending s = Some e -> isUnreserved c = true -> List.In c s ->
  List.In c e.
Proof.
  induction s as [|d s IH]; intros pending e c He Hu Hin; [destruct Hin|].
  cbn [encodeGo] in He. destruct pending as [hi|].
  - destruct (isLowSurrogate d) eqn:El; [|discriminate].
    destruct (encodeGo None s) as [r|] eqn:Er; [|discriminate].
    injection He as <-. apply List.in_or_app. right.
    destruct Hin as [->|Hin]; [|exact (IH None r c Er Hu Hin)].
    exfalso. revert Hu El. unfold isUnreserved, isLowSurrogate.
    rewrite !orb_true_iff, !andb_true_iff, !N.leb_le, !N.eqb_eq. lia.
  - destruct (isUnreserved d) eqn:Eu.
    + destruct (encodeGo None s) as [r|] eqn:Er; [|discriminate].
      injection He as <-. destruct Hin as [->|Hin]; [left; reflexivity|].
      right. exact (IH None r c Er Hu Hin).
    + destruct Hin as [->|Hin]; [congruence|].
      destruct (isLowSurrogate d); [discriminate|].
      destruct (isHighSurrogate d); [exact (IH (Some d) e c He Hu Hin)|].
      destruct (encodeGo None s) as [r|] eqn:Er; [|discriminate].
      injection He as <-. apply List.in_or_app. right.
      exact (IH None r c Er Hu Hin).
Qed.

Lemma encoded_plain s e :
  encodeURIComponent s = Some e ->
  ~ List.In 10 e /\ ~ List.In 35 e
  /\ (List.In 40 e <-> List.In 40 s).
Proof.
  intros He. split; [|split; [|split]].
  - intros H. destruct (In_encodeGo s None e 10 He H) as [[Hu _]|[Hu|Hu]];
      [discriminate | discriminate | lia].
  - intros H. destruct (In_encodeGo s None e 35 He H) as [[Hu _]|[Hu|Hu]];
      [discriminate | discriminate | lia].
  - intros H. destruct (In_encodeGo s None e 40 He H) as [[_ Hu]|[Hu|Hu]];
      [exact Hu | discriminate | lia].
  - intros H. exact (encodeGo_keeps s None e 40 He eq_refl H).
Qed.

Lemma includes_paren (s t : jsstring) :
  (List.In 40 s <-> List.In 40 t) ->
  includes s (lit "(") = includes t (lit "(").
Proof.
  change (lit "(") with [40]. intros H.
  destruct (includes s [40]) eqn:Es, (includes t [40]) eqn:Et; try reflexivity.
  - apply includes_unit_In, H, includes_unit_In in Es. congruence.
  - apply includes_unit_In, H, includes_unit_In in Et. congruence.
Qed.

Lemma prefixed_without (c : N) (prefix e : jsstring) :
  ~ List.In c prefix -> ~ List.In c e -> includes (prefix ++ e) [c] = false.
Proof.
  intros P E. apply includes_unit_absent. intros H.
  apply List.in_app_or in H as [H|H]; contradiction.
Qed.

Lemma prefixed_paren (prefix e s : jsstring) :
  ~ List.In 40 prefix -> (List.In 40 e <-> List.In 40 s) ->
  includes (prefix ++ e) (lit "(") = includes s (lit "(").
Proof.
  intros P H. apply includes_paren. rewrite List.in_app_iff. tauto.
Qed.

Ltac absent :=
  let H := fresh in
  vm_compute; intros H; repeat (destruct H as [H|H]; [discriminate H|]); exact H.

(** X15.  The links of a record that is not taken from the cache hold no
    line break and no [#], whatever the name and the license are; an
    opening parenthesis is in the NPM link exactly when it is in the
    name, and in the license link exactly when it is in the license. *)
Theorem fresh_links_plain
    (h : Host) (cache : CacheObject) (dep block : jsstring) (flag : bool) :
  usedCache (unitOfWork h cache dep) = false ->
  settled (unitOfWork h cache dep) = Some (block, flag) ->
  exists npm lic,
    block = formatDependencyInfo dep npm lic
              (orEmpty (summary (info (fetchPackageInfo h dep)))) flag
              (fetchedAt h dep)
    /\ includes npm nl = false
    /\ includes npm (lit "#") = false
    /\ includes lic nl = false
    /\ includes lic (lit "#") = false
    /\ includes npm (lit "(") = includes dep (lit "(")
    /\ includes lic (lit "(")
       = includes (orEmpty (license (info (fetchPackageInfo h dep)))) (lit "(").
Proof.
  intros Hc Hs.
  assert (Hfresh : exists log, unitOfWork h cache dep = freshWork h dep log).
  { revert Hc Hs. unfold unitOfWork.
    destruct (getProperty cache dep) as [|c|[]]; eauto; try discriminate.
    destruct (isCacheValid h c); [discriminate | eauto]. }
  destruct Hfresh as [log Hw]. rewrite Hw in Hs. clear Hw Hc.
  unfold freshWork in Hs. cbn [settled] in Hs.
  destruct (encodeURIComponent dep) as [e|] eqn:He; [|discriminate].
  cbn [mbind option_bind] in Hs.
  destruct (freshLicenseLink _) as [lic|] eqn:Hl; [|discriminate].
  cbn [mbind option_bind] in Hs. injection Hs as <- <-.
  exists (npmPrefix ++ e), lic. split; [reflexivity|].
  destruct (encoded_plain dep e He) as (E1 & E2 & E3).
  assert (P10 : ~ List.In 10 npmPrefix) by absent.
  assert (P35 : ~ List.In 35 npmPrefix) by absent.
  assert (P40 : ~ List.In 40 npmPrefix) by absent.
  assert (L10 : ~ List.In 10 licensePrefix) by absent.
  assert (L35 : ~ List.In 35 licensePrefix) by absent.
  assert (L40 : ~ List.In 40 licensePrefix) by absent.
  split; [exact (prefixed_without 10 _ _ P10 E1)|].
  split; [exact (prefixed_without 35 _ _ P35 E2)|].
  revert Hl. unfold freshLicenseLink.
  destruct (truthy (orEmpty (license (info (fetchPackageInfo h dep))))) eqn:Et.
  - destruct (encodeURIComponent (orEmpty _)) as [el|] eqn:Hel; [|discriminate].
    cbn [fmap option_fmap option_map]. intros H. injection H as <-.
    destruct (encoded_plain _ el Hel) as (F1 & F2 & F3).
    split; [exact (prefixed_without 10 _ _ L10 F1)|].
    split; [exact (prefixed_without 35 _ _ L35 F2)|].
    split; [exact (prefixed_paren _ _ _ P40 E3) | exact (prefixed_paren _ _ _ L40 F3)].
  - intros H. injection H as <-.
    destruct (orEmpty (license (info (fetchPackageInfo h dep)))); [|discriminate].
    split; [reflexivity|]. split; [reflexivity|].
    split; [exact (prefixed_paren _ _ _ P40 E3) | reflexivity].
Qed.

Lemma fresh_links_plain_witness :
  exists npm lic,
    formatRecord forge
    = formatDependencyInfo (lit "node-forge") npm lic
        (orEmpty (summary (info (fetchPackageInfo forgeHost (lit "node-forge")))))
        true (fetchedAt forgeHost (lit "node-forge"))
    /\ includes npm nl = false
    /\ includes npm (lit "#") = false
    /\ includes lic nl = false
    /\ includes lic (lit "#") = false
    /\ includes npm (lit "(") = includes (lit "node-forge") (lit "(")
    /\ includes lic (lit "(")
       = includes (orEmpty (license (info (fetchPackageInfo forgeHost
                                              (lit "node-forge"))))) (lit "(").
Proof.
  apply (fresh_links_plain forgeHost (cacheFor forgeHost));
    vm_compute; reflexivity.
Defined.

Local Close Scope N_scope.

Local Open Scope nat_scope.

(** ** Names *)

(** X16.  The names the pipeline works through are the names declared in
    either mapping, each once, in ascending order of their code units,
    in whatever order the keys of the merged object are enumerated. *)
Theorem names_in_order (pkg : PackageJson) :
  NoDup (sort (allDependencies pkg))
  /\ Sorted ascending (sort (allDependencies pkg))
  /\ (forall x, x ∈ sort (allDependencies pkg) <->
                x ∈ keysOf (dependencies pkg) \/ x ∈ keysOf (devDependencies pkg))
  /\ (forall keys, Permutation keys (allDependencies pkg) ->
                   sort keys = sort (allDependencies pkg)).
Proof.
  destruct (allDependencies_spec pkg) as [Hnd Hin].
  split; [rewrite sort_perm; exact Hnd|]. split; [apply sort_sorted|]. split.
  - intros x. rewrite sort_perm. apply Hin.
  - intros keys. apply sort_enumeration.
Qed.

(** ** Requests and progress of the queue *)

Lemma startedSum_insert (f : Work -> nat) ps ws i old new w :
  ps !! i = Some old -> ws !! i = Some w ->
  startedSum f (<[i := new]> ps) ws
  + (match old with Queued => 0 | _ => f w end)
  = startedSum f ps ws + (match new with Queued => 0 | _ => f w end).
Proof.
  revert ws i. induction ps as [|p ps IH]; intros ws i Hp Hw.
  - destruct i; discriminate.
  - destruct ws as [|w0 ws]; [destruct i; discriminate|].
    destruct i as [|i].
    + injection Hp as ->. injection Hw as ->.
      change (<[0 := new]> (old :: ps)) with (new :: ps).
      cbn [startedSum]. lia.
    + specialize (IH ws i Hp Hw).
      change (<[S i := new]> (p :: ps)) with (p :: <[i := new]> ps).
      cbn [startedSum]. lia.
Qed.

Lemma startedSum_none (f : Work -> nat) n ws :
  startedSum f (replicate n Queued) ws = 0.
Proof.
  revert ws. induction n as [|n IH]; intros [|w ws]; cbn; try reflexivity.
  apply IH.
Qed.

Lemma startedSum_le (f : Work -> nat) ps : forall ws,
  startedSum f ps ws <= sumOf f ws.
Proof.
  induction ps as [|p ps IH]; intros [|w ws]; cbn [startedSum sumOf]; try lia.
  specialize (IH ws). destruct p; lia.
Qed.

Lemma startedSum_all (f : Work -> nat) ps : forall ws,
  length ps = length ws -> forallb isSettled ps = true ->
  startedSum f ps ws = sumOf f ws.
Proof.
  induction ps as [|p ps IH]; intros [|w ws] Hlen Hall;
    try discriminate; [reflexivity|].
  cbn [forallb] in Hall. apply andb_true_iff in Hall as [Hp Hall].
  destruct p; try discriminate. cbn [startedSum sumOf].
  rewrite IH; [reflexivity | cbn in Hlen; lia | exact Hall].
Qed.

Section Requests.

Variable works : list Work.

Lemma step_requests st ev st' :
  step works st ev = Some st' ->
  requestsSent st = startedSum wired (phases st) works ->
  requestsSent st' = startedSum wired (phases st') works.
Proof.
  unfold step. intros Hstep Hinv.
  destruct ev as [i|i|i];
    destruct (phases st !! i) as [[]|] eqn:Hp; try discriminate.
  - destruct (works !! i) as [w|] eqn:Hw; [|discriminate].
    destruct (decide (pending st < concurrency)); [|discriminate].
    destruct (awaited w) eqn:Ea; injection Hstep as <-.
    + pose proof (startedSum_insert wired _ _ i Queued Awaiting w Hp Hw) as E.
      assert (Ew : wired w = requests w) by (unfold wired; rewrite Ea; reflexivity).
      unfold send, setPhase. cbn [requestsSent phases].
      cbv beta iota in E. rewrite Ew in E. lia.
    + pose proof (startedSum_insert wired _ _ i Queued Finishing w Hp Hw) as E.
      assert (Ew : wired w = 0) by (unfold wired; rewrite Ea; reflexivity).
      unfold credit, setPhase. cbn [requestsSent phases].
      cbv beta iota in E. rewrite Ew in E. lia.
  - destruct (works !! i) as [w|] eqn:Hw; [|discriminate]. injection Hstep as <-.
    pose proof (startedSum_insert wired _ _ i Awaiting Finishing w Hp Hw) as E.
    unfold credit, setPhase. cbn [requestsSent phases]. lia.
  - injection Hstep as <-. unfold setPhase. cbn [requestsSent phases].
    destruct (works !! i) as [w|] eqn:Hw.
    + pose proof (startedSum_insert wired _ _ i Finishing Settled w Hp Hw) as E.
      lia.
    + rewrite Hinv. clear Hinv. revert Hp Hw. generalize (phases st).
      intros ps. revert i works. clear.
      induction ps as [|p ps IH]; intros i ws Hp Hw; [destruct i; discriminate|].
      destruct ws as [|w ws]; [destruct (<[i:=Settled]> (p :: ps)); reflexivity|].
      destruct i as [|i]; [discriminate|].
      change (<[S i := Settled]> (p :: ps)) with (p :: <[i := Settled]> ps).
      cbn [startedSum]. rewrite (IH i ws Hp Hw). reflexivity.
Qed.

Lemma run_requests evs : forall st st',
  run works st evs = Some st' ->
  requestsSent st = startedSum wired (phases st) works ->
  requestsSent st' = startedSum wired (phases st') works.
Proof.
  induction evs as [|ev evs IH]; intros st st' Hrun Hinv; cbn in Hrun.
  - injection Hrun as <-. exact Hinv.
  - destruct (step works st ev) as [st1|] eqn:Hstep; [|discriminate].
    eapply IH; [exact Hrun|]. eapply step_requests; eassumption.
Qed.

(** Every event takes a task one phase on, or two. *)
Lemma stepsLeft_insert ps i old new :
  ps !! i = Some old ->
  stepsLeftSum (<[i := new]> ps) + stepsLeft old
  = stepsLeftSum ps + stepsLeft new.
Proof.
  revert i. induction ps as [|p ps IH]; intros i Hp; [destruct i; discriminate|].
  destruct i as [|i].
  - injection Hp as ->. change (<[0 := new]> (old :: ps)) with (new :: ps).
    cbn [stepsLeftSum]. lia.
  - specialize (IH i Hp).
    change (<[S i := new]> (p :: ps)) with (p :: <[i := new]> ps).
    cbn [stepsLeftSum]. lia.
Qed.

Lemma step_stepsLeft st ev st' :
  step works st ev = Some st' ->
  stepsLeftSum (phases st') < stepsLeftSum (phases st).
Proof.
  unfold step. intros Hstep.
  destruct ev as [i|i|i];
    destruct (phases st !! i) as [[]|] eqn:Hp; try discriminate.
  - destruct (works !! i) as [w|]; [|discriminate].
    destruct (decide (pending st < concurrency)); [|discriminate].
    destruct (awaited w); injection Hstep as <-.
    + pose proof (stepsLeft_insert _ i Queued Awaiting Hp) as E.
      unfold send, setPhase. cbn [phases]. cbn [stepsLeft] in E. lia.
    + pose proof (stepsLeft_insert _ i Queued Finishing Hp) as E.
      unfold credit, setPhase. cbn [phases]. cbn [stepsLeft] in E. lia.
  - destruct (works !! i) as [w|]; [|discriminate]. injection Hstep as <-.
    pose proof (stepsLeft_insert _ i Awaiting Finishing Hp) as E.
    unfold credit, setPhase. cbn [phases]. cbn [stepsLeft] in E. lia.
  - injection Hstep as <-.
    pose proof (stepsLeft_insert _ i Finishing Settled Hp) as E.
    unfold setPhase. cbn [phases]. cbn [stepsLeft] in E. lia.
Qed.

Lemma run_stepsLeft evs : forall st st',
  run works st evs = Some st' ->
  stepsLeftSum (phases st') + length evs <= stepsLeftSum (phases st).
Proof.
  induction evs as [|ev evs IH]; intros st st' Hrun; cbn in Hrun.
  - injection Hrun as <-. cbn. lia.
  - destruct (step works st ev) as [st1|] eqn:Hstep; [|discriminate].
    specialize (IH st1 st' Hrun). apply step_stepsLeft in Hstep.
    cbn [length]. lia.
Qed.

End Requests.

Lemma stepsLeft_initial n : stepsLeftSum (replicate n Queued) = 3 * n.
Proof. induction n as [|n IH]; cbn [replicate stepsLeftSum stepsLeft]; lia. Qed.

(** Where the phases of a queue stand. *)
Lemma phase_cases ps :
  (exists i, ps !! i = Some Awaiting)
  \/ (exists i, ps !! i = Some Finishing)
  \/ (List.filter holdsSlot ps = []
      /\ (forallb isSettled ps = true \/ exists i, ps !! i = Some Queued)).
Proof.
  induction ps as [|p ps IH].
  - right. right. split; [reflexivity | left; reflexivity].
  - destruct p.
    + destruct IH as [[i H]|[[i H]|[Hf [Hs|[i H]]]]].
      * left. exists (S i). exact H.
      * right. left. exists (S i). exact H.
      * right. right. split; [exact Hf | right; exists 0; reflexivity].
      * right. right. split; [exact Hf | right; exists 0; reflexivity].
    + left. exists 0. reflexivity.
    + right. left. exists 0. reflexivity.
    + destruct IH as [[i H]|[[i H]|[Hf [Hs|[i H]]]]].
      * left. exists (S i). exact H.
      * right. left. exists (S i). exact H.
      * right. right. split; [exact Hf | left; exact Hs].
      * right. right. split; [exact Hf | right; exists (S i); exact H].
Qed.

Lemma work_at (works : list Work) (st : Pool) i p :
  length (phases st) = length works -> phases st !! i = Some p ->
  exists w, works !! i = Some w.
Proof.
  intros Hlen Hp. apply lookup_lt_is_Some. rewrite <- Hlen.
  apply lookup_lt_is_Some. eauto.
Qed.

Lemma unitOfWork_requests h cache dep :
  requests (unitOfWork h cache dep) = (if sendsRequest h cache dep then 1 else 0)
  /\ wired (unitOfWork h cache dep) = requests (unitOfWork h cache dep)
  /\ requests (unitOfWork h cache dep) + fromCache (unitOfWork h cache dep) <= 1.
Proof.
  assert (Hf : forall log,
            requests (freshWork h dep log)
            = match encodeURIComponent dep with Some _ => 1 | None => 0 end
            /\ fromCache (freshWork h dep log) = 0
            /\ awaited (freshWork h dep log) = true).
  { intros log. unfold fromCache, freshWork.
    cbn [awaited requests usedCache]. split; [|split; reflexivity].
    unfold fetchPackageInfo. destruct (encodeURIComponent dep); [|reflexivity].
    destruct (registry h dep) as [|status []];
      try reflexivity; destruct (responseOk status); reflexivity. }
  unfold wired, sendsRequest, unitOfWork.
  destruct (getProperty cache dep) as [|c|[]].
  - destruct (Hf []) as (-> & -> & ->).
    destruct (encodeURIComponent dep); repeat split; cbn; lia.
  - destruct (isCacheValid h c).
    + repeat split. cbn. lia.
    + destruct (Hf (snd (parseDate h (lastUpdated c)))) as (-> & -> & ->).
      destruct (encodeURIComponent dep); repeat split; cbn; lia.
  - repeat split. cbn. lia.
  - destruct (Hf []) as (-> & -> & ->).
    destruct (encodeURIComponent dep); repeat split; cbn; lia.
Qed.

Lemma startedSum_ext (f g : Work -> nat) (ps : list Phase) : forall ws,
  (forall w, List.In w ws -> f w = g w) ->
  startedSum f ps ws = startedSum g ps ws.
Proof.
  induction ps as [|p ps IH]; intros [|w ws] H; try reflexivity.
  cbn [startedSum]. rewrite (H w (or_introl eq_refl)).
  rewrite (IH ws); [reflexivity|]. intros x Hx. apply H. right. exact Hx.
Qed.

Lemma sumOf_names {A} (f : A -> bool) (g : A -> Work) (l : list A) :
  (forall x, requests (g x) = if f x then 1 else 0) ->
  sumOf requests (List.map g l) = length (List.filter f l).
Proof.
  intros H. induction l as [|x l IH]; cbn [List.map sumOf List.filter];
    [reflexivity|].
  rewrite H, IH. destruct (f x); cbn [length]; lia.
Qed.

Lemma sumOf_count (f : Work -> bool) (ws : list Work) :
  sumOf (fun w => if f w then 1 else 0) ws = length (List.filter f ws).
Proof.
  induction ws as [|w ws IH]; cbn [sumOf List.filter]; [reflexivity|].
  destruct (f w); cbn [length]; lia.
Qed.

Lemma sumOf_plus (f g : Work -> nat) (ws : list Work) :
  sumOf (fun w => f w + g w) ws = sumOf f ws + sumOf g ws.
Proof. induction ws as [|w ws IH]; cbn [sumOf]; lia. Qed.

Lemma sumOf_bound (f : Work -> nat) (ws : list Work) :
  (forall w, List.In w ws -> f w <= 1) -> sumOf f ws <= length ws.
Proof.
  induction ws as [|w ws IH]; intros H; cbn [sumOf length]; [lia|].
  pose proof (H w (or_introl eq_refl)).
  assert (sumOf f ws <= length ws) by (apply IH; intros x Hx; apply H; right; exact Hx).
  lia.
Qed.

(** X17.  The task of a dependency sends one request when the lookup of
    its name in the cache gives nothing or an entry that is not valid,
    and its name can be put into a URL; otherwise it sends none.  In
    whatever order the queue runs the tasks, the requests sent are those
    of the tasks started, each its own; together with the dependencies
    served from the cache they never exceed the dependencies; and once
    every task is settled they are as many as the dependencies whose
    task sends one. *)
Theorem one_request_per_dependency
    (h : Host) (pkg : PackageJson) (evs : list Event) (st : Pool) :
  run (worksOf h pkg) (initialPool (worksOf h pkg)) evs = Some st ->
  (forall dep,
     requests (unitOfWork h (fst (readCachedDependencies (previousReport h))) dep)
     = if sendsRequest h (fst (readCachedDependencies (previousReport h))) dep
       then 1 else 0)
  /\ requestsSent st = startedSum requests (phases st) (worksOf h pkg)
  /\ requestsSent st + length (List.filter usedCache (worksOf h pkg))
     <= length (allDependencies pkg)
  /\ (allSettled st = true ->
      requestsSent st
      = length (List.filter
                  (sendsRequest h (fst (readCachedDependencies (previousReport h))))
                  (sort (allDependencies pkg)))).
Proof.
  intros Hrun.
  assert (Hinv : requestsSent st = startedSum requests (phases st) (worksOf h pkg)).
  { rewrite <- (startedSum_ext wired requests).
    - eapply run_requests; [exact Hrun|].
      unfold initialPool. cbn [requestsSent phases].
      rewrite startedSum_none. reflexivity.
    - intros w Hin. unfold worksOf in Hin.
      apply List.in_map_iff in Hin as (dep & <- & _).
      apply unitOfWork_requests. }
  split; [intros dep; apply unitOfWork_requests|].
  split; [exact Hinv|]. split.
  - rewrite Hinv.
    pose proof (startedSum_le requests (phases st) (worksOf h pkg)).
    rewrite <- (sumOf_count usedCache).
    change (sumOf (fun w => if usedCache w then 1 else 0) (worksOf h pkg))
      with (sumOf fromCache (worksOf h pkg)).
    assert (sumOf requests (worksOf h pkg) + sumOf fromCache (worksOf h pkg)
            <= length (worksOf h pkg)).
    { rewrite <- sumOf_plus. apply sumOf_bound. intros w Hin.
      unfold worksOf in Hin. apply List.in_map_iff in Hin as (dep & <- & _).
      apply unitOfWork_requests. }
    assert (length (worksOf h pkg) = length (allDependencies pkg)).
    { unfold worksOf. rewrite List.length_map. apply sort_length. }
    lia.
  - intros Hall. rewrite Hinv.
    destruct (run_consistent _ evs _ _ Hrun (consistent_initial _)) as [Hlen _].
    rewrite startedSum_all by assumption.
    unfold worksOf. apply sumOf_names. intros dep. apply unitOfWork_requests.
Qed.

Lemma one_request_per_dependency_witness :
  exists st,
    run specWorks (initialPool specWorks) outOfOrder = Some st
    /\ (forall dep,
          requests (unitOfWork specHost
                      (fst (readCachedDependencies (previousReport specHost))) dep)
          = if sendsRequest specHost
                 (fst (readCachedDependencies (previousReport specHost))) dep
            then 1 else 0)
    /\ requestsSent st = startedSum requests (phases st) specWorks
    /\ requestsSent st + length (List.filter usedCache specWorks) <= 3
    /\ (allSettled st = true ->
        requestsSent st
        = length (List.filter
                    (sendsRequest specHost
                       (fst (readCachedDependencies (previousReport specHost))))
                    (sort (allDependencies
                             (packageOf ["left-pad"; "copyleft-lib";
                                         "broken-pkg"]%string))))).
Proof.
  eexists. split; [vm_compute; reflexivity|].
  apply (one_request_per_dependency specHost
           (packageOf ["left-pad"; "copyleft-lib"; "broken-pkg"]%string)
           outOfOrder).
  vm_compute. reflexivity.
Defined.

(** X18.  The queue cannot stall and cannot run on: while a task is
    unsettled some event can happen, whatever has happened before, and a
    run of [n] tasks has at most [3 * n] events; once every task is
    settled no event can happen any more. *)
Theorem queue_progress (works : list Work) (evs : list Event) (st : Pool) :
  run works (initialPool works) evs = Some st ->
  length evs <= 3 * length works
  /\ (allSettled st = false -> exists ev st', step works st ev = Some st')
  /\ (allSettled st = true -> forall ev, step works st ev = None).
Proof.
  intros Hrun. split; [|split].
  - pose proof (run_stepsLeft works evs _ _ Hrun) as H.
    unfold initialPool in H. cbn [phases] in H.
    rewrite stepsLeft_initial in H. lia.
  - intros Hall.
    destruct (run_consistent _ evs _ _ Hrun (consistent_initial _)) as [Hlen _].
    destruct (phase_cases (phases st)) as [[i H]|[[i H]|[Hf [Hs|[i H]]]]].
    + destruct (work_at works st i _ Hlen H) as [w Hw].
      exists (Arrive i). eexists. unfold step. rewrite H, Hw. reflexivity.
    + exists (Release i). eexists. unfold step. rewrite H. reflexivity.
    + unfold allSettled in Hall. congruence.
    + destruct (work_at works st i _ Hlen H) as [w Hw].
      exists (Start i). unfold step. rewrite H, Hw.
      destruct (decide (pending st < concurrency)) as [|Hn].
      * destruct (awaited w); eexists; reflexivity.
      * exfalso. apply Hn. unfold pending. rewrite Hf. unfold concurrency.
        cbn. lia.
  - intros Hall ev. unfold allSettled in Hall.
    rewrite forallb_forall in Hall.
    assert (Hs : forall i p, phases st !! i = Some p -> p = Settled).
    { intros i p Hp. apply list_elem_of_lookup_2, list_elem_of_In in Hp.
      specialize (Hall p Hp). destruct p; try discriminate. reflexivity. }
    unfold step. destruct ev as [i|i|i];
      destruct (phases st !! i) as [p|] eqn:Hp; try reflexivity;
      rewrite (Hs i p Hp); reflexivity.
Qed.

Lemma queue_progress_witness :
  exists st,
    run twelveWorks (initialPool twelveWorks) tenStarts = Some st
    /\ length tenStarts <= 3 * length twelveWorks
    /\ (allSettled st = false ->
        exists ev st', step twelveWorks st ev = Some st')
    /\ (allSettled st = true -> forall ev, step twelveWorks st ev = None).
Proof.
  eexists. split; [vm_compute; reflexivity|].
  apply (queue_progress twelveWorks tenStarts). vm_compute. reflexivity.
Defined.

(** ** The progress line *)

Lemma concat_units (n : nat) (c : N) :
  concat (replicate n [c]) = replicate n c.
Proof.
  induction n as [|n IH]; [reflexivity|].
  cbn [replicate concat]. rewrite IH. reflexivity.
Qed.

Lemma repeatHalf_unit (c : N) (halves : nat) :
  repeatHalf [c] (Z.of_nat halves) = Some (replicate (halves / 2) c).
Proof.
  unfold repeatHalf. cbv zeta.
  rewrite Z.quot_div_nonneg by lia.
  change 2%Z with (Z.of_nat 2). rewrite <- Nat2Z.inj_div.
  destruct (Z.ltb_spec (Z.of_nat (halves / 2)) 0) as [H|_]; [lia|].
  rewrite Nat2Z.id, concat_units. reflexivity.
Qed.

(** X19.  For a percentage up to 100 [updateProgress] does not throw, and
    the bar it draws has 50 cells when the percentage is even and 49
    when it is odd: both halves of an odd percentage are cut off. *)
Theorem progress_bar_cells (p current total : nat) :
  p <= 100 ->
  exists bar,
    updateProgress (Whole p) current total
    = Some ([13%N] ++ lit "[" ++ bar ++ lit "] " ++ ofNat p ++ lit "% | " ++
            ofNat current ++ lit "/" ++ ofNat total)
    /\ bar = replicate (p / 2) 61%N ++ replicate ((100 - p) / 2) 45%N
    /\ length bar = 50 - p mod 2.
Proof.
  intros Hp. exists (replicate (p / 2) 61%N ++ replicate ((100 - p) / 2) 45%N).
  split; [|split; [reflexivity|]].
  - unfold updateProgress, progressBar.
    change (lit "=") with [61%N]. change (lit "-") with [45%N].
    rewrite repeatHalf_unit.
    replace (100 - Z.of_nat p)%Z with (Z.of_nat (100 - p)) by lia.
    rewrite repeatHalf_unit. reflexivity.
  - rewrite length_app, !length_replicate.
    pose proof (Nat.div_mod_eq p 2) as A.
    pose proof (Nat.div_mod_eq (100 - p) 2) as B.
    pose proof (Nat.mod_upper_bound p 2 ltac:(lia)) as C.
    pose proof (Nat.mod_upper_bound (100 - p) 2 ltac:(lia)) as D.
    generalize dependent (p / 2). generalize dependent ((100 - p) / 2).
    generalize dependent (p mod 2). generalize dependent ((100 - p) mod 2).
    intros. lia.
Qed.

Lemma progress_bar_cells_witness :
  exists bar,
    updateProgress (Whole 33) 1 3
    = Some ([13%N] ++ lit "[" ++ bar ++ lit "] " ++ ofNat 33 ++ lit "% | " ++
            ofNat 1 ++ lit "/" ++ ofNat 3)
    /\ bar = replicate (33 / 2) 61%N ++ replicate ((100 - 33) / 2) 45%N
    /\ length bar = 50 - 33 mod 2.
Proof. apply (progress_bar_cells 33 1 3). lia. Defined.
